(** * kubectl-rltop: formatting, aggregation, percentages and the combiners

    A shallow embedding of the computational layer of kubectl-rltop
    (package [pkg]: metrics.go, nodes.go, resources.go; package [cmd]:
    top.go, node.go) together with the properties its specification
    states about it. *)

From Stdlib Require Import ZArith Lia Bool List Ascii String.
From Stdlib Require Import DecimalString DecimalZ DecimalN DecimalPos.
From Stdlib Require Import Floats.SpecFloat.
From stdpp Require Import base option list strings gmap fin_maps.

Local Open Scope Z_scope.
#[local] Set Warnings "-clear-no-such-hyp".

(** ** float64

    Go's [float64] is IEEE 754 binary64.  It is modelled by the standard
    library's [spec_float] at precision 53 and maximal exponent 1024, whose
    operations round to nearest, ties to even, as Go's do. *)
Module Float64.

Definition float64 := spec_float.

Definition prec : Z := 53.
Definition emax : Z := 1024.

(** The integer nearest to [num / den], a tie going to the even one
    ([0 <= num], [0 < den]). *)
Definition round_half_even (num den : Z) : Z :=
  let q := num / den in
  match 2 * (num mod den) ?= den with
  | Lt => q
  | Gt => q + 1
  | Eq => if Z.even q then q else q + 1
  end.

(** [n] is an integer nearest to [num / den], and the even one of the
    two when [num / den] lies half way. *)
Definition nearest_even (num den n : Z) : Prop :=
  Z.abs (2 * num - 2 * n * den) <= den
  /\ (Z.abs (2 * num - 2 * n * den) = den -> Z.even n = true).

(** The number of low bits that a mantissa [m] at exponent [e] must
    lose to fit the format. *)
Definition excess (m e : Z) : Z := Z.max 0 (fexp prec emax (Zdigits2 m + e) - e).

(** The float64 nearest to [(N / D) * 2^e], ties to even, for [0 <= N]
    and [0 < D], spelled out with integer arithmetic: the quotient is
    rounded at the exponent the format allows, and once more should the
    rounding carry into a new bit. *)
Definition nearest (s : bool) (N D e : Z) : float64 :=
  let n := excess (N / D) e in
  let m1 := round_half_even N (D * 2 ^ n) in
  let n2 := excess m1 (e + n) in
  match m1 / 2 ^ n2 with
  | 0 => S754_zero s
  | Z.pos m =>
      if e + n + n2 <=? emax - prec then S754_finite s m (e + n + n2)
      else S754_infinity s
  | Z.neg _ => S754_nan
  end.

(** [float64(n)] for an integer [n]. *)
Definition of_Z (n : Z) : float64 := binary_normalize prec emax n 0 false.

Definition div (x y : float64) : float64 := SFdiv prec emax x y.
Definition mul (x y : float64) : float64 := SFmul prec emax x y.

(** [x == y] on floats. *)
Definition eqb (x y : float64) : bool := SFeqb x y.

Definition min_int64 : Z := - 2 ^ 63.
Definition max_int64 : Z := 2 ^ 63 - 1.

(** A float that is not NaN or infinite is, up to its sign, the
    fraction [num / den]. *)
Definition is_finite (x : float64) : bool :=
  match x with
  | S754_zero _ | S754_finite _ _ _ => true
  | _ => false
  end.

Definition sign (x : float64) : bool :=
  match x with
  | S754_zero s | S754_infinity s | S754_finite s _ _ => s
  | S754_nan => false
  end.

Definition num (x : float64) : Z :=
  match x with
  | S754_finite _ m e => if 0 <=? e then Z.pos m * 2 ^ e else Z.pos m
  | _ => 0
  end.

Definition den (x : float64) : Z :=
  match x with
  | S754_finite _ m e => if 0 <=? e then 1 else 2 ^ (- e)
  | _ => 1
  end.

(** The integer that [float64(v)] holds, for [0 <= v]: [v] itself below
    [2^53], and beyond that [v] rounded to 53 significant bits. *)
Definition held (v : Z) : Z := num (of_Z v) / den (of_Z v).

(** The integer part of a float, towards zero. *)
Definition trunc (x : float64) : option Z :=
  if is_finite x then Some (if sign x then - (num x / den x) else num x / den x)
  else None.

(** [int64(x)]: truncation towards zero.  For NaN, the infinities and
    values out of range Go leaves the result to the platform; amd64
    yields the smallest int64, which is what is modelled. *)
Definition to_int64 (x : float64) : Z :=
  match trunc x with
  | Some n => if (min_int64 <=? n) && (n <=? max_int64) then n else min_int64
  | None => min_int64
  end.

(** The nearest float64 to [m / 10^k], for [0 <= m]: what
    [strconv.ParseFloat] returns on a decimal numeral with digits [m], of
    which [k] are after the point.  As in strconv, a numeral whose digits
    fit the mantissa and whose power of ten is a float64 takes the exact
    path, one conversion and at most one division; any other is rounded
    once from the exact quotient. *)
Definition of_decimal (neg : bool) (m : Z) (k : nat) : float64 :=
  if (m <? 2 ^ 52) && (k <=? 22)%nat then
    let f := if neg then SFopp (of_Z m) else of_Z m in
    match k with
    | O => f
    | S _ => div f (of_Z (10 ^ Z.of_nat k))
    end
  else
    match m with
    | Z.pos p =>
        SFdiv prec emax (S754_finite neg p 0)
                        (S754_finite false (Z.to_pos (10 ^ Z.of_nat k)) 0)
    | _ => S754_zero neg
    end.

End Float64.

(** ** Package [strings] and [fmt]

    The library functions the program calls, restricted to the verbs and
    the inputs it uses. *)
Module Strings.

(** [strings.HasSuffix]: the last [len suffix] bytes of [s] are [suffix]. *)
Definition HasSuffix (s suffix : string) : bool :=
  (String.length suffix <=? String.length s)%nat
  && String.eqb (String.substring (String.length s - String.length suffix)
                                  (String.length suffix) s) suffix.

(** [strings.TrimSuffix]: [s] without the trailing [suffix], or [s]. *)
Definition TrimSuffix (s suffix : string) : string :=
  if HasSuffix s suffix
  then String.substring 0 (String.length s - String.length suffix) s
  else s.

End Strings.

(** ** Package [unicode/utf8]

    [fmt] pads a string by its number of runes.  A string is a sequence
    of bytes; a byte below 128 is a rune of its own, a well-formed
    sequence of two to four bytes is one rune, and every byte that does
    not start a well-formed sequence counts as one rune. *)
Module Utf8.

Definition byte (c : ascii) : Z := Z.of_N (N_of_ascii c).

(** The table [first]: for a leading byte, the size of the sequence
    and the range accepted for its second byte; [None] for a byte that
    starts no sequence. *)
Definition first (b : Z) : option (nat * Z * Z) :=
  if b <? 194 then None
  else if b <=? 223 then Some (2%nat, 128, 191)
  else if b =? 224 then Some (3%nat, 160, 191)
  else if b <=? 236 then Some (3%nat, 128, 191)
  else if b =? 237 then Some (3%nat, 128, 159)
  else if b <=? 239 then Some (3%nat, 128, 191)
  else if b =? 240 then Some (4%nat, 144, 191)
  else if b <=? 243 then Some (4%nat, 128, 191)
  else if b =? 244 then Some (4%nat, 128, 143)
  else None.

Definition continuation (b : Z) : bool := (128 <=? b) && (b <=? 191).

(** The number of bytes of the rune that starts with [c], [rest] being
    the bytes after it. *)
Definition rune_size (c : ascii) (rest : string) : nat :=
  if byte c <? 128 then 1%nat
  else
    match first (byte c) with
    | None => 1%nat
    | Some (size, lo, hi) =>
        if (String.length rest <? size - 1)%nat then 1%nat
        else
          match rest with
          | String c1 r1 =>
              if (byte c1 <? lo) || (hi <? byte c1) then 1%nat
              else if (size =? 2)%nat then 2%nat
              else
                match r1 with
                | String c2 r2 =>
                    if negb (continuation (byte c2)) then 1%nat
                    else if (size =? 3)%nat then 3%nat
                    else
                      match r2 with
                      | String c3 _ =>
                          if negb (continuation (byte c3)) then 1%nat else 4%nat
                      | EmptyString => 1%nat
                      end
                | EmptyString => 1%nat
                end
          | EmptyString => 1%nat
          end
    end.

(** The runes of [s], of which the first [skip] bytes belong to a rune
    already counted. *)
Fixpoint count (s : string) (skip : nat) : nat :=
  match s with
  | EmptyString => 0%nat
  | String c r =>
      match skip with
      | S k => count r k
      | O => S (count r (rune_size c r - 1))
      end
  end.

Definition RuneCountInString (s : string) : nat := count s 0.

End Utf8.

Module Fmt.
Import Float64.

(** [%d]. *)
Definition Sprintf_d (n : Z) : string := NilZero.string_of_int (Z.to_int n).

Definition digit_char (d : Z) : ascii := ascii_of_N (Z.to_N (48 + d)).

(** The [k] decimal digits of [r < 10^k], leading zeros included. *)
Fixpoint frac_digits (k : nat) (r : Z) : string :=
  match k with
  | O => EmptyString
  | S k' => String (digit_char (r / 10 ^ Z.of_nat k'))
                   (frac_digits k' (r mod 10 ^ Z.of_nat k'))
  end.

(** [n / 10^k] written with exactly [k] digits after the point, and with
    no point when [k = 0]. *)
Definition fixed (k : nat) (n : Z) : string :=
  Sprintf_d (n / 10 ^ Z.of_nat k)
  +:+ match k with
      | O => EmptyString
      | S _ => "." +:+ frac_digits k (n mod 10 ^ Z.of_nat k)
      end.

Definition sign_string (s : bool) : string := if s then "-" else "".

(** [%.kf]: strconv takes the exact decimal expansion of the float and
    rounds it to [k] digits after the point, to nearest, ties to even; a
    negative sign is kept even when the digits are all zero. *)
Definition Sprintf_f (k : nat) (x : float64) : string :=
  match x with
  | S754_nan => "NaN"
  | S754_infinity s => if s then "-Inf" else "+Inf"
  | _ => sign_string (sign x)
         +:+ fixed k (round_half_even (num x * 10 ^ Z.of_nat k) (den x))
  end.

Definition is_digit (c : ascii) : bool :=
  let n := Z.of_N (N_of_ascii c) in (48 <=? n) && (n <=? 57).

Fixpoint digits_only (s : string) : bool :=
  match s with
  | EmptyString => true
  | String c r => is_digit c && digits_only r
  end.

Definition digit_val (c : ascii) : Z := Z.of_N (N_of_ascii c) - 48.

(** Reads the longest run of decimal digits at the head of [s]; [acc] is
    the value read so far and [cnt] the number of digits read. *)
Fixpoint scan_digits (s : string) (acc : Z) (cnt : nat) : Z * nat * string :=
  match s with
  | String c r =>
      if is_digit c then scan_digits r (10 * acc + digit_val c) (S cnt)
      else (acc, cnt, s)
  | EmptyString => (acc, cnt, s)
  end.

(** The decimal numeral at the head of [s]: an optional sign, digits, and
    optionally a point and more digits, at least one digit in all.  This
    is the part of the float syntax of [fmt] and [strconv] that the
    formatters of this program emit; exponents, hexadecimal numerals,
    digit separators, [Inf], [NaN] and leading blanks are not modelled. *)
Definition scan_sign (s : string) : bool * string :=
  match s with
  | String "-" r => (true, r)
  | String "+" r => (false, r)
  | _ => (false, s)
  end.

Definition scan_float (s : string) : option (float64 * string) :=
  let '(neg, s1) := scan_sign s in
  let '(ip, ni, s2) := scan_digits s1 0 0 in
  let '(m, nf, s3) :=
    match s2 with
    | String "." r => scan_digits r ip 0
    | _ => (ip, O, s2)
    end in
  if (ni + nf =? 0)%nat then None else Some (of_decimal neg m nf, s3).

(** [fmt.Sscanf(s, "%f...", &value)] with [value] zero beforehand: the
    value stored.  A numeral that does not parse, or that overflows,
    stores nothing; literal text after the verb does not affect what was
    stored. *)
Definition Sscanf_f (s : string) : float64 :=
  match scan_float s with
  | Some (S754_infinity _, _) => S754_zero false
  | Some (x, _) => x
  | None => S754_zero false
  end.

(** [value, _ := strconv.ParseFloat(s, 64)]: the whole of [s] must be a
    numeral, else the value is zero. *)
Definition ParseFloat (s : string) : float64 :=
  match scan_float s with
  | Some (x, EmptyString) => x
  | _ => S754_zero false
  end.

Fixpoint spaces (n : nat) : string :=
  match n with
  | O => EmptyString
  | S n' => String " " (spaces n')
  end.

(** [%-*s] with the width [width] and the string [s]: [s] followed by
    the blanks that bring it to [|width|] runes, and [s] alone when it is
    that long already.  A width beyond a million is refused: [fmt] writes
    its complaint and then the string without padding. *)
Definition Sprintf_left (width : Z) (s : string) : string :=
  if (10 ^ 6 <? width) || (width <? - 10 ^ 6) then "%!(BADWIDTH)" +:+ s
  else s +:+ spaces (Z.to_nat (Z.abs width - Z.of_nat (Utf8.RuneCountInString s))).

End Fmt.

(** ** int64

    Addition on [int64] wraps around. *)
Module Int64.

Definition wrap (n : Z) : Z := (n + 2 ^ 63) mod 2 ^ 64 - 2 ^ 63.

Definition add (x y : Z) : Z := wrap (x + y).

End Int64.

(** ** [resource.Quantity] and the API objects

    A quantity that the API server delivers is a whole number of
    nano-units (parsing rounds finer values up to one nano-unit) together
    with the notation it was written in.  Arithmetic on quantities is
    exact; the conversions to int64 round away from zero and their
    overflow is not modelled. *)
Module Resource.

Definition Format := string.

Record Quantity := { nano : Z; format : Format }.

(** The zero value [resource.Quantity{}]. *)
Definition zero : Quantity := {| nano := 0; format := "" |}.

Definition IsZero (q : Quantity) : bool := nano q =? 0.

Definition Cmp (q y : Quantity) : Z :=
  match nano q ?= nano y with
  | Lt => -1
  | Eq => 0
  | Gt => 1
  end.

(** [q.Add(y)]: a zero receiver takes the notation of [y]. *)
Definition Add (q y : Quantity) : Quantity :=
  {| nano := nano q + nano y;
     format := if nano q =? 0 then format y else format q |}.

(** [n / scale], a remainder rounding away from zero. *)
Definition scaled_away (n scale : Z) : Z :=
  if 0 <=? n then (n + scale - 1) / scale else - ((- n + scale - 1) / scale).

Definition MilliValue (q : Quantity) : Z := scaled_away (nano q) (10 ^ 6).
Definition Value (q : Quantity) : Z := scaled_away (nano q) (10 ^ 9).

(** Quantities as the tests write them: [MustParse("100m")],
    [MustParse("4")], [MustParse("128Mi")]. *)
Definition milli (n : Z) : Quantity := {| nano := n * 10 ^ 6; format := "DecimalSI" |}.
Definition units (n : Z) : Quantity := {| nano := n * 10 ^ 9; format := "DecimalSI" |}.
Definition Mi (n : Z) : Quantity := {| nano := n * 2 ^ 20 * 10 ^ 9; format := "BinarySI" |}.
Definition Gi (n : Z) : Quantity := {| nano := n * 2 ^ 30 * 10 ^ 9; format := "BinarySI" |}.

End Resource.

Module Corev1.
Import Resource.

Abbreviation ResourceName := string.
Definition ResourceCPU : ResourceName := "cpu".
Definition ResourceMemory : ResourceName := "memory".

(** [corev1.ResourceList], a [map[ResourceName]resource.Quantity]. *)
Abbreviation ResourceList := (gmap string Quantity).

(** Indexing a map of quantities yields the zero quantity for a key that
    is absent. *)
Definition index (l : ResourceList) (k : ResourceName) : Quantity :=
  default zero (l !! k).

(** A container with its [Resources]; [None] is the nil map. *)
Record Container := {
  ContainerName : string;
  Requests : option ResourceList;
  Limits : option ResourceList
}.

(** A pod: [ObjectMeta.Name], [ObjectMeta.Namespace] and the fields of
    [Spec] the program reads. *)
Record Pod := {
  Name : string;
  Namespace : string;
  NodeName : string;
  Containers : list Container;
  InitContainers : list Container
}.

(** A node: its name and [Status.Allocatable], [Status.Capacity]; a nil
    map reads like the empty one. *)
Record Node := {
  NodeObjName : string;
  Allocatable : ResourceList;
  Capacity : ResourceList
}.

End Corev1.

(** The objects of the Metrics API, [metricsv1beta1]. *)
Module Metricsv1.
Import Resource Corev1.

(** [ResourceList.Cpu] and [ResourceList.Memory]: the entry, or a zero
    quantity when there is none. *)
Definition Cpu (l : ResourceList) : Quantity :=
  default {| nano := 0; format := "DecimalSI" |} (l !! ResourceCPU).

Definition Memory (l : ResourceList) : Quantity :=
  default {| nano := 0; format := "BinarySI" |} (l !! ResourceMemory).

Module ContainerMetrics.
Record t := {
  Name : string;
  Usage : ResourceList
}.
End ContainerMetrics.

Module PodMetrics.
Record t := {
  Name : string;
  Namespace : string;
  Containers : list ContainerMetrics.t
}.
End PodMetrics.

Module NodeMetrics.
Record t := {
  Name : string;
  Usage : ResourceList
}.
End NodeMetrics.

End Metricsv1.

(** ** Package [pkg] *)
Module Pkg.
Import Float64 Fmt Strings Resource Corev1.

(** *** metrics.go *)

(** [formatCPU] formats a CPU value in millicores. *)
Definition formatCPU (millicores : Z) : string :=
  if millicores =? 0 then "0"
  else if millicores <? 1000 then Sprintf_d millicores +:+ "m"
  else
    let cores := div (of_Z millicores) (of_Z 1000) in
    if eqb cores (of_Z (to_int64 cores)) then Sprintf_f 0 cores
    else Sprintf_f 2 cores.

Definition KB : Z := 1024.
Definition MB : Z := KB * 1024.
Definition GB : Z := MB * 1024.

(** [formatMemory] formats a memory value in bytes. *)
Definition formatMemory (bytes : Z) : string :=
  if bytes =? 0 then "0"
  else if GB <=? bytes then Sprintf_f 2 (div (of_Z bytes) (of_Z GB)) +:+ "Gi"
  else if MB <=? bytes then Sprintf_f 2 (div (of_Z bytes) (of_Z MB)) +:+ "Mi"
  else if KB <=? bytes then Sprintf_f 2 (div (of_Z bytes) (of_Z KB)) +:+ "Ki"
  else Sprintf_d bytes +:+ "B".

(** *** resources.go and nodes.go: the running totals

    [GetPodResources] keeps four local quantities per pod and
    [AggregatePodResourcesByNode] the four quantity fields of the node's
    entry; both update them with the same two loops. *)
Record Totals := {
  CPURequest : Quantity;
  CPULimit : Quantity;
  MemoryRequest : Quantity;
  MemoryLimit : Quantity
}.

Definition noTotals : Totals :=
  {| CPURequest := zero; CPULimit := zero; MemoryRequest := zero; MemoryLimit := zero |}.

Definition addRequests (t : Totals) (rl : option ResourceList) : Totals :=
  match rl with
  | Some requests =>
      let t1 :=
        match requests !! ResourceCPU with
        | Some cpu =>
            {| CPURequest := Add (CPURequest t) cpu; CPULimit := CPULimit t;
               MemoryRequest := MemoryRequest t; MemoryLimit := MemoryLimit t |}
        | None => t
        end in
      match requests !! ResourceMemory with
      | Some memory =>
          {| CPURequest := CPURequest t1; CPULimit := CPULimit t1;
             MemoryRequest := Add (MemoryRequest t1) memory; MemoryLimit := MemoryLimit t1 |}
      | None => t1
      end
  | None => t
  end.

Definition addLimits (t : Totals) (rl : option ResourceList) : Totals :=
  match rl with
  | Some limits =>
      let t1 :=
        match limits !! ResourceCPU with
        | Some cpu =>
            {| CPURequest := CPURequest t; CPULimit := Add (CPULimit t) cpu;
               MemoryRequest := MemoryRequest t; MemoryLimit := MemoryLimit t |}
        | None => t
        end in
      match limits !! ResourceMemory with
      | Some memory =>
          {| CPURequest := CPURequest t1; CPULimit := CPULimit t1;
             MemoryRequest := MemoryRequest t1; MemoryLimit := Add (MemoryLimit t1) memory |}
      | None => t1
      end
  | None => t
  end.

(** The body of the loop over [pod.Spec.Containers]. *)
Definition addContainer (t : Totals) (c : Container) : Totals :=
  addLimits (addRequests t (Requests c)) (Limits c).

(** The body of the loop over [pod.Spec.InitContainers]: a request of an
    init container that compares greater than the running total replaces
    it. *)
Definition maxInitContainer (t : Totals) (c : Container) : Totals :=
  match Requests c with
  | Some requests =>
      let t1 :=
        match requests !! ResourceCPU with
        | Some cpu =>
            if 0 <? Cmp cpu (CPURequest t)
            then {| CPURequest := cpu; CPULimit := CPULimit t;
                    MemoryRequest := MemoryRequest t; MemoryLimit := MemoryLimit t |}
            else t
        | None => t
        end in
      match requests !! ResourceMemory with
      | Some memory =>
          if 0 <? Cmp memory (MemoryRequest t1)
          then {| CPURequest := CPURequest t1; CPULimit := CPULimit t1;
                  MemoryRequest := memory; MemoryLimit := MemoryLimit t1 |}
          else t1
      | None => t1
      end
  | None => t
  end.

(** Both loops over one pod, from the totals [t]. *)
Definition addPod (t : Totals) (pod : Pod) : Totals :=
  fold_left maxInitContainer (InitContainers pod)
    (fold_left addContainer (Containers pod) t).

(** [ExtractMemoryUnit] extracts the unit from a memory string. *)
Definition ExtractMemoryUnit (memoryStr : string) : string :=
  if String.eqb memoryStr "" || String.eqb memoryStr "-" || String.eqb memoryStr "<unknown>"
  then "Mi"
  else if HasSuffix memoryStr "Gi" then "Gi"
  else if HasSuffix memoryStr "Mi" then "Mi"
  else if HasSuffix memoryStr "Ki" then "Ki"
  else if HasSuffix memoryStr "G" then "Gi"
  else if HasSuffix memoryStr "M" then "Mi"
  else if HasSuffix memoryStr "K" then "Ki"
  else "Mi".

(** [FormatMemoryInUnit] formats a memory quantity in a given unit. *)
Definition FormatMemoryInUnit (q : Quantity) (targetUnit : string) : string :=
  if IsZero q then "-"
  else
    let bytes := Value q in
    if String.eqb targetUnit "Gi" then Sprintf_f 2 (div (of_Z bytes) (of_Z GB)) +:+ "Gi"
    else if String.eqb targetUnit "Mi" then Sprintf_f 2 (div (of_Z bytes) (of_Z MB)) +:+ "Mi"
    else if String.eqb targetUnit "Ki" then Sprintf_f 2 (div (of_Z bytes) (of_Z KB)) +:+ "Ki"
    else Sprintf_f 2 (div (of_Z bytes) (of_Z MB)) +:+ "Mi".

Module PodResources.
Record t := {
  Name : string;
  Namespace : string;
  CPURequest : string;
  CPULimit : string;
  MemoryRequest : Quantity;
  MemoryLimit : Quantity;
  MemoryRequestStr : string;
  MemoryLimitStr : string
}.
End PodResources.

Section QuantityString.
(** [q.String()], the canonical notation of a quantity, is the
    library's and is left open. *)
Variable QuantityString : Quantity -> string.

(** [FormatResourceQuantity] formats a quantity for display. *)
Definition FormatResourceQuantity (q : Quantity) (isCPU : bool) : string :=
  if IsZero q then "-"
  else if isCPU then
    let millicores := MilliValue q in
    if millicores =? 0 then "0m" else Sprintf_d millicores +:+ "m"
  else QuantityString q.


End QuantityString.

(** *** nodes.go *)

Module NodeMetrics.
Record t := {
  Name : string;
  CPU : string;
  CPUPercent : string;
  Memory : string;
  MemoryPercent : string
}.
End NodeMetrics.

Module PodMetrics.
Record t := {
  Name : string;
  Namespace : string;
  CPU : string;
  Memory : string
}.
End PodMetrics.

(** [NodeAggregatedResources]: the node's name and its four totals. *)
Record NodeAggregatedResources := {
  AggNodeName : string;
  totals : Totals
}.

(** One iteration of the loop of [AggregatePodResourcesByNode]: a pod
    without a node is skipped; otherwise the node's entry is created if
    absent and updated in place by the two container loops. *)
Definition aggregatePod (nodeResources : gmap string NodeAggregatedResources) (pod : Pod)
  : gmap string NodeAggregatedResources :=
  if String.eqb (NodeName pod) "" then nodeResources
  else
    let entry :=
      match nodeResources !! NodeName pod with
      | Some e => e
      | None => {| AggNodeName := NodeName pod; totals := noTotals |}
      end in
    <[NodeName pod := {| AggNodeName := AggNodeName entry;
                         totals := addPod (totals entry) pod |}]> nodeResources.

(** [AggregatePodResourcesByNode], from the result of listing all pods. *)
Definition AggregatePodResourcesByNode (listed : string + list Pod)
  : string + gmap string NodeAggregatedResources :=
  match listed with
  | inl err => inl ("failed to fetch pods: " +:+ err)
  | inr items => inr (fold_left aggregatePod items ∅)
  end.

(** One of the two halves of [CalculateNodePercentages]: [total] is the
    reference quantity, [totalValue] its conversion to the unit of
    [usage]. *)
Definition percentOf (total : Quantity) (totalValue usage : Z) : string :=
  if negb (IsZero total) then
    if 0 <? totalValue then
      let percent := mul (div (of_Z usage) (of_Z totalValue)) (of_Z 100) in
      Sprintf_f 0 percent +:+ "%"
    else "0%"
  else "-".

(** [CalculateNodePercentages] computes the CPU and memory percentages
    against allocatable or capacity. *)
Definition CalculateNodePercentages (node : Node) (cpuUsageMilli memoryUsageBytes : Z)
    (showCapacity : bool) : string * string :=
  let '(cpuTotal, memoryTotal) :=
    if showCapacity
    then (index (Capacity node) ResourceCPU, index (Capacity node) ResourceMemory)
    else (index (Allocatable node) ResourceCPU, index (Allocatable node) ResourceMemory) in
  (percentOf cpuTotal (MilliValue cpuTotal) cpuUsageMilli,
   percentOf memoryTotal (Value memoryTotal) memoryUsageBytes).

(** *** The fetchers of metrics.go and nodes.go

    Each takes the answer of the API server, an error or the items
    listed, as its argument. *)

(** The items whose name is one of [names]; all of them when no name is
    given. *)
Definition filterByName {A} (name : A -> string) (names : list string) (items : list A)
  : list A :=
  match names with
  | [] => items
  | _ => filter (fun item => name item ∈ names) items
  end.

(** The loop of [GetPodMetrics] over the containers of a pod: the
    millicores and the bytes of the containers, added up in int64. *)
Definition addUsage (acc : Z * Z) (container : Metricsv1.ContainerMetrics.t) : Z * Z :=
  (Int64.add acc.1 (MilliValue (Metricsv1.Cpu (Metricsv1.ContainerMetrics.Usage container))),
   Int64.add acc.2 (Value (Metricsv1.Memory (Metricsv1.ContainerMetrics.Usage container)))).

Definition podUsage (pm : Metricsv1.PodMetrics.t) : Z * Z :=
  fold_left addUsage (Metricsv1.PodMetrics.Containers pm) (0, 0).

(** [GetPodMetrics] fetches pod metrics from the Metrics API. *)
Definition GetPodMetrics (listed : string + list Metricsv1.PodMetrics.t)
    (podNames : list string) : string + list PodMetrics.t :=
  match listed with
  | inl err => inl ("failed to fetch pod metrics: " +:+ err)
  | inr items =>
      inr (map (fun pm =>
                  let '(totalCPU, totalMemory) := podUsage pm in
                  {| PodMetrics.Name := Metricsv1.PodMetrics.Name pm;
                     PodMetrics.Namespace := Metricsv1.PodMetrics.Namespace pm;
                     PodMetrics.CPU := formatCPU totalCPU;
                     PodMetrics.Memory := formatMemory totalMemory |})
               (filterByName Metricsv1.PodMetrics.Name podNames items))
  end.

(** The loop of [CheckMetricsAPIAvailable] over the API groups. *)
Fixpoint findMetricsGroup (groups : list string) : bool :=
  match groups with
  | [] => false
  | name :: groups' => if String.eqb name "metrics.k8s.io" then true else findMetricsGroup groups'
  end.

(** [CheckMetricsAPIAvailable] checks that the Metrics API is served;
    the result is the error, [None] for none.  [discovered] is the answer
    of the discovery client: an error or the names of the groups. *)
Definition CheckMetricsAPIAvailable (discovered : string + list string) : option string :=
  match discovered with
  | inl err => Some ("failed to discover API groups: " +:+ err)
  | inr groups =>
      if findMetricsGroup groups then None
      else Some "metrics API (metrics.k8s.io) not available in the cluster"
  end.

(** [GetNodeMetrics] fetches node metrics from the Metrics API; the
    percentages are left empty. *)
Definition GetNodeMetrics (listed : string + list Metricsv1.NodeMetrics.t)
    (nodeNames : list string) : string + list NodeMetrics.t :=
  match listed with
  | inl err => inl ("failed to fetch node metrics: " +:+ err)
  | inr items =>
      inr (map (fun nm =>
                  let cpuUsage := MilliValue (Metricsv1.Cpu (Metricsv1.NodeMetrics.Usage nm)) in
                  let memoryUsage := Value (Metricsv1.Memory (Metricsv1.NodeMetrics.Usage nm)) in
                  {| NodeMetrics.Name := Metricsv1.NodeMetrics.Name nm;
                     NodeMetrics.CPU := formatCPU cpuUsage;
                     NodeMetrics.CPUPercent := "";
                     NodeMetrics.Memory := formatMemory memoryUsage;
                     NodeMetrics.MemoryPercent := "" |})
               (filterByName Metricsv1.NodeMetrics.Name nodeNames items))
  end.

(** [GetNodeResources] fetches the nodes and returns them by name; the
    flag [showCapacity] is not used. *)
Definition GetNodeResources (listed : string + list Node) (nodeNames : list string)
    (showCapacity : bool) : string + gmap string Node :=
  match listed with
  | inl err => inl ("failed to fetch nodes: " +:+ err)
  | inr items =>
      inr (fold_left (fun nodesMap node => <[NodeObjName node := node]> nodesMap)
                     (filterByName NodeObjName nodeNames items) ∅)
  end.

End Pkg.

(** ** Package [cmd] *)
Module Cmd.
Import Float64 Fmt Strings Resource Corev1 Pkg.

(** *** top.go *)

Module CombinedPodData.
Record t := {
  Name : string;
  CPUUsage : string;
  CPURequest : string;
  CPULimit : string;
  MemoryUsage : string;
  MemoryRequest : string;
  MemoryLimit : string
}.
End CombinedPodData.

(** [fmt.Sprintf("%s/%s", namespace, name)]. *)
Definition podKey (namespace name : string) : string := namespace +:+ "/" +:+ name.

Definition metricsMapOf (metrics : list PodMetrics.t) : gmap string PodMetrics.t :=
  fold_left (fun mm m => <[podKey (PodMetrics.Namespace m) (PodMetrics.Name m) := m]> mm)
            metrics ∅.

Definition resourcesMapOf (resources : list PodResources.t) : gmap string PodResources.t :=
  fold_left (fun rm r => <[podKey (PodResources.Namespace r) (PodResources.Name r) := r]> rm)
            resources ∅.

(** A memory request or limit in the unit [memoryUnit], ["-"] when zero. *)
Definition memoryIn (q : Quantity) (memoryUnit : string) : string :=
  if negb (IsZero q) then FormatMemoryInUnit q memoryUnit else "-".

(** The row of a pod that has metrics; [r] is its entry in the resources
    map, if any. *)
Definition metricsRow (m : PodMetrics.t) (r : option PodResources.t) : CombinedPodData.t :=
  match r with
  | Some r =>
      let memoryUnit := ExtractMemoryUnit (PodMetrics.Memory m) in
      {| CombinedPodData.Name := PodMetrics.Name m;
         CombinedPodData.CPUUsage := PodMetrics.CPU m;
         CombinedPodData.CPURequest := PodResources.CPURequest r;
         CombinedPodData.CPULimit := PodResources.CPULimit r;
         CombinedPodData.MemoryUsage := PodMetrics.Memory m;
         CombinedPodData.MemoryRequest := memoryIn (PodResources.MemoryRequest r) memoryUnit;
         CombinedPodData.MemoryLimit := memoryIn (PodResources.MemoryLimit r) memoryUnit |}
  | None =>
      {| CombinedPodData.Name := PodMetrics.Name m;
         CombinedPodData.CPUUsage := PodMetrics.CPU m;
         CombinedPodData.CPURequest := "-";
         CombinedPodData.CPULimit := "-";
         CombinedPodData.MemoryUsage := PodMetrics.Memory m;
         CombinedPodData.MemoryRequest := "-";
         CombinedPodData.MemoryLimit := "-" |}
  end.

(** The row of a pod that has resources but no metrics. *)
Definition resourcesRow (r : PodResources.t) : CombinedPodData.t :=
  {| CombinedPodData.Name := PodResources.Name r;
     CombinedPodData.CPUUsage := "<unknown>";
     CombinedPodData.CPURequest := PodResources.CPURequest r;
     CombinedPodData.CPULimit := PodResources.CPULimit r;
     CombinedPodData.MemoryUsage := "<unknown>";
     CombinedPodData.MemoryRequest := memoryIn (PodResources.MemoryRequest r) "Mi";
     CombinedPodData.MemoryLimit := memoryIn (PodResources.MemoryLimit r) "Mi" |}.

(** The first loop of [combineMetricsAndResources], over the metrics map;
    the state is the rows so far and the keys seen. *)
Definition addMetricsEntry (resourcesMap : gmap string PodResources.t)
    (st : list CombinedPodData.t * gset string) (entry : string * PodMetrics.t)
  : list CombinedPodData.t * gset string :=
  let '(combined, seen) := st in
  let '(key, m) := entry in
  if decide (key ∈ seen) then st
  else (combined ++ [metricsRow m (resourcesMap !! key)], {[key]} ∪ seen).

(** The second loop, over the resources map. *)
Definition addResourcesEntry
    (st : list CombinedPodData.t * gset string) (entry : string * PodResources.t)
  : list CombinedPodData.t * gset string :=
  let '(combined, seen) := st in
  let '(key, r) := entry in
  if decide (key ∈ seen) then st
  else (combined ++ [resourcesRow r], {[key]} ∪ seen).

(** [combineMetricsAndResources] merges metrics and resources.  Go ranges
    over a map in an unspecified order; the order taken here is that of
    [map_to_list]. *)
Definition combineMetricsAndResources (metrics : list PodMetrics.t)
    (resources : list PodResources.t) : list CombinedPodData.t :=
  let metricsMap := metricsMapOf metrics in
  let resourcesMap := resourcesMapOf resources in
  let st1 := fold_left (addMetricsEntry resourcesMap) (map_to_list metricsMap) ([], ∅) in
  let st2 := fold_left addResourcesEntry (map_to_list resourcesMap) st1 in
  st2.1.

(** [parseCPUValue] parses a CPU string for sorting. *)
Definition parseCPUValue (cpuStr : string) : float64 :=
  if String.eqb cpuStr "" || String.eqb cpuStr "-" || String.eqb cpuStr "<unknown>"
  then S754_zero false
  else Sscanf_f (TrimSuffix cpuStr "m").

(** [parseMemoryValue] parses a memory string to bytes for sorting. *)
Definition parseMemoryValue (memStr : string) : Z :=
  if String.eqb memStr "" || String.eqb memStr "-" || String.eqb memStr "<unknown>"
  then 0
  else if HasSuffix memStr "Gi" then
    to_int64 (mul (mul (mul (Sscanf_f memStr) (of_Z 1024)) (of_Z 1024)) (of_Z 1024))
  else if HasSuffix memStr "Mi" then
    to_int64 (mul (mul (Sscanf_f memStr) (of_Z 1024)) (of_Z 1024))
  else if HasSuffix memStr "Ki" then
    to_int64 (mul (Sscanf_f memStr) (of_Z 1024))
  else 0.

(** *** node.go *)

Module CombinedNodeData.
Record t := {
  Name : string;
  CPUUsage : string;
  CPUPercent : string;
  CPURequest : string;
  CPULimit : string;
  MemoryUsage : string;
  MemoryPercent : string;
  MemoryRequest : string;
  MemoryLimit : string
}.
End CombinedNodeData.

Definition unknownValue : string := "<unknown>".

(** [parseCPUValueForNode] parses a CPU string for node calculations. *)
Definition parseCPUValueForNode (cpuStr : string) : float64 :=
  if String.eqb cpuStr "" || String.eqb cpuStr "-" || String.eqb cpuStr unknownValue
  then S754_zero false
  else ParseFloat (TrimSuffix cpuStr "m").

(** [parseMemoryValueForNode] parses a memory string to bytes. *)
Definition parseMemoryValueForNode (memStr : string) : Z :=
  if String.eqb memStr "" || String.eqb memStr "-" || String.eqb memStr unknownValue
  then 0
  else if HasSuffix memStr "Gi" then
    to_int64 (mul (mul (mul (Sscanf_f memStr) (of_Z 1024)) (of_Z 1024)) (of_Z 1024))
  else if HasSuffix memStr "Mi" then
    to_int64 (mul (mul (Sscanf_f memStr) (of_Z 1024)) (of_Z 1024))
  else if HasSuffix memStr "Ki" then
    to_int64 (mul (Sscanf_f memStr) (of_Z 1024))
  else 0.

Section QuantityString.
Variable QuantityString : Quantity -> string.

(** The body of the loop of [combineNodeMetricsAndResources]: the row
    of one node metric. *)
Definition nodeRow (resources : gmap string NodeAggregatedResources)
    (nodes : gmap string Node) (showCapacity : bool) (m : NodeMetrics.t)
  : CombinedNodeData.t :=
  let node := nodes !! NodeMetrics.Name m in
  let aggResources := resources !! NodeMetrics.Name m in
  let '(cpuPercent, memoryPercent) :=
    match node with
    | Some node =>
        let cpuUsageMilli := parseCPUValueForNode (NodeMetrics.CPU m) in
        let memoryUsageBytes := parseMemoryValueForNode (NodeMetrics.Memory m) in
        CalculateNodePercentages node (to_int64 cpuUsageMilli) memoryUsageBytes showCapacity
    | None => ("-", "-")
    end in
  let '(cpuRequest, cpuLimit, memRequest, memLimit) :=
    match aggResources with
    | Some agg =>
        let t := totals agg in
        let memoryUnit := ExtractMemoryUnit (NodeMetrics.Memory m) in
        (if negb (IsZero (CPURequest t))
         then FormatResourceQuantity QuantityString (CPURequest t) true else "-",
         if negb (IsZero (CPULimit t))
         then FormatResourceQuantity QuantityString (CPULimit t) true else "-",
         if negb (IsZero (MemoryRequest t))
         then FormatMemoryInUnit (MemoryRequest t) memoryUnit else "-",
         if negb (IsZero (MemoryLimit t))
         then FormatMemoryInUnit (MemoryLimit t) memoryUnit else "-")
    | None => ("-", "-", "-", "-")
    end in
  {| CombinedNodeData.Name := NodeMetrics.Name m;
     CombinedNodeData.CPUUsage := NodeMetrics.CPU m;
     CombinedNodeData.CPUPercent := cpuPercent;
     CombinedNodeData.CPURequest := cpuRequest;
     CombinedNodeData.CPULimit := cpuLimit;
     CombinedNodeData.MemoryUsage := NodeMetrics.Memory m;
     CombinedNodeData.MemoryPercent := memoryPercent;
     CombinedNodeData.MemoryRequest := memRequest;
     CombinedNodeData.MemoryLimit := memLimit |}.

(** [combineNodeMetricsAndResources] merges node metrics with the
    aggregated pod resources: one row is appended per metric. *)
Definition combineNodeMetricsAndResources (metrics : list NodeMetrics.t)
    (resources : gmap string NodeAggregatedResources) (nodes : gmap string Node)
    (showCapacity : bool) : list CombinedNodeData.t :=
  fold_left (fun combined m => combined ++ [nodeRow resources nodes showCapacity m])
            metrics [].
End QuantityString.

(** *** Sorting and printing

    [sort.Slice] is the library's; what the program supplies is the
    comparison. *)

(** The comparison that [sortCombinedData] hands to [sort.Slice]. *)
Definition sortCombinedData_less (sortBy : string) (a b : CombinedPodData.t) : bool :=
  if String.eqb sortBy "cpu" then
    SFltb (parseCPUValue (CombinedPodData.CPUUsage b)) (parseCPUValue (CombinedPodData.CPUUsage a))
  else if String.eqb sortBy "memory" then
    parseMemoryValue (CombinedPodData.MemoryUsage b) <? parseMemoryValue (CombinedPodData.MemoryUsage a)
  else String.ltb (CombinedPodData.Name a) (CombinedPodData.Name b).

(** The comparison that [sortNodeData] hands to [sort.Slice]. *)
Definition sortNodeData_less (sortBy : string) (a b : CombinedNodeData.t) : bool :=
  if String.eqb sortBy "cpu" then
    SFltb (parseCPUValueForNode (CombinedNodeData.CPUUsage b))
          (parseCPUValueForNode (CombinedNodeData.CPUUsage a))
  else if String.eqb sortBy "memory" then
    parseMemoryValueForNode (CombinedNodeData.MemoryUsage b)
    <? parseMemoryValueForNode (CombinedNodeData.MemoryUsage a)
  else String.ltb (CombinedNodeData.Name a) (CombinedNodeData.Name b).

(** The width of the name column: [start], or the length in bytes of
    the longest name if that is more. *)
Definition nameWidthOf (start : Z) (names : list string) : Z :=
  fold_left (fun nameWidth name =>
               if nameWidth <? Z.of_nat (String.length name)
               then Z.of_nat (String.length name) else nameWidth)
            names start.

(** A line of [%-*s] columns, two blanks between them. *)
Fixpoint columns (cells : list (Z * string)) : string :=
  match cells with
  | [] => EmptyString
  | [(width, s)] => Sprintf_left width s
  | (width, s) :: cells' => Sprintf_left width s +:+ "  " +:+ columns cells'
  end.

(** [printTable] prints the pods as a table; the result is the lines
    written to standard output, in order. *)
Definition printTable (data : list CombinedPodData.t) (noHeaders : bool) : list string :=
  let nameWidth := nameWidthOf 40 (map CombinedPodData.Name data) in
  let cpuWidth := 12 in
  let memWidth := 15 in
  (if negb noHeaders
   then [columns [(nameWidth, "NAME"); (cpuWidth, "CPU(cores)"); (cpuWidth, "CPU REQUEST");
                  (cpuWidth, "CPU LIMIT"); (memWidth, "MEMORY(bytes)");
                  (memWidth, "MEMORY REQUEST"); (memWidth, "MEMORY LIMIT")]]
   else [])
  ++ map (fun d =>
            columns [(nameWidth, CombinedPodData.Name d);
                     (cpuWidth, CombinedPodData.CPUUsage d);
                     (cpuWidth, CombinedPodData.CPURequest d);
                     (cpuWidth, CombinedPodData.CPULimit d);
                     (memWidth, CombinedPodData.MemoryUsage d);
                     (memWidth, CombinedPodData.MemoryRequest d);
                     (memWidth, CombinedPodData.MemoryLimit d)])
         data.

(** [printNodeTable] prints the nodes as a table. *)
Definition printNodeTable (data : list CombinedNodeData.t) (noHeaders : bool) : list string :=
  let nameWidth := nameWidthOf 50 (map CombinedNodeData.Name data) in
  let cpuWidth := 12 in
  let percentWidth := 7 in
  let memWidth := 15 in
  (if negb noHeaders
   then [columns [(nameWidth, "NAME"); (cpuWidth, "CPU(cores)"); (percentWidth, "CPU%");
                  (cpuWidth, "CPU REQUEST"); (cpuWidth, "CPU LIMIT");
                  (memWidth, "MEMORY(bytes)"); (percentWidth, "MEMORY%");
                  (memWidth, "MEMORY REQUEST"); (memWidth, "MEMORY LIMIT")]]
   else [])
  ++ map (fun d =>
            columns [(nameWidth, CombinedNodeData.Name d);
                     (cpuWidth, CombinedNodeData.CPUUsage d);
                     (percentWidth, CombinedNodeData.CPUPercent d);
                     (cpuWidth, CombinedNodeData.CPURequest d);
                     (cpuWidth, CombinedNodeData.CPULimit d);
                     (memWidth, CombinedNodeData.MemoryUsage d);
                     (percentWidth, CombinedNodeData.MemoryPercent d);
                     (memWidth, CombinedNodeData.MemoryRequest d);
                     (memWidth, CombinedNodeData.MemoryLimit d)])
         data.

End Cmd.

(** ** The pod rule, in the specification's words

    The effective request of a pod for a resource kind is
    [max(sum(regular container requests), max(init container requests))];
    limits are summed over the regular containers only. *)
Module PodRule.
Import Resource Corev1.

Definition requestOf (k : ResourceName) (c : Container) : option Quantity :=
  Requests c ≫= (fun requests => requests !! k).

Definition limitOf (k : ResourceName) (c : Container) : option Quantity :=
  Limits c ≫= (fun limits => limits !! k).

(** The amounts, in nano-units, that the containers [cs] declare. *)
Definition amounts (f : Container -> option Quantity) (cs : list Container) : list Z :=
  omap (fun c => nano <$> f c) cs.

Definition sumOf (l : list Z) : Z := foldr Z.add 0 l.

(** The larger of [a] and [o], when there is an [o]. *)
Definition maxWith (a : Z) (o : option Z) : Z :=
  match o with
  | Some m => Z.max a m
  | None => a
  end.

Definition maxOf (l : list Z) : option Z :=
  foldr (fun x acc => Some (maxWith x acc)) None l.


Definition summedLimit (k : ResourceName) (pod : Pod) : Z :=
  sumOf (amounts (limitOf k) (Containers pod)).


End PodRule.

(** ** Concrete pods and nodes, after the repository's tests *)
Module Examples.
Import Resource Corev1 Pkg.

Definition container (requests limits : option ResourceList) : Container :=
  {| ContainerName := "c"; Requests := requests; Limits := limits |}.

Definition cpu (n : Z) : option ResourceList := Some {[ ResourceCPU := milli n ]}.

(** One regular container requesting 100m and one init container
    requesting 500m, on node1. *)
Definition podWithInit : Pod :=
  {| Name := "pod1"; Namespace := "default"; NodeName := "node1";
     Containers := [container (cpu 100) None];
     InitContainers := [container (cpu 500) None] |}.

(** One regular container requesting 200m, on node1. *)
Definition podPlain : Pod :=
  {| Name := "pod2"; Namespace := "default"; NodeName := "node1";
     Containers := [container (cpu 200) None];
     InitContainers := [] |}.

(** A pod that is not scheduled. *)
Definition podUnscheduled : Pod :=
  {| Name := "pod1"; Namespace := "default"; NodeName := "";
     Containers := [container (cpu 100) None];
     InitContainers := [] |}.

(** Allocatable 4 cores and 8Gi, as in the percentage tests. *)
Definition node4 : Node :=
  {| NodeObjName := "node1";
     Allocatable := {[ ResourceCPU := units 4; ResourceMemory := Gi 8 ]};
     Capacity := ∅ |}.

(** Allocatable memory only. *)
Definition nodeMemoryOnly : Node :=
  {| NodeObjName := "node1";
     Allocatable := {[ ResourceMemory := Gi 8 ]};
     Capacity := ∅ |}.

Definition node1Aggregate : NodeAggregatedResources :=
  {| AggNodeName := "node1";
     totals := {| CPURequest := milli 200; CPULimit := zero;
                  MemoryRequest := zero; MemoryLimit := zero |} |}.

(** The CPU request recorded for [node], if it has an entry. *)
Definition cpuRequestOf (node : string) (listed : list Pod) : option Z :=
  match AggregatePodResourcesByNode (inr listed) with
  | inr nodeResources => (fun e => nano (CPURequest (totals e))) <$> nodeResources !! node
  | inl _ => None
  end.

End Examples.

(** ** The node rule

    What [AggregatePodResourcesByNode] records for a node, told from the
    pods of that node alone. *)
Module NodeRule.
Import Resource Corev1 Pkg PodRule.

(** The pods assigned to the node [n], in the order listed. *)
Definition podsOn (n : string) (pods : list Pod) : list Pod :=
  filter (fun pod => NodeName pod = n) pods.

(** The entry of the node [n] in the result, if any. *)
Definition entryOf (n : string) (listed : list Pod) : option NodeAggregatedResources :=
  match AggregatePodResourcesByNode (inr listed) with
  | inr nodeResources => nodeResources !! n
  | inl _ => None
  end.

(** The four totals of an entry in nano-units: CPU request, memory
    request, CPU limit, memory limit. *)
Definition requestsOf (e : NodeAggregatedResources) : Z * Z :=
  (nano (CPURequest (totals e)), nano (MemoryRequest (totals e))).

Definition limitsOf (e : NodeAggregatedResources) : Z * Z :=
  (nano (CPULimit (totals e)), nano (MemoryLimit (totals e))).

(** The requests of the regular containers of a pod, added up. *)
Definition summedRequest (k : ResourceName) (pod : Pod) : Z :=
  sumOf (amounts (requestOf k) (Containers pod)).

(** No init container of the pod requests CPU or memory. *)
Definition noInitRequests (pod : Pod) : Prop :=
  amounts (requestOf ResourceCPU) (InitContainers pod) = []
  /\ amounts (requestOf ResourceMemory) (InitContainers pod) = [].

End NodeRule.

(** ** The usage of a pod, exactly

    The nano-units that the containers of a pod use, added up without
    rounding. *)
Module UsageRule.
Import Resource Corev1.

Definition cpuNanos (containers : list Metricsv1.ContainerMetrics.t) : Z :=
  PodRule.sumOf (map (fun c => nano (Metricsv1.Cpu (Metricsv1.ContainerMetrics.Usage c)))
                     containers).

Definition memoryNanos (containers : list Metricsv1.ContainerMetrics.t) : Z :=
  PodRule.sumOf (map (fun c => nano (Metricsv1.Memory (Metricsv1.ContainerMetrics.Usage c)))
                     containers).

(** No container reports a negative usage. *)
Definition nonNegative (containers : list Metricsv1.ContainerMetrics.t) : Prop :=
  Forall (fun c => 0 <= nano (Metricsv1.Cpu (Metricsv1.ContainerMetrics.Usage c))
                   /\ 0 <= nano (Metricsv1.Memory (Metricsv1.ContainerMetrics.Usage c)))
         containers.

End UsageRule.

(** ** Keys of the pod combiner *)
Module KeyRule.

(** No byte of [s] is a slash. *)
Fixpoint slashFree (s : string) : bool :=
  match s with
  | EmptyString => true
  | String c r => negb (Ascii.eqb c "/") && slashFree r
  end.

End KeyRule.

(** ** Tables *)
Module TableRule.

(** Every byte of [s] is below 128. *)
Fixpoint isASCII (s : string) : bool :=
  match s with
  | EmptyString => true
  | String c r => (Utf8.byte c <? 128) && isASCII r
  end.

(** [s] is ASCII and no longer than the column. *)
Definition fits (width : Z) (s : string) : Prop :=
  isASCII s = true /\ Z.of_nat (String.length s) <= width.

(** The cells of a pod row fit their columns; the name may have any
    length up to a million bytes. *)
Definition podRowFits (d : Cmd.CombinedPodData.t) : Prop :=
  fits (10 ^ 6) (Cmd.CombinedPodData.Name d)
  /\ fits 12 (Cmd.CombinedPodData.CPUUsage d)
  /\ fits 12 (Cmd.CombinedPodData.CPURequest d)
  /\ fits 12 (Cmd.CombinedPodData.CPULimit d)
  /\ fits 15 (Cmd.CombinedPodData.MemoryUsage d)
  /\ fits 15 (Cmd.CombinedPodData.MemoryRequest d)
  /\ fits 15 (Cmd.CombinedPodData.MemoryLimit d).

Definition nodeRowFits (d : Cmd.CombinedNodeData.t) : Prop :=
  fits (10 ^ 6) (Cmd.CombinedNodeData.Name d)
  /\ fits 12 (Cmd.CombinedNodeData.CPUUsage d)
  /\ fits 7 (Cmd.CombinedNodeData.CPUPercent d)
  /\ fits 12 (Cmd.CombinedNodeData.CPURequest d)
  /\ fits 12 (Cmd.CombinedNodeData.CPULimit d)
  /\ fits 15 (Cmd.CombinedNodeData.MemoryUsage d)
  /\ fits 7 (Cmd.CombinedNodeData.MemoryPercent d)
  /\ fits 15 (Cmd.CombinedNodeData.MemoryRequest d)
  /\ fits 15 (Cmd.CombinedNodeData.MemoryLimit d).

End TableRule.

(** * Properties *)

(** ** Strings *)
Section StringFacts.
Import Strings.

Lemma append_cons c s t : String c s +:+ t = String c (s +:+ t).
Proof. reflexivity. Qed.

Lemma append_nil_r s : s +:+ "" = s.
Proof. induction s as [|c s IH]; [done|]. by rewrite append_cons, IH. Qed.

Lemma append_assoc s t u : (s +:+ t) +:+ u = s +:+ (t +:+ u).
Proof. induction s as [|c s IH]; [done|]. by rewrite !append_cons, IH. Qed.

Lemma length_append s t :
  String.length (s +:+ t) = (String.length s + String.length t)%nat.
Proof. induction s as [|c s IH]; [done|]. rewrite append_cons. simpl. by rewrite IH. Qed.

Lemma substring_0_length s : String.substring 0 (String.length s) s = s.
Proof. induction s as [|c s IH]; [done|]. simpl. by rewrite IH. Qed.

Lemma substring_append_l s t : String.substring 0 (String.length s) (s +:+ t) = s.
Proof.
  induction s as [|c s IH]; [by destruct t|].
  rewrite append_cons. simpl. by rewrite IH.
Qed.

Lemma substring_append_r s t :
  String.substring (String.length s) (String.length t) (s +:+ t) = t.
Proof.
  induction s as [|c s IH]; [apply substring_0_length|].
  rewrite append_cons. simpl. apply IH.
Qed.

Lemma substring_suffix n : forall s u,
  String.length s = (n + String.length u)%nat ->
  String.substring n (String.length u) s = u ->
  exists p, s = p +:+ u.
Proof.
  induction n as [|n IH]; intros s u Hlen Hsub.
  - exists "". simpl in Hlen. rewrite <- Hlen, substring_0_length in Hsub. by subst.
  - destruct s as [|c s]; [done|]. simpl in Hlen, Hsub.
    destruct (IH s u) as [p ->]; [lia|done|]. by exists (String c p).
Qed.

Lemma HasSuffix_append s t : HasSuffix (s +:+ t) t = true.
Proof.
  unfold HasSuffix. rewrite length_append.
  replace (String.length s + String.length t - String.length t)%nat
    with (String.length s) by lia.
  rewrite substring_append_r, String.eqb_refl, andb_true_r.
  apply Nat.leb_le. lia.
Qed.

Lemma HasSuffix_inv s t : HasSuffix s t = true -> exists p, s = p +:+ t.
Proof.
  unfold HasSuffix. intros [Hle Heq]%andb_true_iff.
  apply Nat.leb_le in Hle. apply String.eqb_eq in Heq.
  apply (substring_suffix (String.length s - String.length t)); [lia|done].
Qed.

Lemma TrimSuffix_append s t : TrimSuffix (s +:+ t) t = s.
Proof.
  unfold TrimSuffix. rewrite HasSuffix_append, length_append.
  replace (String.length s + String.length t - String.length t)%nat
    with (String.length s) by lia.
  apply substring_append_l.
Qed.

Lemma snoc_inj p q c d : p +:+ String c "" = q +:+ String d "" -> c = d.
Proof.
  revert q. induction p as [|a p IH]; intros [|b q] H; rewrite ?append_cons in H.
  - by injection H.
  - injection H as _ H. by destruct q.
  - injection H as _ H. by destruct p.
  - injection H as _ H. by apply (IH q).
Qed.

(** A string cannot end in a suffix whose last byte is not its own. *)
Lemma HasSuffix_last_ne s c t d :
  c <> d -> HasSuffix (s +:+ String c "") (t +:+ String d "") = false.
Proof.
  intros Hne. destruct (HasSuffix _ _) eqn:H; [|done].
  apply HasSuffix_inv in H as [p H].
  rewrite <- append_assoc in H. by apply snoc_inj in H.
Qed.

End StringFacts.

(** ** Decimal numerals: printing with [%d] and scanning digits *)
Section DecimalFacts.
Import Fmt.

Lemma scan_digits_digit c r acc cnt :
  is_digit c = true ->
  scan_digits (String c r) acc cnt = scan_digits r (10 * acc + digit_val c) (S cnt).
Proof. intros H. simpl. by rewrite H. Qed.

Lemma scan_digits_stop s acc cnt :
  match s with String c _ => is_digit c = false | EmptyString => True end ->
  scan_digits s acc cnt = (acc, cnt, s).
Proof. destruct s as [|c r]; [done|]. intros H. simpl. by rewrite H. Qed.

Local Ltac scan_step :=
  simpl NilEmpty.string_of_uint; rewrite append_cons;
  rewrite scan_digits_digit by reflexivity;
  unfold digit_val; simpl N_of_ascii; simpl Z.of_N;
  simpl Pos.of_uint_acc; simpl Pos.of_uint; simpl Decimal.nb_digits.

Lemma scan_digits_uint_acc d : forall rest acc cnt,
  scan_digits (NilEmpty.string_of_uint d +:+ rest) (Z.pos acc) cnt
  = scan_digits rest (Z.pos (Pos.of_uint_acc d acc)) (cnt + Decimal.nb_digits d).
Proof.
  induction d as [|d IH|d IH|d IH|d IH|d IH|d IH|d IH|d IH|d IH|d IH];
    intros rest acc cnt;
    [simpl; f_equal; lia | ..];
    scan_step;
    match goal with
    | |- scan_digits _ ?a _ = scan_digits _ (Z.pos (Pos.of_uint_acc _ ?b)) ?c =>
        replace a with (Z.pos b) by lia;
        replace c with (S cnt + Decimal.nb_digits d)%nat by lia
    end; apply IH.
Qed.

Lemma scan_digits_uint d : forall rest cnt,
  scan_digits (NilEmpty.string_of_uint d +:+ rest) 0 cnt
  = scan_digits rest (Z.of_N (Pos.of_uint d)) (cnt + Decimal.nb_digits d).
Proof.
  induction d as [|d IH|d IH|d IH|d IH|d IH|d IH|d IH|d IH|d IH|d IH];
    intros rest cnt;
    [simpl; f_equal; lia | ..];
    scan_step;
    replace (cnt + S (Decimal.nb_digits d))%nat
      with (S cnt + Decimal.nb_digits d)%nat by lia;
    [apply IH | apply scan_digits_uint_acc ..].
Qed.

Lemma digits_only_uint d : digits_only (NilEmpty.string_of_uint d) = true.
Proof. induction d; simpl; auto. Qed.

Lemma Sprintf_d_pos p :
  Sprintf_d (Z.pos p) = NilEmpty.string_of_uint (Pos.to_uint p).
Proof.
  unfold Sprintf_d. simpl.
  pose proof (Unsigned.to_uint_nonnil p). by destruct (Pos.to_uint p).
Qed.

(** A non-negative integer prints as a non-empty run of digits. *)
Lemma Sprintf_d_digits v :
  0 <= v -> exists c r, Sprintf_d v = String c r /\ is_digit c = true /\ digits_only r = true.
Proof.
  intros Hv. destruct v as [|p|p]; [by exists "0"%char, "" | | lia].
  rewrite Sprintf_d_pos.
  pose proof (Unsigned.to_uint_nonnil p) as Hnil.
  pose proof (digits_only_uint (Pos.to_uint p)) as Hd.
  destruct (NilEmpty.string_of_uint (Pos.to_uint p)) as [|c r] eqn:E.
  - by destruct (Pos.to_uint p).
  - simpl in Hd. apply andb_true_iff in Hd as [? ?]. by exists c, r.
Qed.

(** Scanning what [%d] printed reads the integer back and stops at the
    first byte that is not a digit. *)
Lemma scan_digits_Sprintf_d v rest :
  0 <= v ->
  match rest with String c _ => is_digit c = false | EmptyString => True end ->
  exists n, (0 < n)%nat /\ scan_digits (Sprintf_d v +:+ rest) 0 0 = (v, n, rest).
Proof.
  intros Hv Hrest. destruct v as [|p|p]; [| | lia].
  - exists 1%nat. split; [lia|].
    change (Sprintf_d 0) with "0". rewrite append_cons.
    rewrite scan_digits_digit by reflexivity. by apply scan_digits_stop.
  - exists (Decimal.nb_digits (Pos.to_uint p)). split.
    + pose proof (Unsigned.to_uint_nonnil p). destruct (Pos.to_uint p); simpl; [done|lia..].
    + rewrite Sprintf_d_pos, scan_digits_uint, Unsigned.of_to.
      by apply scan_digits_stop.
Qed.

End DecimalFacts.

(** ** float64: every operation rounds the exact result once *)
Section RoundingFacts.
Import Float64 Fmt.

Local Abbreviation position N D :=
  (shr_record_of_loc (N / D) (new_location_even D (N mod D))).

Lemma digits2_pos_size p : digits2_pos p = Pos.size p.
Proof. induction p as [p IH|p IH|]; simpl; by rewrite ?IH. Qed.

Lemma Zdigits2_log2 m : 0 < m -> Zdigits2 m = Z.log2 m + 1.
Proof.
  destruct m as [|p|p]; [lia| |lia]. intros _. simpl.
  rewrite digits2_pos_size. destruct p; simpl; lia.
Qed.

(** The number of binary digits of [m] is the [d] with [2^(d-1) <= m < 2^d]. *)
Lemma Zdigits2_bounds m d : 0 < d -> 2 ^ (d - 1) <= m < 2 ^ d -> Zdigits2 m = d.
Proof.
  intros Hd [Hlo Hhi].
  assert (0 < m) by (pose proof (Z.pow_pos_nonneg 2 (d - 1)); lia).
  rewrite Zdigits2_log2 by done.
  rewrite (Z.log2_unique m (d - 1)); [lia|lia|].
  replace (Z.succ (d - 1)) with d by lia. done.
Qed.

Lemma Zdigits2_spec m : 0 < m -> 2 ^ (Zdigits2 m - 1) <= m < 2 ^ Zdigits2 m.
Proof.
  intros Hm. rewrite Zdigits2_log2 by done.
  pose proof (Z.log2_spec m Hm).
  replace (Z.log2 m + 1 - 1) with (Z.log2 m) by lia.
  replace (Z.log2 m + 1) with (Z.succ (Z.log2 m)) by lia. done.
Qed.

Lemma shr_1_nonneg m r s :
  0 <= m -> shr_1 {| shr_m := m; shr_r := r; shr_s := s |}
            = {| shr_m := m / 2; shr_r := Z.odd m; shr_s := r || s |}.
Proof.
  intros Hm. rewrite <- Z.div2_div.
  destruct m as [|[p|p|]|]; try done; lia.
Qed.

Lemma new_location_eq D k :
  0 < D -> 0 <= k < D -> new_location D k = new_location_even D k.
Proof.
  intros HD Hk. unfold new_location.
  destruct (Z.even D) eqn:Heven; [done|].
  unfold new_location_odd, new_location_even.
  destruct (k =? 0); [done|]. f_equal.
  assert (Z.odd D = true) as Hodd by (rewrite <- Z.negb_even, Heven; done).
  apply Z.odd_spec in Hodd as [h Hh].
  destruct (Z.compare_spec (2 * k + 1) D), (Z.compare_spec (2 * k) D); done || lia.
Qed.

(** One more bit shifted out: the position of [N] among the multiples of
    [D] becomes its position among the multiples of [2 * D]. *)
Lemma shr_1_position N D :
  0 <= N -> 0 < D -> shr_1 (position N D) = position N (D * 2).
Proof.
  intros HN HD.
  pose proof (Z.mod_pos_bound N D HD) as Hk.
  pose proof (Z.div_pos N D HN HD) as Hq.
  assert (N mod (D * 2) = N mod D + D * ((N / D) mod 2)) as Hmod
    by (apply Z.rem_mul_r; lia).
  assert (N / (D * 2) = N / D / 2) as Hdiv by (rewrite Z.div_div; lia).
  rewrite Hdiv, Hmod, Zmod_odd.
  unfold new_location_even.
  destruct (Z.odd (N / D)) eqn:Hodd;
    destruct (Z.eqb_spec (N mod D) 0);
    match goal with |- context [?x =? 0] => destruct (Z.eqb_spec x 0) end;
    try lia;
    try (destruct (Z.compare_spec (2 * (N mod D)) D));
    match goal with
    | |- context [?x ?= D * 2] => destruct (Z.compare_spec x (D * 2))
    | _ => idtac
    end;
    try lia;
    simpl shr_record_of_loc; rewrite shr_1_nonneg by done; by rewrite Hodd.
Qed.

Lemma iter_pos_position p : forall N D,
  0 <= N -> 0 < D ->
  SpecFloat.iter_pos shr_1 p (position N D) = position N (D * 2 ^ Z.pos p).
Proof.
  induction p as [p IH|p IH|]; intros N D HN HD; simpl SpecFloat.iter_pos.
  - rewrite shr_1_position, !IH by lia. 
    replace (Z.pos p~1) with (1 + Z.pos p + Z.pos p) by lia.
    rewrite !Z.pow_add_r by lia. by rewrite Z.pow_1_r, !Z.mul_assoc.
  - rewrite !IH by (try apply Z.mul_pos_pos; lia).
    replace (Z.pos p~0) with (Z.pos p + Z.pos p) by lia.
    rewrite !Z.pow_add_r by lia. by rewrite !Z.mul_assoc.
  - by rewrite shr_1_position.
Qed.

Lemma shr_position N D e n :
  0 <= N -> 0 < D ->
  shr (position N D) e n = (position N (D * 2 ^ Z.max 0 n), e + Z.max 0 n).
Proof.
  intros HN HD. destruct n as [|p|p]; simpl shr.
  - by rewrite Z.max_id, Z.mul_1_r, Z.add_0_r.
  - rewrite iter_pos_position by done. by rewrite Z.max_r by lia.
  - rewrite Z.max_l by lia. by rewrite Z.mul_1_r, Z.add_0_r.
Qed.

Lemma shr_m_of_loc m l : shr_m (shr_record_of_loc m l) = m.
Proof. by destruct l as [|[]]. Qed.

Lemma loc_of_shr_record_of_loc m l : loc_of_shr_record (shr_record_of_loc m l) = l.
Proof. by destruct l as [|[]]. Qed.

Lemma round_nearest_even_position N D :
  0 <= N -> 0 < D ->
  round_nearest_even (shr_m (position N D)) (loc_of_shr_record (position N D))
  = round_half_even N D.
Proof.
  intros HN HD. rewrite shr_m_of_loc, loc_of_shr_record_of_loc.
  pose proof (Z.mod_pos_bound N D HD).
  unfold new_location_even, round_half_even.
  destruct (Z.eqb_spec (N mod D) 0) as [->|]; simpl round_nearest_even.
  - by rewrite (proj2 (Z.compare_lt_iff (2 * 0) D)) by lia.
  - by destruct (2 * (N mod D) ?= D).
Qed.

Lemma round_half_even_nonneg N D : 0 <= N -> 0 < D -> 0 <= round_half_even N D.
Proof.
  intros HN HD. pose proof (Z.div_pos N D HN HD). unfold round_half_even.
  destruct (_ ?= _); [destruct (Z.even _)|..]; lia.
Qed.

Lemma position_exact m : 0 <= m -> shr_record_of_loc m loc_Exact = position m 1.
Proof. intros Hm. by rewrite Z.div_1_r, Z.mod_1_r. Qed.

(** [binary_round_aux] on a quotient and its location is [nearest]. *)
Lemma binary_round_aux_nearest s N D e :
  0 <= N -> 0 < D ->
  binary_round_aux prec emax s (N / D) e (new_location_even D (N mod D))
  = nearest s N D e.
Proof.
  intros HN HD. unfold binary_round_aux, nearest, shr_fexp.
  rewrite shr_position by done. fold (excess (N / D) e).
  assert (0 < D * 2 ^ excess (N / D) e) as HD'.
  { apply Z.mul_pos_pos; [done|]. apply Z.pow_pos_nonneg; [lia|]. unfold excess. lia. }
  rewrite round_nearest_even_position by done.
  pose proof (round_half_even_nonneg N _ HN HD') as Hm1.
  rewrite position_exact by done.
  rewrite shr_position by lia.
  rewrite shr_m_of_loc, Z.mul_1_l.
  set (m1 := round_half_even N (D * 2 ^ excess (N / D) e)).
  fold (excess m1 (e + excess (N / D) e)).
  done.
Qed.

Lemma binary_round_aux_exact s m e :
  0 <= m -> binary_round_aux prec emax s m e loc_Exact = nearest s m 1 e.
Proof.
  intros Hm. rewrite <- binary_round_aux_nearest by lia.
  by rewrite Z.div_1_r, Z.mod_1_r.
Qed.

Lemma div_eucl_div_mod a b : Z.div_eucl a b = (a / b, a mod b).
Proof. unfold Z.div, Z.modulo. by destruct (Z.div_eucl a b). Qed.

(** Division of finite floats rounds the exact quotient once. *)
Lemma div_nearest sx mx ex sy my ey :
  let e' := Z.min (fexp prec emax (Zdigits2 (Z.pos mx) + ex - (Zdigits2 (Z.pos my) + ey)))
                  (ex - ey) in
  div (S754_finite sx mx ex) (S754_finite sy my ey)
  = nearest (xorb sx sy) (Z.pos mx * 2 ^ (ex - ey - e')) (Z.pos my) e'.
Proof.
  intros e'. unfold div, SFdiv, SFdiv_core_binary. fold e'.
  assert (0 <= ex - ey - e') as Hs by (unfold e'; lia).
  assert (match ex - ey - e' with
          | 0 => Z.pos mx
          | Z.pos _ => Z.shiftl (Z.pos mx) (ex - ey - e')
          | Z.neg _ => 0
          end = Z.pos mx * 2 ^ (ex - ey - e')) as ->.
  { destruct (ex - ey - e') as [|p|p] eqn:E; [lia| |lia].
    by rewrite Z.shiftl_mul_pow2. }
  rewrite div_eucl_div_mod.
  assert (0 < 2 ^ (ex - ey - e')) by (apply Z.pow_pos_nonneg; lia).
  rewrite new_location_eq by (try apply Z.mod_pos_bound; lia).
  apply binary_round_aux_nearest; lia.
Qed.

(** Multiplication of finite floats rounds the exact product once. *)
Lemma mul_nearest sx mx ex sy my ey :
  mul (S754_finite sx mx ex) (S754_finite sy my ey)
  = nearest (xorb sx sy) (Z.pos mx * Z.pos my) 1 (ex + ey).
Proof. unfold mul, SFmul. rewrite <- binary_round_aux_exact by lia. done. Qed.

Lemma pos_iter_xO m d : Z.pos (Pos.iter xO m d) = Z.pos m * 2 ^ Z.pos d.
Proof.
  induction d as [|d IH] using Pos.peano_ind.
  - simpl. lia.
  - rewrite Pos.iter_succ, Pos2Z.inj_xO, IH, Pos2Z.inj_succ, Z.pow_succ_r by lia. lia.
Qed.

Lemma binary_round_nearest s m e :
  let e' := fexp prec emax (Zdigits2 (Z.pos m) + e) in
  binary_round prec emax s m e
  = if e' <? e then nearest s (Z.pos m * 2 ^ (e - e')) 1 e' else nearest s (Z.pos m) 1 e.
Proof.
  intros e'. unfold binary_round, shl_align. change (Z.pos (digits2_pos m)) with (Zdigits2 (Z.pos m)).
  fold e'. destruct (Z.ltb_spec e' e) as [Hlt|Hge].
  - destruct (e' - e) as [|p|p] eqn:E; [lia..|].
    rewrite binary_round_aux_exact by lia. rewrite pos_iter_xO.
    by replace (Z.pos p) with (e - e') by lia.
  - destruct (e' - e) as [|p|p] eqn:E; [| |lia]; by rewrite binary_round_aux_exact by lia.
Qed.

(** *** Rounding to nearest, ties to even, on integers *)

Lemma round_half_even_spec N D : 0 < D -> nearest_even N D (round_half_even N D).
Proof.
  intros HD. unfold nearest_even, round_half_even.
  pose proof (Z.div_mod N D ltac:(lia)) as Hdm.
  pose proof (Z.mod_pos_bound N D HD) as Hr.
  destruct (Z.compare_spec (2 * (N mod D)) D) as [He|Hl|Hg].
  - destruct (Z.even (N / D)) eqn:Hev.
    + split; [lia|done].
    + split; [lia|]. intros _. rewrite Z.even_add, Hev. done.
  - split; lia.
  - split; lia.
Qed.

Lemma nearest_even_unique N D n n' :
  0 < D -> nearest_even N D n -> nearest_even N D n' -> n = n'.
Proof.
  intros HD [H1 E1] [H2 E2].
  assert (n' - 1 <= n <= n' + 1) as Hclose by nia.
  destruct (Z.eq_dec n n') as [|Hne]; [done|exfalso].
  assert (n = n' + 1 \/ n = n' - 1) as [->| ->] by lia.
  - assert (Z.abs (2 * N - 2 * (n' + 1) * D) = D) as HA by nia.
    assert (Z.abs (2 * N - 2 * n' * D) = D) as HB by nia.
    specialize (E1 HA). specialize (E2 HB).
    rewrite Z.even_add, E2 in E1. done.
  - assert (Z.abs (2 * N - 2 * (n' - 1) * D) = D) as HA by nia.
    assert (Z.abs (2 * N - 2 * n' * D) = D) as HB by nia.
    specialize (E1 HA). specialize (E2 HB).
    rewrite Z.even_sub, E2 in E1. done.
Qed.

Lemma round_half_even_unique N D n :
  0 < D -> nearest_even N D n -> round_half_even N D = n.
Proof.
  intros HD Hn. eapply nearest_even_unique; [done| |done].
  by apply round_half_even_spec.
Qed.

(** The rounding depends on the quotient only. *)
Lemma round_half_even_ext a b c d :
  0 < b -> 0 < d -> a * d = c * b -> round_half_even a b = round_half_even c d.
Proof.
  intros Hb Hd Heq. apply round_half_even_unique; [done|].
  destruct (round_half_even_spec c d Hd) as [H1 E1].
  set (n := round_half_even c d) in *.
  assert (d * (2 * a - 2 * n * b) = b * (2 * c - 2 * n * d)) as Hscale by nia.
  assert (d * Z.abs (2 * a - 2 * n * b) = b * Z.abs (2 * c - 2 * n * d)) as Habs.
  { apply (f_equal Z.abs) in Hscale. rewrite !Z.abs_mul in Hscale.
    by rewrite (Z.abs_eq d), (Z.abs_eq b) in Hscale by lia. }
  split; [nia|]. intros HA. apply E1. nia.
Qed.

Lemma round_half_even_exact n D : 0 < D -> round_half_even (n * D) D = n.
Proof.
  intros HD. apply round_half_even_unique; [done|].
  split; [lia|]. intros H. lia.
Qed.

Lemma round_half_even_floor N D :
  0 < D -> N / D <= round_half_even N D <= N / D + 1.
Proof.
  intros HD. unfold round_half_even.
  destruct (_ ?= _); [destruct (Z.even _)|..]; lia.
Qed.

(** *** Results in the normal range *)

Lemma excess_normal m e :
  53 <= Zdigits2 m -> -1074 <= e + Zdigits2 m - 53 -> excess m e = Zdigits2 m - 53.
Proof. intros Hd He. unfold excess, fexp, emin, prec, emax. lia. Qed.

Lemma pow2_pos n : 0 <= n -> 0 < 2 ^ n.
Proof. intros. apply Z.pow_pos_nonneg; lia. Qed.

(** A quotient of at least 53 bits rounds to a normal float: the
    mantissa is the quotient rounded to 53 bits, renormalised when the
    rounding carries. *)
Lemma nearest_normal s N D e :
  0 <= N -> 0 < D ->
  let dq := Zdigits2 (N / D) in
  53 <= dq -> -1074 <= e + dq - 53 -> e + dq - 52 <= 971 ->
  let m1 := round_half_even N (D * 2 ^ (dq - 53)) in
  2 ^ 52 <= m1 <= 2 ^ 53 /\
  nearest s N D e
  = if m1 <? 2 ^ 53 then S754_finite s (Z.to_pos m1) (e + (dq - 53))
    else S754_finite s (Z.to_pos (2 ^ 52)) (e + (dq - 53) + 1).
Proof.
  intros HN HD dq Hdq Hlo Hhi m1.
  assert (0 < N / D) as Hq.
  { pose proof (Z.div_pos N D HN HD).
    assert (N / D <> 0); [|lia].
    intros E. unfold dq in Hdq. rewrite E in Hdq. simpl in Hdq. lia. }
  pose proof (Zdigits2_spec (N / D) Hq) as Hspec. fold dq in Hspec.
  pose proof (pow2_pos (dq - 53) ltac:(lia)) as Hp.
  assert (N / (D * 2 ^ (dq - 53)) = N / D / 2 ^ (dq - 53)) as Hdiv
    by (rewrite Z.div_div; lia).
  assert (2 ^ 52 <= N / D / 2 ^ (dq - 53) < 2 ^ 53) as Hq2.
  { split.
    - apply Z.div_le_lower_bound; [done|].
      rewrite <- Z.pow_add_r by lia. replace (dq - 53 + 52) with (dq - 1) by lia. lia.
    - apply Z.div_lt_upper_bound; [done|].
      rewrite <- Z.pow_add_r by lia. replace (dq - 53 + 53) with dq by lia. lia. }
  pose proof (round_half_even_floor N (D * 2 ^ (dq - 53)) ltac:(nia)) as Hfl.
  fold m1 in Hfl. rewrite Hdiv in Hfl.
  split; [lia|].
  unfold nearest. rewrite (excess_normal (N / D) e) by (fold dq; lia).
  fold dq. fold m1.
  destruct (Z.ltb_spec m1 (2 ^ 53)) as [Hlt|Hge].
  - assert (Zdigits2 m1 = 53) as Hd1 by (apply Zdigits2_bounds; lia).
    assert (excess m1 (e + (dq - 53)) = 0) as ->
      by (rewrite excess_normal; rewrite Hd1; lia).
    rewrite Z.pow_0_r, Z.div_1_r, Z.add_0_r.
    destruct m1 as [|m|m] eqn:Em; [lia| |lia].
    by rewrite (proj2 (Z.leb_le _ _)) by (unfold emax, prec; lia).
  - assert (m1 = 2 ^ 53) as -> by lia.
    assert (Zdigits2 (2 ^ 53) = 54) as Hd1 by done.
    assert (excess (2 ^ 53) (e + (dq - 53)) = 1) as ->
      by (rewrite excess_normal; rewrite Hd1; lia).
    change (2 ^ 53 / 2 ^ 1) with (2 ^ 52).
    change (2 ^ 52) with (Z.pos (Z.to_pos (2 ^ 52))) at 1. cbv iota.
    by rewrite (proj2 (Z.leb_le _ _)) by (unfold emax, prec; lia).
Qed.

(** [nearest] depends on the quotient only. *)
Lemma nearest_scale s N D c e :
  0 < D -> 0 < c -> nearest s (N * c) (D * c) e = nearest s N D e.
Proof.
  intros HD Hc. unfold nearest.
  rewrite Z.div_mul_cancel_r by lia.
  set (n := excess (N / D) e).
  assert (0 < 2 ^ n) by (apply pow2_pos; unfold n, excess; lia).
  rewrite (round_half_even_ext (N * c) (D * c * 2 ^ n) N (D * 2 ^ n)) by nia.
  done.
Qed.

(** A quotient that is a 53-bit integer times a power of two is
    represented exactly. *)
Lemma nearest_representable s N D e M t :
  0 < D -> 0 < M -> Zdigits2 M = 53 -> 0 <= t -> N = M * D * 2 ^ t ->
  -1074 <= e + t -> e + t + 1 <= 971 ->
  nearest s N D e = S754_finite s (Z.to_pos M) (e + t).
Proof.
  intros HD HMpos HM Ht HN Hlo Hhi.
  pose proof (Zdigits2_spec M HMpos) as HMb. rewrite HM in HMb.
  pose proof (pow2_pos t Ht) as Hpt.
  assert (N / D = M * 2 ^ t) as Hq.
  { subst N. replace (M * D * 2 ^ t) with (M * 2 ^ t * D) by lia.
    apply Z.div_mul. lia. }
  assert (Zdigits2 (N / D) = 53 + t) as Hdq.
  { rewrite Hq. apply Zdigits2_bounds; [lia|].
    replace (53 + t - 1) with (52 + t) by lia.
    rewrite !Z.pow_add_r by lia. nia. }
  destruct (nearest_normal s N D e) as [_ ->]; rewrite ?Hdq; try lia; try nia.
  replace (53 + t - 53) with t by lia.
  replace N with (M * (D * 2 ^ t)) by lia.
  rewrite round_half_even_exact by nia.
  by rewrite (proj2 (Z.ltb_lt M (2 ^ 53))) by lia.
Qed.

Lemma of_Z_nearest v :
  v <> 0 ->
  let a := Z.abs v in
  let d := Zdigits2 a in
  of_Z v = if d <? 53 then nearest (v <? 0) (a * 2 ^ (53 - d)) 1 (d - 53)
           else nearest (v <? 0) a 1 0.
Proof.
  intros Hv a d.
  assert (forall s p, Z.pos p = a ->
            binary_round prec emax s p 0
            = if d <? 53 then nearest s (a * 2 ^ (53 - d)) 1 (d - 53) else nearest s a 1 0)
    as Hround.
  { intros s p Hp. rewrite binary_round_nearest, Hp. fold d.
    pose proof (Zdigits2_spec a ltac:(lia)) as Hd. fold d in Hd.
    assert (0 < d) by (unfold d; rewrite <- Hp; simpl; lia).
    unfold fexp, emin, prec, emax. rewrite Z.add_0_r.
    destruct (Z.ltb_spec d 53).
    - rewrite Z.max_l by lia.
      rewrite (proj2 (Z.ltb_lt (d - 53) 0)) by lia.
      by replace (0 - (d - 53)) with (53 - d) by lia.
    - by rewrite (proj2 (Z.ltb_ge (Z.max (d - 53) (3 - 1024 - 53)) 0)) by lia. }
  destruct v as [|p|p]; [done|..]; apply Hround; done.
Qed.

(** The conversion of a non-zero int64 is a normal float; it is exact
    below [2^53]. *)
Lemma of_Z_normal v :
  v <> 0 -> Z.abs v < 2 ^ 64 ->
  exists m e,
    of_Z v = S754_finite (v <? 0) m e /\ Zdigits2 (Z.pos m) = 53 /\ -52 <= e <= 12
    /\ (e <= 0 -> Z.pos m = Z.abs v * 2 ^ (- e))
    /\ (Z.abs v < 2 ^ 53 -> e <= 0).
Proof.
  intros Hv Hb. rewrite of_Z_nearest by done.
  set (a := Z.abs v). set (d := Zdigits2 a).
  assert (0 < a) as Ha by (unfold a; lia).
  pose proof (Zdigits2_spec a Ha) as Hd. fold d in Hd.
  assert (0 < d) by (unfold d; destruct a; simpl; lia).
  assert (d <= 64).
  { destruct (Z.le_gt_cases d 64); [done|].
    assert (2 ^ 64 <= 2 ^ (d - 1)) by (apply Z.pow_le_mono_r; lia). lia. }
  destruct (Z.ltb_spec d 53) as [Hlt|Hge].
  - pose proof (pow2_pos (53 - d) ltac:(lia)).
    assert (Zdigits2 (a * 2 ^ (53 - d)) = 53) as HdM.
    { apply Zdigits2_bounds; [lia|]. change (53 - 1) with 52.
      assert (2 ^ 52 = 2 ^ (d - 1) * 2 ^ (53 - d)) as ->
        by (rewrite <- Z.pow_add_r by lia; f_equal; lia).
      assert (2 ^ 53 = 2 ^ d * 2 ^ (53 - d)) as ->
        by (rewrite <- Z.pow_add_r by lia; f_equal; lia).
      nia. }
    rewrite (nearest_representable _ _ 1 _ (a * 2 ^ (53 - d)) 0); try lia; try nia.
    exists (Z.to_pos (a * 2 ^ (53 - d))), (d - 53).
    rewrite Z2Pos.id by nia. rewrite Z.add_0_r.
    repeat split; try done; try lia.
    intros _. f_equal. f_equal. lia.
  - destruct (nearest_normal (v <? 0) a 1 0) as [Hm1 ->];
      rewrite ?Z.div_1_r; fold d; try lia.
    rewrite Z.div_1_r, Z.mul_1_l in Hm1. fold d in Hm1. rewrite Z.mul_1_l.
    set (m1 := round_half_even a (2 ^ (d - 53))) in *.
    assert (a < 2 ^ 53 -> d = 53).
    { intros. destruct (Z.le_gt_cases d 53); [lia|].
      assert (2 ^ 53 <= 2 ^ (d - 1)) by (apply Z.pow_le_mono_r; lia). lia. }
    assert (d = 53 -> m1 = a).
    { intros Hd53. unfold m1. rewrite Hd53. change (2 ^ (53 - 53)) with 1.
      rewrite <- (Z.mul_1_r a) at 1. by apply round_half_even_exact. }
    destruct (Z.ltb_spec m1 (2 ^ 53)).
    + exists (Z.to_pos m1), (0 + (d - 53)). rewrite Z2Pos.id by lia.
      repeat split; try lia.
      * apply Zdigits2_bounds; lia.
      * intros He. assert (d = 53) as Hd53 by lia.
        replace (- (0 + (d - 53))) with 0 by lia. lia.
    + exists (Z.to_pos (2 ^ 52)), (0 + (d - 53) + 1).
      repeat split; try done; lia.
Qed.

Lemma Zdigits2_normal m : Zdigits2 (Z.pos m) = 53 -> 2 ^ 52 <= Z.pos m < 2 ^ 53.
Proof. intros H. pose proof (Zdigits2_spec (Z.pos m) ltac:(lia)) as Hs. by rewrite H in Hs. Qed.

(** In the normal range the rounded quotient is a normal float whose
    value is the quotient rounded to 53 bits. *)
Lemma nearest_normal_finite s N D e :
  0 <= N -> 0 < D ->
  let dq := Zdigits2 (N / D) in
  53 <= dq -> -1074 <= e + dq - 53 -> e + dq - 52 <= 971 ->
  exists m e',
    nearest s N D e = S754_finite s m e' /\ Zdigits2 (Z.pos m) = 53
    /\ e + dq - 53 <= e' <= e + dq - 52
    /\ Z.pos m * 2 ^ (e' - (e + dq - 53)) = round_half_even N (D * 2 ^ (dq - 53)).
Proof.
  intros HN HD dq H1 H2 H3.
  destruct (nearest_normal s N D e HN HD H1 H2 H3) as [Hm1 ->]. fold dq in Hm1 |- *.
  set (m1 := round_half_even N (D * 2 ^ (dq - 53))) in *.
  destruct (Z.ltb_spec m1 (2 ^ 53)).
  - exists (Z.to_pos m1), (e + (dq - 53)). rewrite Z2Pos.id by lia.
    repeat split; try lia.
    + apply Zdigits2_bounds; lia.
    + replace (e + (dq - 53) - (e + dq - 53)) with 0 by lia. lia.
  - exists (Z.to_pos (2 ^ 52)), (e + (dq - 53) + 1).
    repeat split; try done; try lia.
    replace (e + (dq - 53) + 1 - (e + dq - 53)) with 1 by lia.
    change (Z.pos (Z.to_pos (2 ^ 52)) * 2 ^ 1) with (2 ^ 53). lia.
Qed.

Lemma div_normal sx mx ex sy my ey :
  Zdigits2 (Z.pos mx) = 53 -> Zdigits2 (Z.pos my) = 53 -> -1074 <= ex - ey - 53 ->
  div (S754_finite sx mx ex) (S754_finite sy my ey)
  = nearest (xorb sx sy) (Z.pos mx * 2 ^ 53) (Z.pos my) (ex - ey - 53).
Proof.
  intros Hx Hy He. rewrite div_nearest, Hx, Hy.
  assert (Z.min (fexp prec emax (53 + ex - (53 + ey))) (ex - ey) = ex - ey - 53) as ->
    by (unfold fexp, emin, prec, emax; lia).
  by replace (ex - ey - (ex - ey - 53)) with 53 by lia.
Qed.

Lemma div_normal_quotient mx my :
  Zdigits2 (Z.pos mx) = 53 -> Zdigits2 (Z.pos my) = 53 ->
  2 ^ 52 <= Z.pos mx * 2 ^ 53 / Z.pos my < 2 ^ 54.
Proof.
  intros Hx%Zdigits2_normal Hy%Zdigits2_normal. split.
  - apply Z.div_le_lower_bound; lia.
  - apply Z.div_lt_upper_bound; lia.
Qed.

Lemma Zdigits2_range m lo hi :
  0 < lo -> 2 ^ (lo - 1) <= m < 2 ^ hi -> lo <= Zdigits2 m <= hi.
Proof.
  intros Hlo [H1 H2].
  assert (0 < m) by (pose proof (pow2_pos (lo - 1)); lia).
  pose proof (Zdigits2_spec m ltac:(done)) as [Hs1 Hs2].
  split.
  - destruct (Z.le_gt_cases lo (Zdigits2 m)); [done|].
    assert (2 ^ Zdigits2 m <= 2 ^ (lo - 1)) by (apply Z.pow_le_mono_r; lia). lia.
  - destruct (Z.le_gt_cases (Zdigits2 m) hi); [done|].
    assert (2 ^ hi <= 2 ^ (Zdigits2 m - 1)) by (apply Z.pow_le_mono_r; lia). lia.
Qed.

(** The quotient of two normal floats, away from the ends of the
    exponent range, is a normal float. *)
Lemma div_normal_finite sx mx ex sy my ey :
  Zdigits2 (Z.pos mx) = 53 -> Zdigits2 (Z.pos my) = 53 ->
  -1000 <= ex - ey <= 900 ->
  exists m e,
    div (S754_finite sx mx ex) (S754_finite sy my ey) = S754_finite (xorb sx sy) m e
    /\ Zdigits2 (Z.pos m) = 53 /\ ex - ey - 53 <= e <= ex - ey - 51.
Proof.
  intros Hx Hy He. rewrite div_normal by (done || lia).
  pose proof (div_normal_quotient mx my Hx Hy) as Hq.
  pose proof (Zdigits2_range _ 53 54 ltac:(lia) Hq) as Hdq.
  destruct (nearest_normal_finite (xorb sx sy) (Z.pos mx * 2 ^ 53) (Z.pos my) (ex - ey - 53))
    as (m & e & -> & Hm & Hrange & _); try lia.
  exists m, e. repeat split; [done|lia..].
Qed.


(** Dividing a normal float by a power of two only lowers the exponent. *)
Lemma div_pow2 s m e k :
  Zdigits2 (Z.pos m) = 53 -> -1000 <= e - k <= 900 ->
  div (S754_finite s m e) (S754_finite false (Z.to_pos (2 ^ 52)) (k - 52))
  = S754_finite s m (e - k).
Proof.
  intros Hm He. rewrite div_normal by (done || lia). rewrite xorb_false_r.
  rewrite (nearest_representable _ _ _ _ (Z.pos m) 1); try done; try lia.
  f_equal. lia.
Qed.

End RoundingFacts.

(** ** The formatters and the sort-value parsers *)
Section FormatFacts.
Import Float64 Fmt Strings Pkg Cmd.

Lemma is_digit_not_sign c :
  is_digit c = true ->
  c <> "-"%char /\ c <> "+"%char /\ c <> "<"%char /\ c <> "."%char.
Proof. intros H. repeat split; intros ->; discriminate H. Qed.

Lemma scan_sign_digit c r : is_digit c = true -> scan_sign (String c r) = (false, String c r).
Proof.
  intros H. destruct (is_digit_not_sign c H) as (Hm & Hp & _).
  destruct c as [[] [] [] [] [] [] [] []]; done.
Qed.

(** The value of the float an integer below [2^53] converts to is that
    integer. *)
Lemma of_Z_value v :
  0 < v < 2 ^ 53 ->
  is_finite (of_Z v) = true /\ sign (of_Z v) = false /\ num (of_Z v) = v * den (of_Z v).
Proof.
  intros Hv. destruct (of_Z_normal v) as (m & e & -> & Hm & He & Hex & Hsmall); [lia..|].
  specialize (Hsmall ltac:(lia)). specialize (Hex Hsmall).
  rewrite Z.abs_eq in Hex by lia.
  repeat split; [simpl; by rewrite (proj2 (Z.ltb_ge v 0)) by lia|].
  unfold num, den. destruct (Z.leb_spec 0 e).
  - assert (e = 0) as -> by lia. simpl in *. lia.
  - done.
Qed.

(** Scanning the digits of a small non-negative integer yields its float. *)
Lemma Sscanf_f_Sprintf_d v : 0 <= v < 2 ^ 52 -> Sscanf_f (Sprintf_d v) = of_Z v.
Proof.
  intros Hv. unfold Sscanf_f, scan_float.
  destruct (Sprintf_d_digits v) as (c & r & E & Hc & _); [lia|].
  destruct (scan_digits_Sprintf_d v "") as (n & Hn & Hscan); [lia|done|].
  rewrite append_nil_r in Hscan.
  rewrite E, scan_sign_digit by done. rewrite <- E, Hscan.
  destruct n as [|n]; [lia|]. simpl Nat.eqb.
  unfold of_decimal. rewrite (proj2 (Z.ltb_lt v (2 ^ 52))) by lia. simpl.
  destruct (Z.eq_dec v 0) as [->|]; [done|].
  destruct (of_Z_normal v) as (m & e & -> & _); [lia..|]. done.
Qed.

Lemma formatCPU_milli v : 0 < v < 1000 -> formatCPU v = Sprintf_d v +:+ "m".
Proof.
  intros Hv. unfold formatCPU.
  rewrite (proj2 (Z.eqb_neq v 0)) by lia. by rewrite (proj2 (Z.ltb_lt v 1000)) by lia.
Qed.

Lemma formatMemory_bytes v : 0 < v < 1024 -> formatMemory v = Sprintf_d v +:+ "B".
Proof.
  intros Hv. unfold formatMemory, GB, MB, KB.
  rewrite (proj2 (Z.eqb_neq v 0)) by lia.
  by rewrite !(proj2 (Z.leb_gt _ v)) by lia.
Qed.

(** A string that starts with a digit is none of the three strings the
    parsers treat as "no value". *)
Lemma digit_head_not_sentinel c r :
  is_digit c = true ->
  String.eqb (String c r) "" || String.eqb (String c r) "-"
  || String.eqb (String c r) "<unknown>" = false.
Proof.
  intros H. destruct (is_digit_not_sign c H) as (Hm & _ & Hl & _).
  simpl. apply Ascii.eqb_neq in Hm, Hl. by rewrite Hm, Hl.
Qed.

End FormatFacts.

(** C9: For every milli-core value [0 < v < 1000], [formatCPU v] ends in
    "m", and [parseCPUValue], which strips the "m" and scans the number,
    returns the float64 of [v], whose value is [v] exactly. *)
Theorem formatCPU_parse_round_trip v :
  0 < v < 1000 ->
  Strings.HasSuffix (Pkg.formatCPU v) "m" = true
  /\ Cmd.parseCPUValue (Pkg.formatCPU v) = Float64.of_Z v
  /\ Float64.sign (Float64.of_Z v) = false
  /\ Float64.num (Float64.of_Z v) = v * Float64.den (Float64.of_Z v).
Proof.
  intros Hv. rewrite formatCPU_milli by done.
  destruct (Sprintf_d_digits v) as (c & r & E & Hc & _); [lia|].
  split; [apply HasSuffix_append|].
  split.
  - unfold Cmd.parseCPUValue. rewrite E, append_cons, digit_head_not_sentinel by done.
    rewrite <- append_cons, <- E, TrimSuffix_append.
    apply Sscanf_f_Sprintf_d. lia.
  - apply of_Z_value. lia.
Qed.

Lemma formatCPU_parse_round_trip_witness :
  Strings.HasSuffix (Pkg.formatCPU 100) "m" = true
  /\ Cmd.parseCPUValue (Pkg.formatCPU 100) = Float64.of_Z 100
  /\ Float64.sign (Float64.of_Z 100) = false
  /\ Float64.num (Float64.of_Z 100) = 100 * Float64.den (Float64.of_Z 100).
Proof. apply (formatCPU_parse_round_trip 100). lia. Defined.

(** C10: For every byte value [1 <= v < 1024], [formatMemory v] ends in
    "B", and [parseMemoryValue] returns 0 on it, its suffix being none of
    Gi, Mi, Ki: the round trip loses every value below 1 Ki. *)
Theorem formatMemory_bytes_parse_zero v :
  1 <= v < 1024 ->
  Strings.HasSuffix (Pkg.formatMemory v) "B" = true
  /\ Cmd.parseMemoryValue (Pkg.formatMemory v) = 0
  /\ Cmd.parseMemoryValue (Pkg.formatMemory v) <> v.
Proof.
  intros Hv. rewrite formatMemory_bytes by lia.
  destruct (Sprintf_d_digits v) as (c & r & E & Hc & _); [lia|].
  split; [apply HasSuffix_append|].
  assert (Cmd.parseMemoryValue (Fmt.Sprintf_d v +:+ "B") = 0) as ->; [|split; [done|lia]].
  unfold Cmd.parseMemoryValue.
  rewrite E, append_cons, digit_head_not_sentinel by done.
  rewrite <- append_cons, <- E.
  change "Gi" with ("G" +:+ String "i"%char "").
  change "Mi" with ("M" +:+ String "i"%char "").
  change "Ki" with ("K" +:+ String "i"%char "").
  by rewrite !HasSuffix_last_ne by done.
Qed.

(** ** Aggregation of requests and limits *)
Section AggregationFacts.
Import Resource Corev1 Pkg PodRule.

Lemma addContainer_nano t c :
  nano (CPURequest (addContainer t c))
    = nano (CPURequest t) + from_option nano 0 (requestOf ResourceCPU c)
  /\ nano (MemoryRequest (addContainer t c))
    = nano (MemoryRequest t) + from_option nano 0 (requestOf ResourceMemory c)
  /\ nano (CPULimit (addContainer t c))
    = nano (CPULimit t) + from_option nano 0 (limitOf ResourceCPU c)
  /\ nano (MemoryLimit (addContainer t c))
    = nano (MemoryLimit t) + from_option nano 0 (limitOf ResourceMemory c).
Proof.
  unfold addContainer, addLimits, addRequests, requestOf, limitOf.
  destruct (Requests c) as [rq|], (Limits c) as [lm|]; simpl;
    repeat match goal with |- context [?m !! ?k] => destruct (m !! k) end;
    simpl; lia.
Qed.

Lemma amounts_cons f c cs :
  amounts f (c :: cs) = match f c with Some q => nano q :: amounts f cs | None => amounts f cs end.
Proof. unfold amounts. simpl. by destruct (f c). Qed.

Lemma sumOf_amounts_cons f c cs :
  sumOf (amounts f (c :: cs)) = from_option nano 0 (f c) + sumOf (amounts f cs).
Proof. rewrite amounts_cons. by destruct (f c). Qed.

(** The loop over the regular containers adds up each kind on its own. *)
Lemma fold_addContainer_nano cs : forall t,
  let t' := fold_left addContainer cs t in
  nano (CPURequest t') = nano (CPURequest t) + sumOf (amounts (requestOf ResourceCPU) cs)
  /\ nano (MemoryRequest t') = nano (MemoryRequest t) + sumOf (amounts (requestOf ResourceMemory) cs)
  /\ nano (CPULimit t') = nano (CPULimit t) + sumOf (amounts (limitOf ResourceCPU) cs)
  /\ nano (MemoryLimit t') = nano (MemoryLimit t) + sumOf (amounts (limitOf ResourceMemory) cs).
Proof.
  induction cs as [|c cs IH]; intros t.
  - unfold sumOf. simpl. lia.
  - cbn [fold_left].
    destruct (IH (addContainer t c)) as (H1 & H2 & H3 & H4).
    destruct (addContainer_nano t c) as (A1 & A2 & A3 & A4).
    rewrite !sumOf_amounts_cons. cbn zeta in *. lia.
Qed.

Lemma maxInitContainer_nano t c :
  nano (CPURequest (maxInitContainer t c))
    = maxWith (nano (CPURequest t)) (nano <$> requestOf ResourceCPU c)
  /\ nano (MemoryRequest (maxInitContainer t c))
    = maxWith (nano (MemoryRequest t)) (nano <$> requestOf ResourceMemory c)
  /\ nano (CPULimit (maxInitContainer t c)) = nano (CPULimit t)
  /\ nano (MemoryLimit (maxInitContainer t c)) = nano (MemoryLimit t).
Proof.
  unfold maxInitContainer, requestOf, Cmp, maxWith.
  destruct (Requests c) as [rq|]; simpl; [|done].
  destruct (rq !! ResourceCPU) as [cpu|]; simpl;
    [destruct (Z.compare_spec (nano cpu) (nano (CPURequest t))); simpl|];
    (destruct (rq !! ResourceMemory) as [mem|]; simpl;
     [destruct (Z.compare_spec (nano mem) (nano (MemoryRequest t))); simpl|]);
    lia.
Qed.

Lemma maxOf_cons x l : maxOf (x :: l) = Some (maxWith x (maxOf l)).
Proof. done. Qed.

Lemma maxWith_maxOf_cons a f c cs :
  maxWith (maxWith a (nano <$> f c)) (maxOf (amounts f cs))
  = maxWith a (maxOf (amounts f (c :: cs))).
Proof.
  rewrite amounts_cons. destruct (f c) as [q|]; [|done].
  rewrite maxOf_cons. simpl. destruct (maxOf (amounts f cs)); simpl; lia.
Qed.

(** The loop over the init containers takes a running maximum of the
    requests and leaves the limits alone. *)
Lemma fold_maxInitContainer_nano cs : forall t,
  let t' := fold_left maxInitContainer cs t in
  nano (CPURequest t')
    = maxWith (nano (CPURequest t)) (maxOf (amounts (requestOf ResourceCPU) cs))
  /\ nano (MemoryRequest t')
    = maxWith (nano (MemoryRequest t)) (maxOf (amounts (requestOf ResourceMemory) cs))
  /\ nano (CPULimit t') = nano (CPULimit t)
  /\ nano (MemoryLimit t') = nano (MemoryLimit t).
Proof.
  induction cs as [|c cs IH]; intros t; [done|].
  cbn [fold_left].
  destruct (IH (maxInitContainer t c)) as (H1 & H2 & H3 & H4).
  destruct (maxInitContainer_nano t c) as (A1 & A2 & A3 & A4).
  cbn zeta in *.
  rewrite H1, H2, H3, H4, A1, A2, A3, A4, !maxWith_maxOf_cons. done.
Qed.

Lemma addPod_nano t pod :
  let t' := addPod t pod in
  nano (CPURequest t')
    = maxWith (nano (CPURequest t) + sumOf (amounts (requestOf ResourceCPU) (Containers pod)))
              (maxOf (amounts (requestOf ResourceCPU) (InitContainers pod)))
  /\ nano (MemoryRequest t')
    = maxWith (nano (MemoryRequest t) + sumOf (amounts (requestOf ResourceMemory) (Containers pod)))
              (maxOf (amounts (requestOf ResourceMemory) (InitContainers pod)))
  /\ nano (CPULimit t') = nano (CPULimit t) + sumOf (amounts (limitOf ResourceCPU) (Containers pod))
  /\ nano (MemoryLimit t') = nano (MemoryLimit t) + sumOf (amounts (limitOf ResourceMemory) (Containers pod)).
Proof.
  unfold addPod.
  destruct (fold_maxInitContainer_nano (InitContainers pod)
              (fold_left addContainer (Containers pod) t)) as (H1 & H2 & H3 & H4).
  destruct (fold_addContainer_nano (Containers pod) t) as (A1 & A2 & A3 & A4).
  simpl in *. rewrite H1, H2, H3, H4, A1, A2, A3, A4. done.
Qed.

Lemma scaled_away_nonzero n scale : 0 < scale -> n <> 0 -> scaled_away n scale <> 0.
Proof.
  intros Hs Hn. unfold scaled_away. destruct (Z.leb_spec 0 n).
  - assert (0 < (n + scale - 1) / scale); [|lia].
    apply Z.div_str_pos. lia.
  - assert (0 < (- n + scale - 1) / scale); [|lia].
    apply Z.div_str_pos. lia.
Qed.


Lemma aggregatePod_unscheduled m pod : NodeName pod = "" -> aggregatePod m pod = m.
Proof. intros H. unfold aggregatePod. by rewrite H. Qed.

Lemma aggregatePod_scheduled m pod :
  NodeName pod <> "" ->
  exists e, aggregatePod m pod = <[NodeName pod := e]> m.
Proof.
  intros H. unfold aggregatePod.
  rewrite (proj2 (String.eqb_neq _ _) H). eauto.
Qed.

(** The nodes with an entry are those of the accumulator and those of
    the scheduled pods. *)
Lemma fold_aggregatePod_entries pods : forall m n,
  is_Some (fold_left aggregatePod pods m !! n)
  <-> is_Some (m !! n) \/ (n <> "" /\ exists pod, pod ∈ pods /\ NodeName pod = n).
Proof.
  induction pods as [|pod pods IH]; intros m n; cbn [fold_left].
  - split; [by left|]. intros [?|(_ & pod & Hin & _)]; [done|]. by apply elem_of_nil in Hin.
  - rewrite IH. destruct (decide (NodeName pod = "")) as [Hu|Hs].
    + rewrite aggregatePod_unscheduled by done. split.
      * intros [?|(Hn & p & Hin & Hp)]; [by left|right].
        split; [done|]. exists p. split; [by apply elem_of_cons; right|done].
      * intros [?|(Hn & p & Hin & Hp)]; [by left|right].
        split; [done|]. exists p. split; [|done].
        apply elem_of_cons in Hin as [->|]; [congruence|done].
    + destruct (aggregatePod_scheduled m pod Hs) as [e ->]. split.
      * intros [Hl|(Hn & p & Hin & Hp)].
        -- destruct (decide (NodeName pod = n)) as [<-|Hne].
           ++ right. split; [done|]. exists pod. split; [apply elem_of_cons; by left|done].
           ++ left. by rewrite lookup_insert_ne in Hl.
        -- right. split; [done|]. exists p. split; [by apply elem_of_cons; right|done].
      * intros [Hl|(Hn & p & Hin & Hp)].
        -- left. destruct (decide (NodeName pod = n)) as [<-|Hne].
           ++ rewrite lookup_insert_eq. eauto.
           ++ by rewrite lookup_insert_ne.
        -- apply elem_of_cons in Hin as [->|Hin].
           ++ left. rewrite Hp, lookup_insert_eq. eauto.
           ++ right. split; [done|]. by exists p.
Qed.

Lemma fold_aggregatePod_scheduled pods : forall m,
  fold_left aggregatePod pods m
  = fold_left aggregatePod (filter (fun pod => NodeName pod <> "") pods) m.
Proof.
  induction pods as [|pod pods IH]; intros m; [done|].
  cbn [fold_left]. destruct (decide (NodeName pod = "")) as [Hu|Hs].
  - rewrite filter_cons_False by (intros ?; done).
    rewrite aggregatePod_unscheduled by done. apply IH.
  - rewrite filter_cons_True by done. cbn [fold_left]. apply IH.
Qed.
End AggregationFacts.


(** C8: A pod without a node contributes nothing to the aggregation, and
    the result has an entry exactly for the nodes that some scheduled pod
    names; a single unscheduled pod yields the empty map. *)
Theorem aggregate_only_scheduled_pods (pods : list Corev1.Pod) :
  exists nodeResources,
    Pkg.AggregatePodResourcesByNode (inr pods) = inr nodeResources
    /\ Pkg.AggregatePodResourcesByNode
         (inr (filter (fun pod => Corev1.NodeName pod <> "") pods)) = inr nodeResources
    /\ (forall n, is_Some (nodeResources !! n)
                  <-> exists pod, pod ∈ pods /\ Corev1.NodeName pod = n /\ n <> "")
    /\ Pkg.AggregatePodResourcesByNode (inr [Examples.podUnscheduled]) = inr ∅.
Proof.
  exists (fold_left Pkg.aggregatePod pods ∅). split; [done|]. split.
  - unfold Pkg.AggregatePodResourcesByNode. by rewrite <- fold_aggregatePod_scheduled.
  - split; [|done]. intros n. rewrite fold_aggregatePod_entries, lookup_empty. split.
    + intros [[? ?]|(Hn & pod & Hin & Hp)]; [done|]. by exists pod.
    + intros (pod & Hin & Hp & Hn). right. split; [done|]. by exists pod.
Qed.

(** C1: The per-node totals of [AggregatePodResourcesByNode] depend on the
    order in which the pods are listed: a pod with a 100m container and a
    500m init container, and a pod with a 200m container, both on node1,
    give node1 a CPU request of 700m in one order and 500m in the other. *)
Theorem aggregate_depends_on_pod_order :
  [Examples.podWithInit; Examples.podPlain] ≡ₚ [Examples.podPlain; Examples.podWithInit]
  /\ Examples.cpuRequestOf "node1" [Examples.podWithInit; Examples.podPlain]
      = Some (700 * 10 ^ 6)
  /\ Examples.cpuRequestOf "node1" [Examples.podPlain; Examples.podWithInit]
      = Some (500 * 10 ^ 6).
Proof. split; [apply Permutation_swap|]. split; reflexivity. Qed.

(** ** Percentages and the combiners *)
Section PercentFacts.
Import Resource Corev1 Pkg.

Lemma percentOf_zero total totalValue usage :
  nano total = 0 -> percentOf total totalValue usage = "-".
Proof. intros H. unfold percentOf, IsZero. rewrite H. reflexivity. Qed.

Lemma index_absent_or_zero (l : ResourceList) (k : string) :
  from_option (fun q : Quantity => nano q = 0) True (l !! k) -> nano (index l k) = 0.
Proof. unfold index. by destruct (l !! k). Qed.

Lemma CalculateNodePercentages_eq (node : Node) (cu mu : Z) (sc : bool) :
  let reference := if sc then Capacity node else Allocatable node in
  CalculateNodePercentages node cu mu sc
  = (percentOf (index reference ResourceCPU) (MilliValue (index reference ResourceCPU)) cu,
     percentOf (index reference ResourceMemory) (Value (index reference ResourceMemory)) mu).
Proof. unfold CalculateNodePercentages. by destruct sc. Qed.
End PercentFacts.

(** C4: When the reference total chosen by the flag is absent or zero for
    a resource kind, [CalculateNodePercentages] returns ["-"] for that
    kind, whatever the usage; each of the two results depends on its own
    total and usage only, so one can be ["-"] while the other is a
    percentage. *)
Theorem percentage_sentinel (node : Corev1.Node) (cpuUsageMilli memoryUsageBytes : Z)
    (showCapacity : bool) :
  let reference := if showCapacity then Corev1.Capacity node else Corev1.Allocatable node in
  let result := Pkg.CalculateNodePercentages node cpuUsageMilli memoryUsageBytes showCapacity in
  (from_option (fun q : Resource.Quantity => Resource.nano q = 0) True (reference !! Corev1.ResourceCPU) ->
   result.1 = "-")
  /\ (from_option (fun q : Resource.Quantity => Resource.nano q = 0) True (reference !! Corev1.ResourceMemory) ->
      result.2 = "-")
  /\ (forall memoryUsageBytes',
        (Pkg.CalculateNodePercentages node cpuUsageMilli memoryUsageBytes' showCapacity).1
        = result.1)
  /\ (forall cpuUsageMilli',
        (Pkg.CalculateNodePercentages node cpuUsageMilli' memoryUsageBytes showCapacity).2
        = result.2)
  /\ Pkg.CalculateNodePercentages Examples.nodeMemoryOnly 2000 (4 * 2 ^ 30) false
     = ("-", "50%").
Proof.
  intros reference result. unfold result. rewrite CalculateNodePercentages_eq.
  fold reference. cbn [fst snd].
  split; [intros H; by apply percentOf_zero, index_absent_or_zero|].
  split; [intros H; by apply percentOf_zero, index_absent_or_zero|].
  split; [intros mu'; by rewrite CalculateNodePercentages_eq|].
  split; [intros cu'; by rewrite CalculateNodePercentages_eq|].
  reflexivity.
Qed.

Section CombinerFacts.
Import Resource Corev1 Pkg Cmd.

Abbreviation metricsRows resourcesMap :=
  (map (fun km : string * PodMetrics.t => metricsRow km.2 (resourcesMap !! km.1))).
Abbreviation resourcesRows :=
  (map (fun kr : string * PodResources.t => resourcesRow kr.2)).

(** The first loop never meets a key twice: it appends one row per entry
    of the metrics map. *)
Lemma fold_addMetricsEntry resourcesMap (l : list (string * PodMetrics.t)) :
  forall combined (seen : gset string),
    NoDup l.*1 -> (forall k, k ∈ l.*1 -> k ∉ seen) ->
    fold_left (addMetricsEntry resourcesMap) l (combined, seen)
    = (combined ++ metricsRows resourcesMap l, list_to_set l.*1 ∪ seen).
Proof.
  induction l as [|[k m] l IH]; intros combined seen Hnd Hfresh.
  - simpl. rewrite app_nil_r. f_equal. set_solver.
  - cbn [fold_left]. unfold addMetricsEntry at 2.
    rewrite decide_False by (apply Hfresh; set_solver).
    simpl in Hnd. apply NoDup_cons in Hnd as [Hk Hnd].
    rewrite IH; [|done|].
    + cbn [map fst snd fmap list_fmap]. rewrite <- app_assoc. f_equal. set_solver.
    + intros k' Hk'. specialize (Hfresh k'). set_solver.
Qed.

Lemma filter_ext_elem_of {A} (P Q : A -> Prop) `{!forall x, Decision (P x)}
    `{!forall x, Decision (Q x)} (l : list A) :
  (forall x, x ∈ l -> P x <-> Q x) -> filter P l = filter Q l.
Proof.
  induction l as [|x l IH]; intros Hext; [done|].
  assert (filter P l = filter Q l) as Hl by (apply IH; intros; apply Hext; set_solver).
  destruct (decide (P x)) as [HP|HP].
  - rewrite !filter_cons_True, Hl; [done|..]; try done. apply Hext; [set_solver|done].
  - rewrite !filter_cons_False, Hl; [done|..]; try done. rewrite <- Hext; [done|set_solver].
Qed.

(** The second loop appends one row per entry whose key the first loop
    has not seen. *)
Lemma fold_addResourcesEntry (l : list (string * PodResources.t)) :
  forall combined (seen : gset string),
    NoDup l.*1 ->
    fold_left addResourcesEntry l (combined, seen)
    = (combined ++ resourcesRows (filter (fun kr => kr.1 ∉ seen) l),
       list_to_set l.*1 ∪ seen).
Proof.
  induction l as [|[k r] l IH]; intros combined seen Hnd.
  - simpl. rewrite app_nil_r. f_equal. set_solver.
  - cbn [fold_left]. unfold addResourcesEntry at 2.
    simpl in Hnd. apply NoDup_cons in Hnd as [Hk Hnd].
    destruct (decide (k ∈ seen)) as [Hin|Hout].
    + rewrite IH by done. rewrite filter_cons_False by (simpl; tauto).
      f_equal. set_solver.
    + rewrite IH by done. rewrite filter_cons_True by done.
      cbn [map snd]. rewrite <- app_assoc. f_equal; [|set_solver].
      f_equal. f_equal. f_equal.
      apply filter_ext_elem_of. intros [k' r'] Hin. simpl.
      assert (k' <> k); [|set_solver].
      intros ->. apply Hk. apply list_elem_of_fmap. by exists (k, r').
Qed.

Lemma combineMetricsAndResources_eq metrics resources :
  let metricsMap := metricsMapOf metrics in
  let resourcesMap := resourcesMapOf resources in
  combineMetricsAndResources metrics resources
  = metricsRows resourcesMap (map_to_list metricsMap)
    ++ resourcesRows (filter (fun kr => metricsMap !! kr.1 = None) (map_to_list resourcesMap)).
Proof.
  intros metricsMap resourcesMap. unfold combineMetricsAndResources.
  fold metricsMap resourcesMap.
  rewrite fold_addMetricsEntry;
    [|apply NoDup_fst_map_to_list|intros; set_solver].
  rewrite fold_addResourcesEntry by apply NoDup_fst_map_to_list.
  cbn [fst]. rewrite app_nil_l. f_equal. f_equal.
  apply list_filter_iff. intros [k r]. simpl.
  rewrite <- not_elem_of_dom, dom_alt. set_solver.
Qed.
End CombinerFacts.

Section CombinerRows.
Import Resource Corev1 Pkg Cmd.

Lemma filter_map_to_list_length {A} (P : string * A -> Prop) `{!forall x, Decision (P x)}
    (m : gmap string A) (X : gset string) :
  (forall i, i ∈ X <-> exists x, m !! i = Some x /\ P (i, x)) ->
  length (filter P (map_to_list m)) = size X.
Proof.
  intros HX.
  assert (filter P (map_to_list m) ≡ₚ map_to_list (filter P m)) as ->.
  { apply NoDup_Permutation.
    - apply NoDup_filter, NoDup_map_to_list.
    - apply NoDup_map_to_list.
    - intros [i x]. rewrite list_elem_of_filter, !elem_of_map_to_list, map_lookup_filter_Some.
      tauto. }
  rewrite length_map_to_list, <- size_dom. f_equal.
  by apply dom_filter_L.
Qed.

Lemma metricsMapOf_dom metrics k :
  k ∈ dom (metricsMapOf metrics)
  <-> exists m, m ∈ metrics /\ podKey (PodMetrics.Namespace m) (PodMetrics.Name m) = k.
Proof.
  unfold metricsMapOf.
  assert (forall acc : gmap string PodMetrics.t,
            k ∈ dom (fold_left
                       (fun mm m => <[podKey (PodMetrics.Namespace m) (PodMetrics.Name m) := m]> mm)
                       metrics acc)
            <-> k ∈ dom acc \/ exists m, m ∈ metrics
                   /\ podKey (PodMetrics.Namespace m) (PodMetrics.Name m) = k) as H.
  { induction metrics as [|m l IH]; intros acc; cbn [fold_left].
    - set_solver.
    - rewrite IH, dom_insert_L. set_solver. }
  rewrite H. set_solver.
Qed.

Lemma resourcesMapOf_dom resources k :
  k ∈ dom (resourcesMapOf resources)
  <-> exists r, r ∈ resources /\ podKey (PodResources.Namespace r) (PodResources.Name r) = k.
Proof.
  unfold resourcesMapOf.
  assert (forall acc : gmap string PodResources.t,
            k ∈ dom (fold_left
                       (fun rm r => <[podKey (PodResources.Namespace r) (PodResources.Name r) := r]> rm)
                       resources acc)
            <-> k ∈ dom acc \/ exists r, r ∈ resources
                   /\ podKey (PodResources.Namespace r) (PodResources.Name r) = k) as H.
  { induction resources as [|r l IH]; intros acc; cbn [fold_left].
    - set_solver.
    - rewrite IH, dom_insert_L. set_solver. }
  rewrite H. set_solver.
Qed.

Lemma combineNodeMetricsAndResources_eq qs metrics resources nodes sc :
  combineNodeMetricsAndResources qs metrics resources nodes sc
  = map (nodeRow qs resources nodes sc) metrics.
Proof.
  unfold combineNodeMetricsAndResources.
  assert (forall acc, fold_left (fun combined m => combined ++ [nodeRow qs resources nodes sc m])
                        metrics acc = acc ++ map (nodeRow qs resources nodes sc) metrics) as H.
  { induction metrics as [|m l IH]; intros acc; cbn [fold_left map].
    - by rewrite app_nil_r.
    - by rewrite IH, <- app_assoc. }
  apply H.
Qed.
End CombinerRows.

(** C5, as the code has it.  The pod combiner produces one row for every
    distinct namespace/name key of the usage samples, with request and
    limit ["-"] when the resources have no entry of that key, and one row
    for every key that only the resources have, with usage ["<unknown>"]
    and the requests and limits of that entry.  The node combiner produces
    one row per usage sample, in order, with request and limit ["-"] when
    the node has no aggregate and percentages ["-"] when the node object
    is missing; it produces no other row. *)
Theorem combiner_rows (QuantityString : Resource.Quantity -> string)
    (metrics : list Pkg.PodMetrics.t) (resources : list Pkg.PodResources.t)
    (nodeMetrics : list Pkg.NodeMetrics.t)
    (aggregates : gmap string Pkg.NodeAggregatedResources)
    (nodes : gmap string Corev1.Node) (showCapacity : bool) :
  let metricsMap := Cmd.metricsMapOf metrics in
  let resourcesMap := Cmd.resourcesMapOf resources in
  let combined := Cmd.combineMetricsAndResources metrics resources in
  let nodeRows :=
    Cmd.combineNodeMetricsAndResources QuantityString nodeMetrics aggregates nodes showCapacity in
  (* pods *)
  length combined = size (dom metricsMap ∪ dom resourcesMap)
  /\ (forall k, k ∈ dom metricsMap
        <-> exists m, m ∈ metrics
              /\ Cmd.podKey (Pkg.PodMetrics.Namespace m) (Pkg.PodMetrics.Name m) = k)
  /\ (forall k, k ∈ dom resourcesMap
        <-> exists r, r ∈ resources
              /\ Cmd.podKey (Pkg.PodResources.Namespace r) (Pkg.PodResources.Name r) = k)
  /\ (forall k m, metricsMap !! k = Some m ->
        Cmd.metricsRow m (resourcesMap !! k) ∈ combined)
  /\ (forall m,
        Cmd.metricsRow m None
        = {| Cmd.CombinedPodData.Name := Pkg.PodMetrics.Name m;
             Cmd.CombinedPodData.CPUUsage := Pkg.PodMetrics.CPU m;
             Cmd.CombinedPodData.CPURequest := "-";
             Cmd.CombinedPodData.CPULimit := "-";
             Cmd.CombinedPodData.MemoryUsage := Pkg.PodMetrics.Memory m;
             Cmd.CombinedPodData.MemoryRequest := "-";
             Cmd.CombinedPodData.MemoryLimit := "-" |})
  /\ (forall k r, resourcesMap !! k = Some r -> metricsMap !! k = None ->
        {| Cmd.CombinedPodData.Name := Pkg.PodResources.Name r;
           Cmd.CombinedPodData.CPUUsage := "<unknown>";
           Cmd.CombinedPodData.CPURequest := Pkg.PodResources.CPURequest r;
           Cmd.CombinedPodData.CPULimit := Pkg.PodResources.CPULimit r;
           Cmd.CombinedPodData.MemoryUsage := "<unknown>";
           Cmd.CombinedPodData.MemoryRequest := Cmd.memoryIn (Pkg.PodResources.MemoryRequest r) "Mi";
           Cmd.CombinedPodData.MemoryLimit := Cmd.memoryIn (Pkg.PodResources.MemoryLimit r) "Mi" |}
        ∈ combined)
  (* nodes *)
  /\ nodeRows = map (Cmd.nodeRow QuantityString aggregates nodes showCapacity) nodeMetrics
  /\ (forall m,
        let row := Cmd.nodeRow QuantityString aggregates nodes showCapacity m in
        Cmd.CombinedNodeData.Name row = Pkg.NodeMetrics.Name m
        /\ Cmd.CombinedNodeData.CPUUsage row = Pkg.NodeMetrics.CPU m
        /\ Cmd.CombinedNodeData.MemoryUsage row = Pkg.NodeMetrics.Memory m
        /\ (aggregates !! Pkg.NodeMetrics.Name m = None ->
            Cmd.CombinedNodeData.CPURequest row = "-"
            /\ Cmd.CombinedNodeData.CPULimit row = "-"
            /\ Cmd.CombinedNodeData.MemoryRequest row = "-"
            /\ Cmd.CombinedNodeData.MemoryLimit row = "-")
        /\ (nodes !! Pkg.NodeMetrics.Name m = None ->
            Cmd.CombinedNodeData.CPUPercent row = "-"
            /\ Cmd.CombinedNodeData.MemoryPercent row = "-"))
  /\ (forall row, row ∈ nodeRows ->
        exists m, m ∈ nodeMetrics /\ Cmd.CombinedNodeData.Name row = Pkg.NodeMetrics.Name m).
Proof.
  intros metricsMap resourcesMap combined nodeRows.
  assert (combined
          = map (fun km : string * Pkg.PodMetrics.t => Cmd.metricsRow km.2 (resourcesMap !! km.1))
                (map_to_list metricsMap)
            ++ map (fun kr : string * Pkg.PodResources.t => Cmd.resourcesRow kr.2)
                   (filter (fun kr => metricsMap !! kr.1 = None) (map_to_list resourcesMap)))
    as Hc by apply combineMetricsAndResources_eq.
  assert (forall m,
    let row := Cmd.nodeRow QuantityString aggregates nodes showCapacity m in
    Cmd.CombinedNodeData.Name row = Pkg.NodeMetrics.Name m
    /\ Cmd.CombinedNodeData.CPUUsage row = Pkg.NodeMetrics.CPU m
    /\ Cmd.CombinedNodeData.MemoryUsage row = Pkg.NodeMetrics.Memory m
    /\ (aggregates !! Pkg.NodeMetrics.Name m = None ->
        Cmd.CombinedNodeData.CPURequest row = "-"
        /\ Cmd.CombinedNodeData.CPULimit row = "-"
        /\ Cmd.CombinedNodeData.MemoryRequest row = "-"
        /\ Cmd.CombinedNodeData.MemoryLimit row = "-")
    /\ (nodes !! Pkg.NodeMetrics.Name m = None ->
        Cmd.CombinedNodeData.CPUPercent row = "-"
        /\ Cmd.CombinedNodeData.MemoryPercent row = "-")) as Hrow.
  { intros m row. unfold row, Cmd.nodeRow.
    destruct (nodes !! Pkg.NodeMetrics.Name m) as [node|];
      [destruct (Pkg.CalculateNodePercentages _ _ _ _)|];
      (destruct (aggregates !! Pkg.NodeMetrics.Name m) as [agg|]; simpl;
       repeat split; try done). }
  assert (nodeRows = map (Cmd.nodeRow QuantityString aggregates nodes showCapacity) nodeMetrics)
    as Hn by apply combineNodeMetricsAndResources_eq.
  split.
  { rewrite Hc, length_app, !length_map, length_map_to_list, size_union_alt, size_dom.
    f_equal. apply filter_map_to_list_length.
    intros i. rewrite elem_of_difference, elem_of_dom, not_elem_of_dom. simpl.
    unfold is_Some. naive_solver. }
  split; [apply metricsMapOf_dom|].
  split; [apply resourcesMapOf_dom|].
  split.
  { intros k m Hk. rewrite Hc. apply elem_of_app. left.
    apply list_elem_of_fmap. exists (k, m). split; [done|].
    by apply elem_of_map_to_list. }
  split; [done|].
  split.
  { intros k r Hr Hm. rewrite Hc. apply elem_of_app. right.
    apply list_elem_of_fmap. exists (k, r). split; [done|].
    apply list_elem_of_filter. split; [done|]. by apply elem_of_map_to_list. }
  split; [done|].
  split; [done|].
  intros row Hin. rewrite Hn in Hin. apply list_elem_of_fmap in Hin as (m & -> & Hm).
  exists m. split; [done|]. apply Hrow.
Qed.

(** C5, as stated, fails for the node combiner: a node that has an
    aggregate but no usage sample gets no row. *)
Lemma node_combiner_no_row_without_usage :
  ({[ "node1" := Examples.node1Aggregate ]} : gmap string Pkg.NodeAggregatedResources)
    !! "node1" = Some Examples.node1Aggregate
  /\ ~ exists row,
        row ∈ Cmd.combineNodeMetricsAndResources (fun _ => "") []
                {[ "node1" := Examples.node1Aggregate ]} ∅ false
        /\ Cmd.CombinedNodeData.Name row = "node1".
Proof.
  split; [done|]. intros (row & Hin & _). by apply elem_of_nil in Hin.
Qed.

Lemma formatMemory_bytes_parse_zero_witness :
  Strings.HasSuffix (Pkg.formatMemory 512) "B" = true
  /\ Cmd.parseMemoryValue (Pkg.formatMemory 512) = 0
  /\ Cmd.parseMemoryValue (Pkg.formatMemory 512) <> 512.
Proof. apply (formatMemory_bytes_parse_zero 512). lia. Defined.

(** ** Printing floats: percentages, memory and CPU *)
Section PrintFacts.
Import Float64 Fmt Strings Resource Corev1 Pkg.

Lemma den_pos x : 0 < den x.
Proof.
  destruct x as [| | |s m e]; simpl; try lia.
  destruct (0 <=? e) eqn:E; [lia|]. apply pow2_pos. apply Z.leb_gt in E. lia.
Qed.

Lemma num_nonneg x : 0 <= num x.
Proof.
  destruct x as [| | |s m e]; simpl; try lia.
  destruct (0 <=? e) eqn:E; [|lia]. apply Z.leb_le in E.
  pose proof (pow2_pos e E). lia.
Qed.

(** [%.0f] prints the integer nearest to the float, ties to even, and
    nothing else. *)
Lemma Sprintf_f_0 x :
  is_finite x = true ->
  Sprintf_f 0 x = sign_string (sign x) +:+ Sprintf_d (round_half_even (num x) (den x)).
Proof.
  intros Hx. unfold Sprintf_f, fixed.
  change (10 ^ Z.of_nat 0) with 1. rewrite Z.mul_1_r, Z.div_1_r, append_nil_r.
  by destruct x.
Qed.

(** [%.2f] prints the hundredths nearest to the float, ties to even, with
    two digits after the point. *)
Lemma Sprintf_f_2 x :
  is_finite x = true ->
  let n := round_half_even (num x * 100) (den x) in
  Sprintf_f 2 x
  = sign_string (sign x) +:+ Sprintf_d (n / 100) +:+ "."
    +:+ String (digit_char (n mod 100 / 10)) (String (digit_char (n mod 10)) "").
Proof.
  intros Hx n. unfold Sprintf_f, fixed, frac_digits.
  change (10 ^ Z.of_nat 2) with 100. change (10 ^ Z.of_nat 1) with 10.
  change (10 ^ Z.of_nat 0) with 1. fold n.
  rewrite Z.div_1_r.
  rewrite (Z.mod_mod_divide n 100 10) by (by exists 10).
  destruct x; try done.
Qed.

Lemma of_Z_0 : of_Z 0 = S754_zero false.
Proof. done. Qed.

Lemma of_Z_100 : of_Z 100 = S754_finite false (Z.to_pos (100 * 2 ^ 46)) (-46).
Proof. done. Qed.


Lemma scaled_away_pos n scale : 0 < scale -> 0 < n -> 0 < scaled_away n scale.
Proof.
  intros Hs Hn. unfold scaled_away. rewrite (proj2 (Z.leb_le 0 n)) by lia.
  apply Z.div_str_pos. lia.
Qed.

End PrintFacts.




Section MemoryFacts.
Import Float64 Fmt Strings Resource Corev1 Pkg.


(** The value of [float64(v)] is the integer [held v]. *)
Lemma of_Z_held v :
  0 < v < 2 ^ 63 ->
  exists m e,
    of_Z v = S754_finite false m e /\ Zdigits2 (Z.pos m) = 53 /\ -52 <= e <= 12
    /\ num (of_Z v) = held v * den (of_Z v)
    /\ (v < 2 ^ 53 -> held v = v).
Proof.
  intros Hv. unfold held.
  destruct (of_Z_normal v) as (m & e & -> & Hm & He & Hex & Hsmall); [lia..|].
  rewrite (proj2 (Z.ltb_ge v 0)) by lia. rewrite Z.abs_eq in Hex, Hsmall by lia.
  exists m, e. repeat split; try done; try lia.
  - unfold num, den. destruct (Z.leb_spec 0 e).
    + rewrite Z.div_1_r. lia.
    + rewrite Hex by lia. rewrite Z.div_mul; [done|]. pose proof (pow2_pos (- e)). lia.
  - intros Hlt. specialize (Hsmall Hlt). specialize (Hex Hsmall).
    unfold num, den. destruct (Z.leb_spec 0 e).
    + assert (e = 0) as -> by lia. rewrite Z.div_1_r. simpl in Hex. lia.
    + rewrite Hex. apply Z.div_mul. pose proof (pow2_pos (- e)). lia.
Qed.

Lemma of_Z_pow2 k :
  0 <= k <= 62 -> of_Z (2 ^ k) = S754_finite false (Z.to_pos (2 ^ 52)) (k - 52).
Proof.
  intros Hk. pose proof (pow2_pos k ltac:(lia)).
  rewrite of_Z_nearest by lia. cbn zeta.
  rewrite (proj2 (Z.ltb_ge (2 ^ k) 0)) by lia. rewrite Z.abs_eq by lia.
  assert (Zdigits2 (2 ^ k) = k + 1) as ->.
  { apply Zdigits2_bounds; [lia|]. replace (k + 1 - 1) with k by lia.
    rewrite Z.pow_add_r by lia. lia. }
  destruct (Z.ltb_spec (k + 1) 53).
  - rewrite (nearest_representable _ _ 1 _ (2 ^ 52) 0); try done; try lia;
      [f_equal; lia|].
    rewrite <- Z.pow_add_r by lia. replace (k + (53 - (k + 1))) with 52 by lia. lia.
  - rewrite (nearest_representable _ _ 1 _ (2 ^ 52) (k - 52)); try done; try lia.
    rewrite Z.mul_1_r, <- Z.pow_add_r by lia. f_equal. lia.
Qed.

(** A byte count divided by a binary unit and printed with [%.2f]: the
    hundredths of the unit nearest to the count the float holds. *)
Lemma Sprintf_f_2_div_pow2 v k :
  0 < v < 2 ^ 63 -> 0 <= k <= 62 ->
  let n := round_half_even (100 * held v) (2 ^ k) in
  Sprintf_f 2 (div (of_Z v) (of_Z (2 ^ k)))
  = Sprintf_d (n / 100) +:+ "."
    +:+ String (digit_char (n mod 100 / 10)) (String (digit_char (n mod 10)) "").
Proof.
  intros Hv Hk n.
  destruct (of_Z_held v Hv) as (m & e & Hof & Hm & He & Hval & _).
  rewrite of_Z_pow2 by done. rewrite Hof in Hval |- *.
  rewrite div_pow2 by (done || lia).
  rewrite Sprintf_f_2 by done. cbn [sign sign_string].
  assert (round_half_even (num (S754_finite false m (e - k)) * 100)
                          (den (S754_finite false m (e - k))) = n) as ->; [|done].
  pose proof (pow2_pos k ltac:(lia)).
  apply round_half_even_ext; [apply den_pos|done|].
  unfold num, den in *.
  destruct (Z.leb_spec 0 e); destruct (Z.leb_spec 0 (e - k)); try lia.
  - rewrite Z.mul_1_r in Hval. rewrite <- Hval.
    replace e with ((e - k) + k) at 2 by lia. rewrite Z.pow_add_r by lia. lia.
  - rewrite Z.mul_1_r in Hval. rewrite <- Hval.
    assert (2 ^ k = 2 ^ e * 2 ^ (- (e - k))) as ->
      by (rewrite <- Z.pow_add_r by lia; f_equal; lia).
    lia.
  - rewrite Hval.
    assert (2 ^ (- (e - k)) = 2 ^ (- e) * 2 ^ k) as ->
      by (rewrite <- Z.pow_add_r by lia; f_equal; lia).
    lia.
Qed.
End MemoryFacts.

(** C7: For a non-negative int64 byte count, [formatMemory] returns "0"
    for 0, the count with a "B" suffix and no decimals below 1024, and
    otherwise the count in the largest of Gi, Mi, Ki that it reaches,
    rounded to hundredths and rendered with exactly two decimal places;
    formatMemory(2^30) is "1.00Gi" and formatMemory(512) is "512B".  The
    count rendered is the one float64 holds, which is the count itself up
    to 2^53. *)
Theorem formatMemory_largest_unit (v : Z) :
  0 <= v < 2 ^ 63 ->
  (v = 0 -> Pkg.formatMemory v = "0")
  /\ (0 < v < 2 ^ 10 -> Pkg.formatMemory v = Fmt.Sprintf_d v +:+ "B")
  /\ (2 ^ 10 <= v ->
      let '(unit, suffix) :=
        if 2 ^ 30 <=? v then (2 ^ 30, "Gi")
        else if 2 ^ 20 <=? v then (2 ^ 20, "Mi")
        else (2 ^ 10, "Ki") in
      let n := Float64.round_half_even (100 * Float64.held v) unit in
      unit <= v
      /\ Float64.nearest_even (100 * Float64.held v) unit n
      /\ Pkg.formatMemory v
         = (Fmt.Sprintf_d (n / 100) +:+ "."
            +:+ String (Fmt.digit_char (n mod 100 / 10))
                       (String (Fmt.digit_char (n mod 10)) ""))
           +:+ suffix)
  /\ (v < 2 ^ 53 -> Float64.held v = v)
  /\ Pkg.formatMemory (2 ^ 30) = "1.00Gi"
  /\ Pkg.formatMemory 512 = "512B".
Proof.
  intros Hv. split; [by intros ->|].
  split; [intros H; apply formatMemory_bytes; lia|].
  split.
  - intros Hlo. unfold Pkg.formatMemory, Pkg.GB, Pkg.MB, Pkg.KB.
    rewrite (proj2 (Z.eqb_neq v 0)) by lia.
    change (1024 * 1024 * 1024) with (2 ^ 30). change (1024 * 1024) with (2 ^ 20).
    change 1024 with (2 ^ 10).
    destruct (Z.leb_spec (2 ^ 30) v); [|destruct (Z.leb_spec (2 ^ 20) v)];
      [| |rewrite (proj2 (Z.leb_le (2 ^ 10) v)) by lia];
      cbn zeta; (split; [lia|]); (split; [by apply round_half_even_spec|]);
      by rewrite Sprintf_f_2_div_pow2 by lia.
  - split; [|split; reflexivity].
    intros Hlt. destruct (Z.eq_dec v 0) as [->|]; [done|].
    destruct (of_Z_held v) as (m & e & _ & _ & _ & _ & H); [lia|]. by apply H.
Qed.

Lemma formatMemory_largest_unit_witness :
  Pkg.formatMemory (3 * 2 ^ 29)
  = (Fmt.Sprintf_d (150 / 100) +:+ "."
     +:+ String (Fmt.digit_char (150 mod 100 / 10)) (String (Fmt.digit_char (150 mod 10)) ""))
    +:+ "Gi".
Proof.
  destruct (formatMemory_largest_unit (3 * 2 ^ 29)) as (_ & _ & H & _); [lia|].
  specialize (H ltac:(lia)). exact (proj2 (proj2 H)).
Defined.

Section CPUFacts.
Import Float64 Fmt Strings Resource Corev1 Pkg.

(** The float of an integer below [2^53]: the integer shifted to 53 bits. *)
Lemma of_Z_exact v :
  0 < v < 2 ^ 53 ->
  of_Z v = S754_finite false (Z.to_pos (v * 2 ^ (53 - Zdigits2 v))) (Zdigits2 v - 53)
  /\ Zdigits2 (v * 2 ^ (53 - Zdigits2 v)) = 53
  /\ 0 < Zdigits2 v <= 53.
Proof.
  intros Hv. set (d := Zdigits2 v).
  pose proof (Zdigits2_spec v ltac:(lia)) as Hd. fold d in Hd.
  pose proof (Zdigits2_range v 1 53 ltac:(lia) ltac:(simpl; lia)) as Hr. fold d in Hr.
  pose proof (pow2_pos (53 - d) ltac:(lia)).
  assert (Zdigits2 (v * 2 ^ (53 - d)) = 53) as HdM.
  { apply Zdigits2_bounds; [lia|]. change (53 - 1) with 52.
    assert (2 ^ 52 = 2 ^ (d - 1) * 2 ^ (53 - d)) as ->
      by (rewrite <- Z.pow_add_r by lia; f_equal; lia).
    assert (2 ^ 53 = 2 ^ d * 2 ^ (53 - d)) as ->
      by (rewrite <- Z.pow_add_r by lia; f_equal; lia).
    nia. }
  split; [|split; [done|lia]].
  rewrite of_Z_nearest by lia. cbn zeta.
  rewrite (proj2 (Z.ltb_ge v 0)) by lia. rewrite Z.abs_eq by lia. fold d.
  destruct (Z.ltb_spec d 53).
  - rewrite (nearest_representable _ _ 1 _ (v * 2 ^ (53 - d)) 0); try done; try lia; try nia.
    f_equal. lia.
  - assert (d = 53) as Hd53 by lia. rewrite Hd53 in *.
    change (2 ^ (53 - 53)) with 1 in *. rewrite Z.mul_1_r in *.
    rewrite (nearest_representable _ _ 1 _ v 0); try done; lia.
Qed.

(** A quotient that is an integer is computed exactly. *)
Lemma div_exact a b k :
  0 < b -> 0 < k -> a = b * k -> a < 2 ^ 53 ->
  div (of_Z a) (of_Z b) = of_Z k.
Proof.
  intros Hb Hk Ha Hlt.
  assert (0 < a) by nia. assert (b < 2 ^ 53) by nia. assert (k < 2 ^ 53) by nia.
  destruct (of_Z_exact a) as (-> & Hda & Ha'); [lia|].
  destruct (of_Z_exact b) as (-> & Hdb & Hb'); [lia|].
  destruct (of_Z_exact k) as (-> & Hdk & Hk'); [lia|].
  set (da := Zdigits2 a) in *. set (db := Zdigits2 b) in *. set (dk := Zdigits2 k) in *.
  pose proof (Zdigits2_spec a ltac:(lia)) as Sa. fold da in Sa.
  pose proof (Zdigits2_spec b ltac:(lia)) as Sb. fold db in Sb.
  pose proof (Zdigits2_spec k ltac:(lia)) as Sk. fold dk in Sk.
  pose proof (pow2_pos (53 - da) ltac:(lia)). pose proof (pow2_pos (53 - db) ltac:(lia)).
  pose proof (pow2_pos (53 - dk) ltac:(lia)).
  assert (da <= db + dk) as Ht.
  { destruct (Z.le_gt_cases da (db + dk)); [done|].
    assert (2 ^ (db + dk) <= 2 ^ (da - 1)) by (apply Z.pow_le_mono_r; lia).
    rewrite Z.pow_add_r in * by lia. nia. }
  rewrite div_normal; rewrite ?Z2Pos.id by nia; try done; try lia.
  rewrite xorb_false_r.
  rewrite (nearest_representable _ _ _ _ (k * 2 ^ (53 - dk)) (db + dk - da));
    try done; try lia.
  - f_equal. lia.
  - assert (2 ^ (53 - da) * 2 ^ 53 = 2 ^ (53 - dk) * 2 ^ (53 - db) * 2 ^ (db + dk - da)) as Hpow
      by (rewrite <- !Z.pow_add_r by lia; f_equal; lia).
    rewrite <- (Z.mul_assoc a), Hpow, Ha. ring.
Qed.

Lemma eqb_finite_refl s m e : eqb (S754_finite s m e) (S754_finite s m e) = true.
Proof.
  unfold eqb, SFeqb, SFcompare.
  destruct s; rewrite Z.compare_refl, Pos.compare_cont_refl; reflexivity.
Qed.

Lemma eqb_finite_eq m e m' e' :
  eqb (S754_finite false m e) (S754_finite false m' e') = true -> m = m' /\ e = e'.
Proof.
  unfold eqb, SFeqb, SFcompare.
  destruct (Z.compare_spec e e'); try done.
  destruct (Pos.compare_cont Eq m m') eqn:E; try done.
  apply (Pos.compare_eq m m') in E. by subst.
Qed.

Lemma to_int64_of_Z k : 0 < k < 2 ^ 53 -> to_int64 (of_Z k) = k.
Proof.
  intros Hk. destruct (of_Z_value k Hk) as (Hfin & Hs & Hv).
  unfold to_int64, trunc. rewrite Hfin, Hs, Hv.
  rewrite Z.div_mul by (pose proof (den_pos (of_Z k)); lia).
  unfold min_int64, max_int64.
  rewrite (proj2 (Z.leb_le _ _)), (proj2 (Z.leb_le _ _)) by lia. done.
Qed.

Lemma of_Z_1000 : of_Z 1000 = S754_finite false (Z.to_pos (1000 * 2 ^ 43)) (-43).
Proof. done. Qed.

(** A whole number of cores prints without a decimal point. *)
Lemma formatCPU_whole v k :
  0 < k -> v = 1000 * k -> v < 2 ^ 53 -> formatCPU v = Sprintf_d k.
Proof.
  intros Hk Hv Hlt. unfold formatCPU.
  rewrite (proj2 (Z.eqb_neq v 0)), (proj2 (Z.ltb_ge v 1000)) by lia.
  rewrite (div_exact v 1000 k) by lia.
  rewrite to_int64_of_Z by lia.
  destruct (of_Z_value k ltac:(lia)) as (Hfin & Hs & Hval).
  assert (eqb (of_Z k) (of_Z k) = true) as ->.
  { destruct (of_Z_exact k ltac:(lia)) as (-> & _). apply eqb_finite_refl. }
  rewrite Sprintf_f_0, Hs, Hval by done.
  rewrite round_half_even_exact by apply den_pos. done.
Qed.

(** The quotient by 1000 of an integer below [2^53]: a normal float with
    a negative exponent, whose mantissa is the exact quotient rounded. *)
Lemma cores_rounded v :
  1000 <= v < 2 ^ 53 ->
  exists m e' j,
    div (of_Z v) (of_Z 1000) = S754_finite false m e'
    /\ e' < 0 /\ 0 < j
    /\ 2 ^ (- e') * j = 1024 * 2 ^ (53 - Zdigits2 v)
    /\ Z.abs (2048 * (v * 2 ^ (53 - Zdigits2 v)) - 2000 * (Z.pos m * j)) <= 2000
    /\ Z.pos m < 2 ^ 53.
Proof.
  intros Hv.
  destruct (of_Z_exact v) as (Hof & HdM & Hd); [lia|].
  set (d := Zdigits2 v) in *. set (R := 2 ^ (53 - d)) in *.
  assert (0 < R) by (apply pow2_pos; lia).
  rewrite Hof, of_Z_1000, div_normal; rewrite ?Z2Pos.id by lia; try done; try lia.
  rewrite xorb_false_r.
  pose proof (div_normal_quotient (Z.to_pos (v * R)) (Z.to_pos (1000 * 2 ^ 43))) as Hq.
  rewrite !Z2Pos.id in Hq by lia. specialize (Hq HdM ltac:(done)).
  pose proof (Zdigits2_range _ 53 54 ltac:(lia) Hq) as Hdq.
  destruct (nearest_normal_finite false (v * R * 2 ^ 53) (1000 * 2 ^ 43) (d - 53 - -43 - 53))
    as (m & e' & -> & Hm & Hrange & Hval); try lia.
  set (dq := Zdigits2 (v * R * 2 ^ 53 / (1000 * 2 ^ 43))) in *.
  pose proof (round_half_even_spec (v * R * 2 ^ 53) (1000 * 2 ^ 43 * 2 ^ (dq - 53))
                ltac:(pose proof (pow2_pos (dq - 53)); lia)) as [Hspec _].
  rewrite <- Hval in Hspec.
  pose proof (Zdigits2_normal m Hm) as Hmb.
  set (c := e' - (d - 53 - -43 - 53 + dq - 53)) in *.
  exists m, e', (2 ^ c * 2 ^ (dq - 53)).
  assert (0 <= c <= 1) as Hc by (unfold c; lia).
  assert (0 <= dq - 53 <= 1) as HQ by lia.
  pose proof (pow2_pos c ltac:(lia)). pose proof (pow2_pos (dq - 53) ltac:(lia)).
  split; [done|]. split; [unfold c in Hc; lia|]. split; [lia|].
  split.
  { rewrite <- !Z.pow_add_r by (unfold c in *; lia).
    change 1024 with (2 ^ 10). unfold R. rewrite <- Z.pow_add_r by lia.
    f_equal. unfold c. lia. }
  split; [|lia].
  assert (2 ^ c <= 2 /\ 2 ^ (dq - 53) <= 2) as [Hc2 HQ2].
  { split; [destruct (Z.eq_dec c 0) as [->|]; [done|replace c with 1 by lia; done]|].
    destruct (Z.eq_dec (dq - 53) 0) as [->|]; [done|replace (dq - 53) with 1 by lia; done]. }
  change (2 ^ 53) with (2 ^ 43 * 1024) in Hspec. change (2 ^ 43) with 8796093022208 in Hspec.
  nia.
Qed.

(** Cores that are not whole print with two decimals: the hundredths
    nearest to the millicores. *)
Lemma formatCPU_fraction v :
  1000 <= v < 2 ^ 53 -> v mod 1000 <> 0 ->
  let cores := div (of_Z v) (of_Z 1000) in
  let n := round_half_even (num cores * 100) (den cores) in
  Z.abs (10 * n - v) <= 5
  /\ formatCPU v
     = Sprintf_d (n / 100) +:+ "."
       +:+ String (digit_char (n mod 100 / 10)) (String (digit_char (n mod 10)) "").
Proof.
  intros Hv Hmod cores n.
  destruct (cores_rounded v Hv) as (m & e' & j & Hcores & He' & Hj & HP & Hclose & Hm).
  destruct (of_Z_exact v) as (_ & _ & Hd); [lia|].
  set (R := 2 ^ (53 - Zdigits2 v)) in *.
  assert (0 < R) by (apply pow2_pos; lia).
  set (P := 2 ^ (- e')) in *.
  assert (0 < P) by (apply pow2_pos; lia).
  assert (n = round_half_even (Z.pos m * 100) P) as Hn.
  { unfold n, cores. rewrite Hcores. unfold num, den.
    by rewrite (proj2 (Z.leb_gt 0 e')) by lia. }
  clearbody n. subst n. clear cores.
  set (n := round_half_even (Z.pos m * 100) P).
  split.
  - pose proof (round_half_even_spec (Z.pos m * 100) P ltac:(lia)) as [Hn _].
    fold n in Hn.
    assert (Z.abs (2000 * (Z.pos m * j) - 20480 * (n * R)) <= 10240 * R) as Hn' by nia.
    assert (Z.abs (2048 * (v * R) - 20480 * (n * R)) <= 10240 * R + 2000) as Hsum by lia.
    nia.
  - unfold formatCPU.
    rewrite (proj2 (Z.eqb_neq v 0)), (proj2 (Z.ltb_ge v 1000)) by lia.
    rewrite Hcores.
    assert (0 <= Z.pos m / P <= Z.pos m) as Hk.
    { split; [apply Z.div_pos; lia|]. apply Z.div_le_upper_bound; nia. }
    assert (to_int64 (S754_finite false m e') = Z.pos m / P) as ->.
    { unfold to_int64, trunc, num, den. cbn [is_finite sign].
      rewrite (proj2 (Z.leb_gt 0 e')) by lia. fold P.
      unfold min_int64, max_int64.
      by rewrite (proj2 (Z.leb_le _ _)), (proj2 (Z.leb_le _ _)) by lia. }
    assert (eqb (S754_finite false m e') (of_Z (Z.pos m / P)) = false) as ->.
    { set (k := Z.pos m / P) in *.
      destruct (Z.eq_dec k 0) as [->|Hk0]; [done|].
      destruct (of_Z_exact k) as (Hofk & HdMk & Hdk); [lia|].
      destruct (eqb (S754_finite false m e') (of_Z k)) eqn:Heq; [exfalso|done].
      rewrite Hofk in Heq.
      apply eqb_finite_eq in Heq as [Hmk Hek].
      assert (Z.pos m = k * P) as HmkP.
      { rewrite Hmk, Z2Pos.id by (pose proof (pow2_pos (53 - Zdigits2 k)); nia).
        unfold P. f_equal. f_equal. lia. }
      assert (Z.pos m * j = 1024 * (k * R)) as Hmj by nia.
      assert (v * R = 1000 * (k * R)) as Hw by lia.
      assert (v = 1000 * k) as Hvk by nia.
      apply Hmod. rewrite Hvk, Z.mul_comm. apply Z.mod_mul. lia. }
    rewrite Sprintf_f_2 by done. unfold num, den.
    rewrite (proj2 (Z.leb_gt 0 e')) by lia. done.
Qed.
End CPUFacts.

(** C6, as the code has it.  For a milli-core value up to the integers
    that float64 holds exactly ([0 <= v < 2^53]), [formatCPU] returns "0"
    for 0, the value with an "m" suffix below 1000, the whole number of
    cores with no decimal point for a positive multiple of 1000 (1000
    gives "1", 5000 gives "5"), and otherwise the cores rounded to
    hundredths and rendered with exactly two decimal places (1500 gives
    "1.50"). *)
Theorem formatCPU_cases (v : Z) :
  0 <= v < 2 ^ 53 ->
  (v = 0 -> Pkg.formatCPU v = "0")
  /\ (0 < v < 1000 -> Pkg.formatCPU v = Fmt.Sprintf_d v +:+ "m")
  /\ (1000 <= v -> v mod 1000 = 0 -> Pkg.formatCPU v = Fmt.Sprintf_d (v / 1000))
  /\ (1000 <= v -> v mod 1000 <> 0 ->
      exists n,
        Z.abs (10 * n - v) <= 5
        /\ Pkg.formatCPU v
           = Fmt.Sprintf_d (n / 100) +:+ "."
             +:+ String (Fmt.digit_char (n mod 100 / 10))
                        (String (Fmt.digit_char (n mod 10)) ""))
  /\ Pkg.formatCPU 1000 = "1" /\ Pkg.formatCPU 5000 = "5" /\ Pkg.formatCPU 1500 = "1.50".
Proof.
  intros Hv. split; [by intros ->|].
  split; [apply formatCPU_milli|].
  split.
  - intros Hlo Hmod. pose proof (Z.div_mod v 1000 ltac:(lia)) as Hdm.
    apply formatCPU_whole; [apply Z.div_str_pos| |]; lia.
  - split; [|repeat split; reflexivity].
    intros Hlo Hmod. destruct (formatCPU_fraction v ltac:(lia) Hmod) as [Hn Hf].
    eexists. split; [exact Hn|exact Hf].
Qed.

Lemma formatCPU_cases_witness :
  Pkg.formatCPU 3000 = Fmt.Sprintf_d (3000 / 1000).
Proof.
  destruct (formatCPU_cases 3000) as (_ & _ & H & _); [lia|].
  apply H; [lia|reflexivity].
Defined.

(** C6, as stated, fails for values that float64 cannot tell apart: the
    millicores 1000 * 2^44 + 1 are not a multiple of 1000, yet print as a
    whole number of cores with no decimals. *)
Lemma formatCPU_large_not_two_decimals :
  0 <= 1000 * 2 ^ 44 + 1 < 2 ^ 63
  /\ (1000 * 2 ^ 44 + 1) mod 1000 = 1
  /\ Pkg.formatCPU (1000 * 2 ^ 44 + 1) = "17592186044416".
Proof. repeat split; done. Qed.

(** * Further properties of the code *)

(** ** The aggregation, node by node *)
Section NodeFacts.
Import Resource Corev1 Pkg PodRule NodeRule.

Lemma aggregatePod_lookup_ne m pod n :
  NodeName pod <> n -> aggregatePod m pod !! n = m !! n.
Proof.
  intros Hne. unfold aggregatePod.
  destruct (String.eqb (NodeName pod) ""); [done|]. by rewrite lookup_insert_ne.
Qed.

Lemma aggregatePod_lookup_eq m pod :
  NodeName pod <> "" ->
  aggregatePod m pod !! NodeName pod
  = Some {| AggNodeName := from_option AggNodeName (NodeName pod) (m !! NodeName pod);
            totals := addPod (from_option totals noTotals (m !! NodeName pod)) pod |}.
Proof.
  intros Hs. unfold aggregatePod. rewrite (proj2 (String.eqb_neq _ _) Hs).
  rewrite lookup_insert_eq. by destruct (m !! NodeName pod).
Qed.

(** The entry of a node after the loop: that of the accumulator when no
    pod names the node, and otherwise the totals of the accumulator
    carried through the pods of the node, in order. *)
Lemma fold_aggregatePod_lookup pods : forall m n,
  n <> "" ->
  fold_left aggregatePod pods m !! n
  = match podsOn n pods with
    | [] => m !! n
    | ps => Some {| AggNodeName := from_option AggNodeName n (m !! n);
                    totals := fold_left addPod ps (from_option totals noTotals (m !! n)) |}
    end.
Proof.
  induction pods as [|pod pods IH]; intros m n Hn; [done|].
  cbn [fold_left]. rewrite IH by done. unfold podsOn.
  destruct (decide (NodeName pod = n)) as [<-|Hne].
  - rewrite filter_cons_True by done.
    rewrite aggregatePod_lookup_eq by done. cbn [from_option].
    by destruct (filter _ pods).
  - rewrite filter_cons_False by done.
    by rewrite aggregatePod_lookup_ne by done.
Qed.

Lemma sumOf_cons x l : sumOf (x :: l) = x + sumOf l.
Proof. done. Qed.

Lemma fold_addPod_limits ps : forall t,
  nano (CPULimit (fold_left addPod ps t))
  = nano (CPULimit t) + sumOf (map (summedLimit ResourceCPU) ps)
  /\ nano (MemoryLimit (fold_left addPod ps t))
     = nano (MemoryLimit t) + sumOf (map (summedLimit ResourceMemory) ps).
Proof.
  induction ps as [|pod ps IH]; intros t; [cbn; lia|].
  cbn [fold_left]. destruct (IH (addPod t pod)) as [-> ->].
  destruct (addPod_nano t pod) as (_ & _ & -> & ->).
  cbn [map]. rewrite !sumOf_cons. unfold summedLimit. lia.
Qed.

Lemma fold_addPod_requests ps : forall t,
  Forall noInitRequests ps ->
  nano (CPURequest (fold_left addPod ps t))
  = nano (CPURequest t) + sumOf (map (summedRequest ResourceCPU) ps)
  /\ nano (MemoryRequest (fold_left addPod ps t))
     = nano (MemoryRequest t) + sumOf (map (summedRequest ResourceMemory) ps).
Proof.
  induction ps as [|pod ps IH]; intros t Hall; [cbn; lia|].
  apply Forall_cons in Hall as [[Hc Hm] Hall].
  cbn [fold_left]. destruct (IH (addPod t pod) Hall) as [-> ->].
  destruct (addPod_nano t pod) as (-> & -> & _ & _).
  rewrite Hc, Hm. cbn [map maxOf foldr maxWith]. rewrite !sumOf_cons. unfold summedRequest. lia.
Qed.

Lemma sumOf_map_Permutation {A} (f : A -> Z) (l l' : list A) :
  l ≡ₚ l' -> sumOf (map f l) = sumOf (map f l').
Proof.
  unfold sumOf. induction 1; simpl; lia.
Qed.

Lemma podsOn_Permutation n pods pods' : pods ≡ₚ pods' -> podsOn n pods ≡ₚ podsOn n pods'.
Proof. intros H. unfold podsOn. by rewrite H. Qed.

Lemma entryOf_eq n pods :
  entryOf n pods
  = match podsOn n pods with
    | [] => None
    | ps => if decide (n = "") then None
            else Some {| AggNodeName := n; totals := fold_left addPod ps noTotals |}
    end.
Proof.
  unfold entryOf, AggregatePodResourcesByNode.
  destruct (decide (n = "")) as [->|Hn].
  - assert (fold_left aggregatePod pods ∅ !! "" = None) as ->.
    { apply eq_None_not_Some. rewrite fold_aggregatePod_entries, lookup_empty.
      intros [[? ?]|[? _]]; done. }
    by destruct (podsOn "" pods).
  - rewrite fold_aggregatePod_lookup by done. rewrite lookup_empty. done.
Qed.
End NodeFacts.

(** The entry of a node in the result of [AggregatePodResourcesByNode]
    is made from the pods of that node alone: it exists when the node has
    a name and some pod is assigned to it, carries that name, and its
    totals are those the two container loops give when run over the
    node's pods in the order listed, starting from zero.  The pods of
    other nodes never change it. *)
Theorem aggregate_entry_of_own_pods (pods : list Corev1.Pod) (n : string) :
  NodeRule.entryOf n pods
  = match NodeRule.podsOn n pods with
    | [] => None
    | ps => if decide (n = "") then None
            else Some {| Pkg.AggNodeName := n;
                         Pkg.totals := fold_left Pkg.addPod ps Pkg.noTotals |}
    end
  /\ NodeRule.entryOf n pods = NodeRule.entryOf n (NodeRule.podsOn n pods)
  /\ (forall e, NodeRule.entryOf n pods = Some e -> Pkg.AggNodeName e = n).
Proof.
  split; [apply entryOf_eq|]. split.
  - rewrite !entryOf_eq. unfold NodeRule.podsOn. by rewrite list_filter_filter_l by done.
  - rewrite entryOf_eq. intros e.
    destruct (NodeRule.podsOn n pods); [done|]. destruct (decide (n = "")); [done|].
    by intros [= <-].
Qed.

(** The limit totals of a node are the sums, over the pods of the node,
    of the limits of their regular containers, whatever the init
    containers declare; listing the pods in another order gives the same
    limit totals. *)
Theorem aggregate_limits_are_sums (pods pods' : list Corev1.Pod) (n : string) :
  (forall e, NodeRule.entryOf n pods = Some e ->
     NodeRule.limitsOf e
     = (PodRule.sumOf (map (PodRule.summedLimit Corev1.ResourceCPU) (NodeRule.podsOn n pods)),
        PodRule.sumOf (map (PodRule.summedLimit Corev1.ResourceMemory) (NodeRule.podsOn n pods))))
  /\ (pods ≡ₚ pods' ->
      NodeRule.limitsOf <$> NodeRule.entryOf n pods
      = NodeRule.limitsOf <$> NodeRule.entryOf n pods').
Proof.
  assert (forall l, NodeRule.limitsOf <$> NodeRule.entryOf n l
    = match NodeRule.podsOn n l with
      | [] => None
      | ps => if decide (n = "") then None
              else Some (PodRule.sumOf (map (PodRule.summedLimit Corev1.ResourceCPU) ps),
                         PodRule.sumOf (map (PodRule.summedLimit Corev1.ResourceMemory) ps))
      end) as Hl.
  { intros l. rewrite entryOf_eq. destruct (NodeRule.podsOn n l) as [|p ps]; [done|].
    destruct (decide (n = "")); [done|]. cbn [fmap option_fmap option_map].
    unfold NodeRule.limitsOf. cbn [Pkg.totals].
    by destruct (fold_addPod_limits (p :: ps) Pkg.noTotals) as [-> ->]. }
  split.
  - intros e He. specialize (Hl pods). rewrite He in Hl.
    destruct (NodeRule.podsOn n pods); [done|]. destruct (decide (n = "")); [done|].
    cbn [fmap option_fmap option_map] in Hl. congruence.
  - intros Hp. rewrite !Hl.
    pose proof (podsOn_Permutation n _ _ Hp) as Hp'.
    destruct (NodeRule.podsOn n pods) as [|p ps], (NodeRule.podsOn n pods') as [|p' ps'];
      [done|by apply Permutation_nil_cons in Hp'
       |symmetry in Hp'; by apply Permutation_nil_cons in Hp'|].
    destruct (decide (n = "")); [done|]. cbn beta iota zeta.
    by rewrite !(sumOf_map_Permutation _ _ _ Hp').
Qed.

(** When no init container of the pods of a node requests CPU or memory,
    the request totals of the node are the sums of the requests of the
    regular containers of its pods, and do not depend on the order in
    which the pods are listed. *)
Theorem aggregate_requests_without_init (pods pods' : list Corev1.Pod) (n : string) :
  Forall NodeRule.noInitRequests (NodeRule.podsOn n pods) ->
  (forall e, NodeRule.entryOf n pods = Some e ->
     NodeRule.requestsOf e
     = (PodRule.sumOf (map (NodeRule.summedRequest Corev1.ResourceCPU) (NodeRule.podsOn n pods)),
        PodRule.sumOf (map (NodeRule.summedRequest Corev1.ResourceMemory) (NodeRule.podsOn n pods))))
  /\ (pods ≡ₚ pods' ->
      NodeRule.requestsOf <$> NodeRule.entryOf n pods
      = NodeRule.requestsOf <$> NodeRule.entryOf n pods').
Proof.
  intros Hall.
  assert (forall l, Forall NodeRule.noInitRequests (NodeRule.podsOn n l) ->
    NodeRule.requestsOf <$> NodeRule.entryOf n l
    = match NodeRule.podsOn n l with
      | [] => None
      | ps => if decide (n = "") then None
              else Some (PodRule.sumOf (map (NodeRule.summedRequest Corev1.ResourceCPU) ps),
                         PodRule.sumOf (map (NodeRule.summedRequest Corev1.ResourceMemory) ps))
      end) as Hl.
  { intros l Hf. rewrite entryOf_eq. destruct (NodeRule.podsOn n l) as [|p ps]; [done|].
    destruct (decide (n = "")); [done|]. cbn [fmap option_fmap option_map].
    unfold NodeRule.requestsOf. cbn [Pkg.totals].
    by destruct (fold_addPod_requests (p :: ps) Pkg.noTotals Hf) as [-> ->]. }
  split.
  - intros e He. specialize (Hl pods Hall). rewrite He in Hl.
    destruct (NodeRule.podsOn n pods); [done|]. destruct (decide (n = "")); [done|].
    cbn [fmap option_fmap option_map] in Hl. congruence.
  - intros Hp. pose proof (podsOn_Permutation n _ _ Hp) as Hp'.
    rewrite !Hl; [|by rewrite <- Hp'|done].
    destruct (NodeRule.podsOn n pods) as [|p ps], (NodeRule.podsOn n pods') as [|p' ps'];
      [done|by apply Permutation_nil_cons in Hp'
       |symmetry in Hp'; by apply Permutation_nil_cons in Hp'|].
    destruct (decide (n = "")); [done|]. cbn beta iota zeta.
    by rewrite !(sumOf_map_Permutation _ _ _ Hp').
Qed.

Lemma aggregate_requests_without_init_witness :
  NodeRule.requestsOf <$> NodeRule.entryOf "node1" [Examples.podPlain; Examples.podPlain]
  = Some (400 * 10 ^ 6, 0).
Proof.
  destruct (aggregate_requests_without_init
              [Examples.podPlain; Examples.podPlain] [Examples.podPlain; Examples.podPlain]
              "node1") as [H _].
  - repeat constructor.
  - destruct (NodeRule.entryOf "node1" [Examples.podPlain; Examples.podPlain]) as [e|] eqn:E;
      [|discriminate E].
    cbn [fmap option_fmap option_map]. f_equal. exact (H e eq_refl).
Defined.

(** ** Maps filled from a list: the last item of a key stays *)
Section KeyedFacts.
Import Resource Corev1 Pkg Cmd.

Lemma fold_insert_lookup {A} (key : A -> string) (l : list A) : forall (m : gmap string A) k,
  fold_left (fun acc x => <[key x := x]> acc) l m !! k
  = match last (filter (fun x => key x = k) l) with
    | Some x => Some x
    | None => m !! k
    end.
Proof.
  induction l as [|x l IH] using rev_ind; intros m k; [done|].
  rewrite fold_left_app. cbn [fold_left]. rewrite filter_app.
  destruct (decide (key x = k)) as [<-|Hne].
  - rewrite filter_cons_True by done. rewrite filter_nil, last_snoc.
    by rewrite lookup_insert_eq.
  - rewrite filter_cons_False by done. rewrite filter_nil, app_nil_r.
    by rewrite lookup_insert_ne, IH by done.
Qed.

Lemma fold_insert_lookup_empty {A} (key : A -> string) (l : list A) k :
  fold_left (fun acc x => <[key x := x]> acc) l (∅ : gmap string A) !! k
  = last (filter (fun x => key x = k) l).
Proof. rewrite fold_insert_lookup, lookup_empty. by destruct (last _). Qed.

Lemma last_filter_Some {A} (P : A -> Prop) `{!forall x, Decision (P x)} (l : list A) x :
  last (filter P l) = Some x -> P x /\ x ∈ l.
Proof.
  intros Hlast. apply last_Some in Hlast as [l' Hl].
  assert (x ∈ filter P l) as Hin
    by (rewrite Hl; apply elem_of_app; right; by apply list_elem_of_singleton).
  by apply list_elem_of_filter in Hin.
Qed.

Lemma last_filter_is_Some {A} (P : A -> Prop) `{!forall x, Decision (P x)} (l : list A) x :
  x ∈ l -> P x -> is_Some (last (filter P l)).
Proof.
  intros Hin HP. assert (x ∈ filter P l) as Hf by (by apply list_elem_of_filter).
  destruct (filter P l) as [|y l'] using rev_ind; [by apply elem_of_nil in Hf|].
  rewrite last_snoc. eauto.
Qed.

Lemma elem_of_filterByName {A} (name : A -> string) names items x :
  x ∈ filterByName name names items <-> x ∈ items /\ (names = [] \/ name x ∈ names).
Proof.
  unfold filterByName. destruct names as [|n names].
  - naive_solver.
  - rewrite list_elem_of_filter. naive_solver.
Qed.
End KeyedFacts.

(** [GetNodeResources] returns the nodes by name: the entry of a name
    is the last node listed that bears it, among those the name filter
    keeps.  So every entry is a listed node filed under its own name,
    every listed node that passes the filter has an entry under its name,
    and an error of the listing is returned with the prefix of the
    function. *)
Theorem GetNodeResources_by_name (items : list Corev1.Node) (nodeNames : list string)
    (showCapacity : bool) (err : string) :
  exists nodesMap,
    Pkg.GetNodeResources (inr items) nodeNames showCapacity = inr nodesMap
    /\ (forall n,
          nodesMap !! n
          = last (filter (fun node => Corev1.NodeObjName node = n)
                         (Pkg.filterByName Corev1.NodeObjName nodeNames items)))
    /\ (forall n node, nodesMap !! n = Some node ->
          Corev1.NodeObjName node = n /\ node ∈ items /\ (nodeNames = [] \/ n ∈ nodeNames))
    /\ (forall node, node ∈ items -> nodeNames = [] \/ Corev1.NodeObjName node ∈ nodeNames ->
          is_Some (nodesMap !! Corev1.NodeObjName node))
    /\ Pkg.GetNodeResources (inl err) nodeNames showCapacity
       = inl ("failed to fetch nodes: " +:+ err).
Proof.
  eexists. split; [reflexivity|].
  assert (forall n,
    fold_left (fun nodesMap node => <[Corev1.NodeObjName node := node]> nodesMap)
              (Pkg.filterByName Corev1.NodeObjName nodeNames items)
              (∅ : gmap string Corev1.Node) !! n
    = last (filter (fun node => Corev1.NodeObjName node = n)
                   (Pkg.filterByName Corev1.NodeObjName nodeNames items))) as Hl.
  { intros n. apply (fold_insert_lookup_empty Corev1.NodeObjName). }
  split; [exact Hl|]. split; [|split; [|done]].
  - intros n node. rewrite Hl. intros [Hn Hin]%last_filter_Some.
    apply elem_of_filterByName in Hin as [Hin Hnames].
    split; [done|]. split; [done|]. by rewrite <- Hn.
  - intros node Hin Hnames. rewrite Hl.
    apply (last_filter_is_Some _ _ node); [|done].
    by apply elem_of_filterByName.
Qed.

(** When several usage samples, or several resource records, bear the
    same namespace and name, the pod combiner uses the last one listed:
    the row of a key is made from the last sample of that key and the last
    record of that key. *)
Theorem combiner_uses_last_of_key (metrics : list Pkg.PodMetrics.t)
    (resources : list Pkg.PodResources.t) (k : string) :
  let metricsKey m := Cmd.podKey (Pkg.PodMetrics.Namespace m) (Pkg.PodMetrics.Name m) in
  let resourcesKey r := Cmd.podKey (Pkg.PodResources.Namespace r) (Pkg.PodResources.Name r) in
  let lastMetrics := last (filter (fun m => metricsKey m = k) metrics) in
  let lastResources := last (filter (fun r => resourcesKey r = k) resources) in
  Cmd.metricsMapOf metrics !! k = lastMetrics
  /\ Cmd.resourcesMapOf resources !! k = lastResources
  /\ (forall m, lastMetrics = Some m ->
        Cmd.metricsRow m lastResources ∈ Cmd.combineMetricsAndResources metrics resources)
  /\ (forall r, lastMetrics = None -> lastResources = Some r ->
        Cmd.resourcesRow r ∈ Cmd.combineMetricsAndResources metrics resources).
Proof.
  intros metricsKey resourcesKey lastMetrics lastResources.
  assert (Cmd.metricsMapOf metrics !! k = lastMetrics) as Hm.
  { apply (fold_insert_lookup_empty metricsKey). }
  assert (Cmd.resourcesMapOf resources !! k = lastResources) as Hr.
  { apply (fold_insert_lookup_empty resourcesKey). }
  split; [done|]. split; [done|].
  rewrite combineMetricsAndResources_eq. split.
  - intros m Hlast. apply elem_of_app. left.
    apply list_elem_of_fmap. exists (k, m). split; [cbn [fst snd]; by rewrite Hr|].
    apply elem_of_map_to_list. by rewrite Hm.
  - intros r Hnone Hlast. apply elem_of_app. right.
    apply list_elem_of_fmap. exists (k, r). split; [done|].
    apply list_elem_of_filter. split; [cbn [fst snd]; by rewrite Hm|].
    apply elem_of_map_to_list. by rewrite Hr.
Qed.

(** ** The fetchers *)
Section FetchFacts.
Import Resource Corev1 Pkg.

Lemma findMetricsGroup_elem_of groups :
  findMetricsGroup groups = true <-> "metrics.k8s.io" ∈ groups.
Proof.
  induction groups as [|name groups IH]; simpl.
  - split; [done|]. by intros ?%elem_of_nil.
  - rewrite elem_of_cons. destruct (String.eqb_spec name "metrics.k8s.io") as [->|Hne].
    + naive_solver.
    + rewrite IH. naive_solver.
Qed.

Lemma wrap_small n : - 2 ^ 63 <= n < 2 ^ 63 -> Int64.wrap n = n.
Proof. intros Hn. unfold Int64.wrap. rewrite Z.mod_small; lia. Qed.

Lemma scaled_away_bounds n scale :
  0 < scale -> 0 <= n -> n <= scale * scaled_away n scale <= n + (scale - 1).
Proof.
  intros Hs Hn. unfold scaled_away. rewrite (proj2 (Z.leb_le 0 n)) by lia.
  pose proof (Z.div_mod (n + scale - 1) scale ltac:(lia)).
  pose proof (Z.mod_pos_bound (n + scale - 1) scale Hs). lia.
Qed.

Lemma fold_addUsage cs : forall a b,
  UsageRule.nonNegative cs ->
  0 <= a -> 0 <= b ->
  10 ^ 6 * a + UsageRule.cpuNanos cs + Z.of_nat (length cs) * 10 ^ 6 <= (2 ^ 63 - 1) * 10 ^ 6 ->
  10 ^ 9 * b + UsageRule.memoryNanos cs + Z.of_nat (length cs) * 10 ^ 9 <= (2 ^ 63 - 1) * 10 ^ 9 ->
  let r := fold_left addUsage cs (a, b) in
  (10 ^ 6 * a + UsageRule.cpuNanos cs <= 10 ^ 6 * r.1
     <= 10 ^ 6 * a + UsageRule.cpuNanos cs + Z.of_nat (length cs) * (10 ^ 6 - 1))
  /\ (10 ^ 9 * b + UsageRule.memoryNanos cs <= 10 ^ 9 * r.2
        <= 10 ^ 9 * b + UsageRule.memoryNanos cs + Z.of_nat (length cs) * (10 ^ 9 - 1)).
Proof.
  unfold UsageRule.cpuNanos, UsageRule.memoryNanos.
  induction cs as [|c cs IH]; intros a b Hnn Ha Hb Hc Hm.
  - cbn. lia.
  - apply Forall_cons in Hnn as [[Hc0 Hm0] Hnn].
    cbn [map length] in *. rewrite !sumOf_cons in *. rewrite Nat2Z.inj_succ in *.
    cbn [fold_left]. replace (addUsage (a, b) c)
      with (Int64.add a (MilliValue (Metricsv1.Cpu (Metricsv1.ContainerMetrics.Usage c))),
            Int64.add b (Value (Metricsv1.Memory (Metricsv1.ContainerMetrics.Usage c))))
      by done.
    set (qc := Metricsv1.Cpu (Metricsv1.ContainerMetrics.Usage c)) in *.
    set (qm := Metricsv1.Memory (Metricsv1.ContainerMetrics.Usage c)) in *.
    set (Sc := PodRule.sumOf _) in Hc |- *. set (Sm := PodRule.sumOf _) in Hm |- *.
    assert (0 <= Sc /\ 0 <= Sm) as [HSc HSm].
    { unfold Sc, Sm. clear -Hnn. induction Hnn as [|x l [? ?] _ [? ?]]; [done|].
      cbn [map]. rewrite !sumOf_cons. lia. }
    pose proof (scaled_away_bounds (nano qc) (10 ^ 6) ltac:(lia) Hc0) as Bc.
    pose proof (scaled_away_bounds (nano qm) (10 ^ 9) ltac:(lia) Hm0) as Bm.
    fold (MilliValue qc) in Bc. fold (Value qm) in Bm.
    unfold Int64.add.
    rewrite (wrap_small (a + MilliValue qc)), (wrap_small (b + Value qm)) by lia.
    destruct (IH (a + MilliValue qc) (b + Value qm)) as [Rc Rm]; [done|lia..|].
    cbn zeta in Rc, Rm. split; lia.
Qed.
End FetchFacts.

(** [CheckMetricsAPIAvailable] reports no error exactly when the
    discovery succeeds and one of the API groups is named
    "metrics.k8s.io"; without that group it reports that the Metrics API
    is not available, and an error of the discovery is returned with the
    prefix of the function. *)
Theorem CheckMetricsAPIAvailable_group (groups : list string) (err : string) :
  (Pkg.CheckMetricsAPIAvailable (inr groups) = None <-> "metrics.k8s.io" ∈ groups)
  /\ ("metrics.k8s.io" ∉ groups ->
      Pkg.CheckMetricsAPIAvailable (inr groups)
      = Some "metrics API (metrics.k8s.io) not available in the cluster")
  /\ Pkg.CheckMetricsAPIAvailable (inl err) = Some ("failed to discover API groups: " +:+ err).
Proof.
  unfold Pkg.CheckMetricsAPIAvailable.
  pose proof (findMetricsGroup_elem_of groups) as H.
  destruct (Pkg.findMetricsGroup groups); split; try split; try done; naive_solver.
Qed.

(** The CPU and the memory that [GetPodMetrics] shows for a pod never
    fall short of what its containers use, and exceed it by less than one
    millicore, or one byte, per container: each container's usage is
    rounded up to whole millicores and bytes before the sum is taken.
    (The usages are non-negative and the sums fit int64.) *)
Theorem pod_usage_rounds_up (pm : Metricsv1.PodMetrics.t) :
  let containers := Metricsv1.PodMetrics.Containers pm in
  let count := Z.of_nat (length containers) in
  UsageRule.nonNegative containers ->
  UsageRule.cpuNanos containers + count * 10 ^ 6 <= (2 ^ 63 - 1) * 10 ^ 6 ->
  UsageRule.memoryNanos containers + count * 10 ^ 9 <= (2 ^ 63 - 1) * 10 ^ 9 ->
  exists totalCPU totalMemory,
    Pkg.GetPodMetrics (inr [pm]) []
    = inr [ {| Pkg.PodMetrics.Name := Metricsv1.PodMetrics.Name pm;
               Pkg.PodMetrics.Namespace := Metricsv1.PodMetrics.Namespace pm;
               Pkg.PodMetrics.CPU := Pkg.formatCPU totalCPU;
               Pkg.PodMetrics.Memory := Pkg.formatMemory totalMemory |} ]
    /\ UsageRule.cpuNanos containers <= 10 ^ 6 * totalCPU
         <= UsageRule.cpuNanos containers + count * (10 ^ 6 - 1)
    /\ UsageRule.memoryNanos containers <= 10 ^ 9 * totalMemory
         <= UsageRule.memoryNanos containers + count * (10 ^ 9 - 1).
Proof.
  intros containers count Hnn Hc Hm.
  exists (Pkg.podUsage pm).1, (Pkg.podUsage pm).2. split.
  - cbn [Pkg.GetPodMetrics Pkg.filterByName map]. by destruct (Pkg.podUsage pm).
  - destruct (fold_addUsage containers 0 0 Hnn) as [Rc Rm]; [lia..|].
    cbn zeta in Rc, Rm. unfold Pkg.podUsage. fold containers. lia.
Qed.

Lemma pod_usage_rounds_up_witness :
  exists totalCPU totalMemory,
    Pkg.GetPodMetrics
      (inr [ {| Metricsv1.PodMetrics.Name := "pod1"; Metricsv1.PodMetrics.Namespace := "default";
                Metricsv1.PodMetrics.Containers :=
                  [ {| Metricsv1.ContainerMetrics.Name := "c";
                       Metricsv1.ContainerMetrics.Usage :=
                         {[ Corev1.ResourceCPU := {| Resource.nano := 1500000; Resource.format := "DecimalSI" |} ]} |} ] |} ]) []
    = inr [ {| Pkg.PodMetrics.Name := "pod1"; Pkg.PodMetrics.Namespace := "default";
               Pkg.PodMetrics.CPU := Pkg.formatCPU totalCPU;
               Pkg.PodMetrics.Memory := Pkg.formatMemory totalMemory |} ]
    /\ 1500000 <= 10 ^ 6 * totalCPU <= 1500000 + 1 * (10 ^ 6 - 1).
Proof.
  destruct (pod_usage_rounds_up
    {| Metricsv1.PodMetrics.Name := "pod1"; Metricsv1.PodMetrics.Namespace := "default";
       Metricsv1.PodMetrics.Containers :=
         [ {| Metricsv1.ContainerMetrics.Name := "c";
              Metricsv1.ContainerMetrics.Usage :=
                {[ Corev1.ResourceCPU := {| Resource.nano := 1500000; Resource.format := "DecimalSI" |} ]} |} ] |})
    as (totalCPU & totalMemory & H1 & H2 & _).
  - repeat constructor; vm_compute; discriminate.
  - vm_compute. discriminate.
  - vm_compute. discriminate.
  - exists totalCPU, totalMemory. split; [exact H1|exact H2].
Defined.

(** ** Units and sentinels *)
Section UnitFacts.
Import Float64 Fmt Strings Resource Corev1 Pkg Cmd.

Lemma Sprintf_d_inj a b : Sprintf_d a = Sprintf_d b -> a = b.
Proof.
  unfold Sprintf_d. intros H.
  assert (forall z, NilZero.int_of_string (NilZero.string_of_int (Z.to_int z))
                    = Some (Z.to_int z)) as Hisi.
  { intros z. apply NilZero.isi; destruct z as [|p|p]; simpl; try done;
      intros [= Hp]; by apply (Unsigned.to_uint_nonnil p). }
  apply DecimalZ.to_int_inj.
  pose proof (f_equal NilZero.int_of_string H) as H'.
  rewrite !Hisi in H'. by injection H'.
Qed.

Lemma append_inj_l s s' t : s +:+ t = s' +:+ t -> s = s'.
Proof.
  intros H. rewrite <- (TrimSuffix_append s t), <- (TrimSuffix_append s' t). by rewrite H.
Qed.

(** A suffix as long as the tail appended is that tail, or not a suffix. *)
Lemma HasSuffix_append_length s u t :
  String.length u = String.length t -> HasSuffix (s +:+ u) t = String.eqb u t.
Proof.
  intros Hlen. unfold HasSuffix. rewrite length_append.
  replace (String.length s + String.length u - String.length t)%nat
    with (String.length s) by lia.
  rewrite <- Hlen, substring_append_r.
  rewrite (proj2 (Nat.leb_le _ _)) by lia. done.
Qed.

Lemma eqb_snoc_ne s c t d :
  c <> d -> String.eqb (s +:+ String c "") (t +:+ String d "") = false.
Proof. intros Hne. apply String.eqb_neq. intros H. by apply snoc_inj in H. Qed.

Lemma eqb_snoc_nil s c : String.eqb (s +:+ String c "") "" = false.
Proof. by destruct s. Qed.

(** A string whose last byte is [c] is none of the three strings that
    stand for "no value", unless [c] is their last byte. *)
Lemma snoc_not_sentinel s c :
  c <> "-"%char -> c <> ">"%char ->
  String.eqb (s +:+ String c "") "" || String.eqb (s +:+ String c "") "-"
  || String.eqb (s +:+ String c "") "<unknown>" = false.
Proof.
  intros H1 H2. rewrite eqb_snoc_nil.
  change "-" with ("" +:+ String "-"%char "").
  change "<unknown>" with ("<unknown" +:+ String ">"%char "").
  by rewrite !eqb_snoc_ne.
Qed.

Lemma ExtractMemoryUnit_suffix s u :
  u = "Gi" \/ u = "Mi" \/ u = "Ki" -> ExtractMemoryUnit (s +:+ u) = u.
Proof.
  intros Hu.
  assert (String.eqb (s +:+ u) "" || String.eqb (s +:+ u) "-"
          || String.eqb (s +:+ u) "<unknown>" = false) as Hs.
  { destruct Hu as [->|[->| ->]];
      [replace (s +:+ "Gi") with ((s +:+ "G") +:+ String "i"%char "") by apply append_assoc
      |replace (s +:+ "Mi") with ((s +:+ "M") +:+ String "i"%char "") by apply append_assoc
      |replace (s +:+ "Ki") with ((s +:+ "K") +:+ String "i"%char "") by apply append_assoc];
      by apply snoc_not_sentinel. }
  unfold ExtractMemoryUnit. rewrite Hs.
  destruct Hu as [->|[->| ->]].
  - by rewrite (HasSuffix_append_length s "Gi" "Gi") by done.
  - rewrite (HasSuffix_append_length s "Mi" "Gi") by done.
    by rewrite (HasSuffix_append_length s "Mi" "Mi") by done.
  - rewrite (HasSuffix_append_length s "Ki" "Gi") by done.
    rewrite (HasSuffix_append_length s "Ki" "Mi") by done.
    by rewrite (HasSuffix_append_length s "Ki" "Ki") by done.
Qed.

Lemma ExtractMemoryUnit_bytes s : ExtractMemoryUnit (s +:+ "B") = "Mi".
Proof.
  unfold ExtractMemoryUnit.
  change "B" with (String "B"%char ""). rewrite snoc_not_sentinel by done.
  change "Gi" with ("G" +:+ String "i"%char "").
  change "Mi" with ("M" +:+ String "i"%char "").
  change "Ki" with ("K" +:+ String "i"%char "").
  change "G" with ("" +:+ String "G"%char "").
  change "M" with ("" +:+ String "M"%char "").
  change "K" with ("" +:+ String "K"%char "").
  by rewrite !HasSuffix_last_ne by done.
Qed.

Lemma formatMemory_unit v :
  formatMemory v
  = if v =? 0 then "0"
    else if 2 ^ 30 <=? v then Sprintf_f 2 (div (of_Z v) (of_Z GB)) +:+ "Gi"
    else if 2 ^ 20 <=? v then Sprintf_f 2 (div (of_Z v) (of_Z MB)) +:+ "Mi"
    else if 2 ^ 10 <=? v then Sprintf_f 2 (div (of_Z v) (of_Z KB)) +:+ "Ki"
    else Sprintf_d v +:+ "B".
Proof. done. Qed.

Lemma scaled_away_0 scale : 0 < scale -> scaled_away 0 scale = 0.
Proof. intros H. unfold scaled_away. simpl. apply Z.div_small. lia. Qed.

Lemma slashFree_key ns : forall ns' name name',
  KeyRule.slashFree ns = true -> KeyRule.slashFree ns' = true ->
  podKey ns name = podKey ns' name' -> ns = ns' /\ name = name'.
Proof.
  unfold podKey.
  induction ns as [|c ns IH]; intros [|c' ns'] name name' H1 H2 Hk.
  - by injection Hk.
  - simpl in H2. rewrite !append_cons in Hk. injection Hk as <- _.
    by rewrite Ascii.eqb_refl in H2.
  - simpl in H1. rewrite !append_cons in Hk. injection Hk as -> _.
    by rewrite Ascii.eqb_refl in H1.
  - simpl in H1, H2. apply andb_true_iff in H1 as [_ H1], H2 as [_ H2].
    rewrite !append_cons in Hk. injection Hk as -> Hk.
    destruct (IH ns' name name' H1 H2 Hk) as [-> ->]. done.
Qed.
End UnitFacts.

(** The CPU column of [FormatResourceQuantity] is never "0m": a
    quantity that is not zero shows its millicores rounded away from
    zero, so that a request of a single nano-core shows as "1m". *)
Theorem cpu_column_never_0m (QuantityString : Resource.Quantity -> string)
    (q : Resource.Quantity) :
  Pkg.FormatResourceQuantity QuantityString q true <> "0m"
  /\ (Resource.nano q = 0 -> Pkg.FormatResourceQuantity QuantityString q true = "-")
  /\ (Resource.nano q <> 0 ->
      Pkg.FormatResourceQuantity QuantityString q true
      = Fmt.Sprintf_d (Resource.MilliValue q) +:+ "m"
      /\ Resource.MilliValue q <> 0)
  /\ (0 < Resource.nano q <= 10 ^ 6 ->
      Pkg.FormatResourceQuantity QuantityString q true = "1m").
Proof.
  assert (Resource.nano q <> 0 ->
          Pkg.FormatResourceQuantity QuantityString q true
          = Fmt.Sprintf_d (Resource.MilliValue q) +:+ "m"
          /\ Resource.MilliValue q <> 0) as Hnz.
  { intros Hn. pose proof (scaled_away_nonzero (Resource.nano q) (10 ^ 6) ltac:(lia) Hn) as Hm.
    split; [|done]. unfold Pkg.FormatResourceQuantity, Resource.IsZero, Resource.MilliValue.
    by rewrite (proj2 (Z.eqb_neq _ 0) Hn), (proj2 (Z.eqb_neq _ 0) Hm). }
  assert (Resource.nano q = 0 -> Pkg.FormatResourceQuantity QuantityString q true = "-") as Hz.
  { intros Hn. unfold Pkg.FormatResourceQuantity, Resource.IsZero. by rewrite Hn. }
  split; [|split; [done|split; [done|]]].
  - destruct (Z.eq_dec (Resource.nano q) 0) as [Hn|Hn].
    + by rewrite Hz.
    + destruct (Hnz Hn) as [-> Hm]. intros H.
      change "0m" with (Fmt.Sprintf_d 0 +:+ "m") in H.
      by apply append_inj_l, Sprintf_d_inj in H.
  - intros Hn. destruct Hnz as [-> _]; [lia|].
    assert (Resource.MilliValue q = 1) as ->; [|done].
    unfold Resource.MilliValue, Resource.scaled_away.
    rewrite (proj2 (Z.leb_le 0 _)) by lia.
    symmetry. apply Z.div_unique with (Resource.nano q - 1); lia.
Qed.

(** The memory request and limit of a pod are shown in the unit of its
    memory usage: [ExtractMemoryUnit] finds in what [formatMemory] printed
    the unit it chose, and "Mi" for a usage below 1 Ki, printed in bytes
    or as "0"; it never returns anything but Gi, Mi or Ki.  A request
    equal to a usage of at least 1 Ki is therefore shown by the very
    string that shows the usage. *)
Theorem memory_columns_share_unit (v : Z) (memoryStr : string) (m : Pkg.PodMetrics.t)
    (r : Pkg.PodResources.t) :
  Pkg.ExtractMemoryUnit (Pkg.formatMemory v)
  = (if 2 ^ 30 <=? v then "Gi" else if 2 ^ 20 <=? v then "Mi"
     else if 2 ^ 10 <=? v then "Ki" else "Mi")
  /\ (Pkg.ExtractMemoryUnit memoryStr = "Gi" \/ Pkg.ExtractMemoryUnit memoryStr = "Mi"
      \/ Pkg.ExtractMemoryUnit memoryStr = "Ki")
  /\ (2 ^ 10 <= v -> Pkg.PodMetrics.Memory m = Pkg.formatMemory v ->
      Resource.Value (Pkg.PodResources.MemoryRequest r) = v ->
      Cmd.CombinedPodData.MemoryRequest (Cmd.metricsRow m (Some r))
      = Cmd.CombinedPodData.MemoryUsage (Cmd.metricsRow m (Some r))).
Proof.
  assert (Pkg.ExtractMemoryUnit (Pkg.formatMemory v)
          = (if 2 ^ 30 <=? v then "Gi" else if 2 ^ 20 <=? v then "Mi"
             else if 2 ^ 10 <=? v then "Ki" else "Mi")) as Hunit.
  { rewrite formatMemory_unit.
    destruct (Z.eqb_spec v 0) as [->|Hv]; [done|].
    destruct (2 ^ 30 <=? v); [apply ExtractMemoryUnit_suffix; auto|].
    destruct (2 ^ 20 <=? v); [apply ExtractMemoryUnit_suffix; auto|].
    destruct (2 ^ 10 <=? v); [apply ExtractMemoryUnit_suffix; auto|].
    apply ExtractMemoryUnit_bytes. }
  split; [done|]. split.
  - unfold Pkg.ExtractMemoryUnit.
    repeat match goal with |- context [if ?b then _ else _] => destruct b end; auto.
  - intros Hv Hm Hr. unfold Cmd.metricsRow.
    cbn [Cmd.CombinedPodData.MemoryRequest Cmd.CombinedPodData.MemoryUsage].
    rewrite Hm, Hunit. unfold Cmd.memoryIn, Pkg.FormatMemoryInUnit.
    assert (Resource.IsZero (Pkg.PodResources.MemoryRequest r) = false) as ->.
    { unfold Resource.IsZero. apply Z.eqb_neq. intros Hz.
      unfold Resource.Value in Hr. rewrite Hz, scaled_away_0 in Hr by lia. lia. }
    cbn [negb]. rewrite Hr, formatMemory_unit.
    rewrite (proj2 (Z.eqb_neq v 0)) by lia.
    destruct (Z.leb_spec (2 ^ 30) v); [done|].
    destruct (Z.leb_spec (2 ^ 20) v); [done|].
    by rewrite (proj2 (Z.leb_le (2 ^ 10) v)) by lia.
Qed.

(** The keys of the pod combiner tell pods apart: when neither namespace
    contains a slash, as is the case of every Kubernetes namespace, two
    pods have the same key only if they have the same namespace and the
    same name. *)
Theorem podKey_injective (ns name ns' name' : string) :
  KeyRule.slashFree ns = true -> KeyRule.slashFree ns' = true ->
  Cmd.podKey ns name = Cmd.podKey ns' name' -> ns = ns' /\ name = name'.
Proof. apply slashFree_key. Qed.

Lemma podKey_injective_witness :
  "default" = "default" /\ "pod1" = "pod1".
Proof. apply (podKey_injective "default" "pod1" "default" "pod1"); reflexivity. Defined.

(** ** Printing the tables *)
Section TableFacts.
Import Fmt Cmd TableRule.

Lemma count_ascii s : isASCII s = true -> Utf8.count s 0 = String.length s.
Proof.
  induction s as [|c s IH]; [done|]. simpl. intros [Hc Hs]%andb_true_iff.
  unfold Utf8.rune_size. rewrite Hc. simpl. by rewrite IH.
Qed.

Lemma length_spaces n : String.length (spaces n) = n.
Proof. induction n as [|n IH]; [done|]. simpl. by rewrite IH. Qed.

(** A cell that fits is padded to the width of its column. *)
Lemma length_Sprintf_left width s :
  fits width s -> width <= 10 ^ 6 ->
  Z.of_nat (String.length (Sprintf_left width s)) = width.
Proof.
  intros [Ha Hl] Hw. unfold Sprintf_left.
  rewrite (proj2 (Z.ltb_ge _ _)) by lia. rewrite (proj2 (Z.ltb_ge _ _)) by lia.
  cbn [orb]. unfold Utf8.RuneCountInString. rewrite count_ascii by done.
  rewrite length_append, length_spaces. lia.
Qed.

Lemma nameWidthOf_le names : forall start, start <= nameWidthOf start names.
Proof.
  unfold nameWidthOf. induction names as [|n names IH]; intros start; [done|].
  cbn [fold_left]. etrans; [|apply IH]. destruct (Z.ltb_spec start (Z.of_nat (String.length n))); lia.
Qed.

Lemma nameWidthOf_bounds names : forall start bound,
  start <= bound ->
  Forall (fun n => Z.of_nat (String.length n) <= bound) names ->
  nameWidthOf start names <= bound
  /\ Forall (fun n => Z.of_nat (String.length n) <= nameWidthOf start names) names.
Proof.
  unfold nameWidthOf. induction names as [|n names IH]; intros start bound Hs Hall; [done|].
  apply Forall_cons in Hall as [Hn Hall]. cbn [fold_left].
  set (start' := if start <? Z.of_nat (String.length n)
                 then Z.of_nat (String.length n) else start).
  assert (start' <= bound /\ Z.of_nat (String.length n) <= start') as [Hb Hge]
    by (unfold start'; destruct (Z.ltb_spec start (Z.of_nat (String.length n))); lia).
  destruct (IH start' bound Hb Hall) as [H1 H2]. split; [done|].
  apply Forall_cons. split; [|done].
  pose proof (nameWidthOf_le names start') as Hle. unfold nameWidthOf in Hle. lia.
Qed.

(** The length of a line whose cells all fit: the widths and two blanks
    between neighbours. *)
Lemma length_columns cells :
  Forall (fun cell => fits cell.1 cell.2 /\ cell.1 <= 10 ^ 6) cells ->
  cells <> [] ->
  Z.of_nat (String.length (columns cells))
  = PodRule.sumOf (map fst cells) + 2 * (Z.of_nat (length cells) - 1).
Proof.
  induction cells as [|[w s] cells IH]; intros Hall Hne; [done|].
  apply Forall_cons in Hall as [[Hf Hw] Hall]. cbn [fst snd] in *.
  pose proof (length_Sprintf_left w s Hf Hw) as Hl.
  destruct cells as [|cell cells].
  - cbn [columns map length]. rewrite sumOf_cons. cbn. lia.
  - specialize (IH Hall ltac:(done)).
    change (columns ((w, s) :: cell :: cells))
      with (Sprintf_left w s +:+ "  " +:+ columns (cell :: cells)).
    rewrite !length_append. cbn [map] in *. rewrite !sumOf_cons in *.
    cbn [length fst] in *. change (String.length "  ") with 2%nat. lia.
Qed.

Lemma fits_weaken w w' s : fits w s -> w <= w' -> fits w' s.
Proof. intros [? ?] ?. split; [done|lia]. Qed.
End TableFacts.

(** [printTable] writes a rectangular table: one line per pod, after
    a header line unless headers are turned off, and every line has the
    same length, the width of the name column, which is 40 or the length
    of the longest name, and 93 more.  (The cells are ASCII and the usage,
    request and limit cells fit their columns of 12 and 15; names may be
    of any length up to a million bytes.) *)
Theorem printTable_rectangular (data : list Cmd.CombinedPodData.t) (noHeaders : bool) :
  Forall TableRule.podRowFits data ->
  let nameWidth := Cmd.nameWidthOf 40 (map Cmd.CombinedPodData.Name data) in
  length (Cmd.printTable data noHeaders)
  = (length data + (if noHeaders then 0 else 1))%nat
  /\ 40 <= nameWidth
  /\ Forall (fun d => Z.of_nat (String.length (Cmd.CombinedPodData.Name d)) <= nameWidth) data
  /\ Forall (fun line => Z.of_nat (String.length line) = nameWidth + 93)
            (Cmd.printTable data noHeaders).
Proof.
  intros Hall nameWidth.
  destruct (nameWidthOf_bounds (map Cmd.CombinedPodData.Name data) 40 (10 ^ 6)) as [Hb Hn].
  { lia. }
  { rewrite List.Forall_map. eapply Forall_impl; [exact Hall|].
    intros d (Hd & _). apply Hd. }
  fold nameWidth in Hb, Hn.
  pose proof (nameWidthOf_le (map Cmd.CombinedPodData.Name data) 40) as Hlo.
  fold nameWidth in Hlo.
  split; [|split; [done|split]].
  - unfold Cmd.printTable. rewrite length_app, length_map. destruct noHeaders; simpl; lia.
  - by rewrite List.Forall_map in Hn.
  - unfold Cmd.printTable. fold nameWidth. apply Forall_app. split.
    + destruct noHeaders; [done|]. cbn [negb]. apply Forall_singleton.
      rewrite length_columns; [cbn; lia| |done].
      repeat (apply Forall_cons; split; [split; [split; [done|cbn; lia]|cbn; lia]|]).
      done.
    + rewrite List.Forall_map. rewrite List.Forall_map in Hn.
      rewrite Forall_forall in Hall, Hn |- *. intros d Hd.
      destruct (Hall d Hd) as (H1 & H2 & H3 & H4 & H5 & H6 & H7). specialize (Hn d Hd).
      cbn [compose]. rewrite length_columns; [cbn; lia| |done].
      apply Forall_cons. split.
      { cbn [fst snd]. split; [|lia]. destruct H1 as [? _]. by split. }
      repeat (apply Forall_cons; split; [split; [done|cbn; lia]|]). done.
Qed.

Lemma printTable_rectangular_witness :
  Forall (fun line => Z.of_nat (String.length line) = 40 + 93)
    (Cmd.printTable
       [ {| Cmd.CombinedPodData.Name := "pod1"; Cmd.CombinedPodData.CPUUsage := "100m";
            Cmd.CombinedPodData.CPURequest := "200m"; Cmd.CombinedPodData.CPULimit := "-";
            Cmd.CombinedPodData.MemoryUsage := "128.00Mi";
            Cmd.CombinedPodData.MemoryRequest := "256.00Mi";
            Cmd.CombinedPodData.MemoryLimit := "-" |} ] false).
Proof.
  apply (printTable_rectangular
       [ {| Cmd.CombinedPodData.Name := "pod1"; Cmd.CombinedPodData.CPUUsage := "100m";
            Cmd.CombinedPodData.CPURequest := "200m"; Cmd.CombinedPodData.CPULimit := "-";
            Cmd.CombinedPodData.MemoryUsage := "128.00Mi";
            Cmd.CombinedPodData.MemoryRequest := "256.00Mi";
            Cmd.CombinedPodData.MemoryLimit := "-" |} ] false).
  repeat constructor; vm_compute; discriminate.
Defined.

(** [printNodeTable] writes a rectangular table too: one line per
    node after the optional header line, every line as long as the name
    column, 50 or the longest name, and 111 more. *)
Theorem printNodeTable_rectangular (data : list Cmd.CombinedNodeData.t) (noHeaders : bool) :
  Forall TableRule.nodeRowFits data ->
  let nameWidth := Cmd.nameWidthOf 50 (map Cmd.CombinedNodeData.Name data) in
  length (Cmd.printNodeTable data noHeaders)
  = (length data + (if noHeaders then 0 else 1))%nat
  /\ 50 <= nameWidth
  /\ Forall (fun d => Z.of_nat (String.length (Cmd.CombinedNodeData.Name d)) <= nameWidth) data
  /\ Forall (fun line => Z.of_nat (String.length line) = nameWidth + 111)
            (Cmd.printNodeTable data noHeaders).
Proof.
  intros Hall nameWidth.
  destruct (nameWidthOf_bounds (map Cmd.CombinedNodeData.Name data) 50 (10 ^ 6)) as [Hb Hn].
  { lia. }
  { rewrite List.Forall_map. eapply Forall_impl; [exact Hall|].
    intros d (Hd & _). apply Hd. }
  fold nameWidth in Hb, Hn.
  pose proof (nameWidthOf_le (map Cmd.CombinedNodeData.Name data) 50) as Hlo.
  fold nameWidth in Hlo.
  split; [|split; [done|split]].
  - unfold Cmd.printNodeTable. rewrite length_app, length_map. destruct noHeaders; simpl; lia.
  - by rewrite List.Forall_map in Hn.
  - unfold Cmd.printNodeTable. fold nameWidth. apply Forall_app. split.
    + destruct noHeaders; [done|]. cbn [negb]. apply Forall_singleton.
      rewrite length_columns; [cbn; lia| |done].
      repeat (apply Forall_cons; split; [split; [split; [done|cbn; lia]|cbn; lia]|]).
      done.
    + rewrite List.Forall_map. rewrite List.Forall_map in Hn.
      rewrite Forall_forall in Hall, Hn |- *. intros d Hd.
      destruct (Hall d Hd) as (H1 & H2 & H3 & H4 & H5 & H6 & H7 & H8 & H9).
      specialize (Hn d Hd).
      cbn [compose]. rewrite length_columns; [cbn; lia| |done].
      apply Forall_cons. split.
      { cbn [fst snd]. split; [|lia]. destruct H1 as [? _]. by split. }
      repeat (apply Forall_cons; split; [split; [done|cbn; lia]|]). done.
Qed.

Lemma printNodeTable_rectangular_witness :
  Forall (fun line => Z.of_nat (String.length line) = 50 + 111)
    (Cmd.printNodeTable
       [ {| Cmd.CombinedNodeData.Name := "node1"; Cmd.CombinedNodeData.CPUUsage := "100m";
            Cmd.CombinedNodeData.CPUPercent := "2%";
            Cmd.CombinedNodeData.CPURequest := "200m"; Cmd.CombinedNodeData.CPULimit := "400m";
            Cmd.CombinedNodeData.MemoryUsage := "128Mi";
            Cmd.CombinedNodeData.MemoryPercent := "1%";
            Cmd.CombinedNodeData.MemoryRequest := "256Mi";
            Cmd.CombinedNodeData.MemoryLimit := "512Mi" |} ] false).
Proof.
  apply (printNodeTable_rectangular
       [ {| Cmd.CombinedNodeData.Name := "node1"; Cmd.CombinedNodeData.CPUUsage := "100m";
            Cmd.CombinedNodeData.CPUPercent := "2%";
            Cmd.CombinedNodeData.CPURequest := "200m"; Cmd.CombinedNodeData.CPULimit := "400m";
            Cmd.CombinedNodeData.MemoryUsage := "128Mi";
            Cmd.CombinedNodeData.MemoryPercent := "1%";
            Cmd.CombinedNodeData.MemoryRequest := "256Mi";
            Cmd.CombinedNodeData.MemoryLimit := "512Mi" |} ] false).
  repeat constructor; vm_compute; discriminate.
Defined.

(** ** Parsing what the formatters printed *)
Section ParseFacts.
Import Float64 Fmt Strings Resource Corev1 Pkg Cmd.

Lemma digits_only_append p q : digits_only (p +:+ q) = digits_only p && digits_only q.
Proof.
  induction p as [|c p IH]; [done|]. rewrite append_cons. simpl.
  by rewrite IH, andb_assoc.
Qed.

(** A run of digits does not end in ["m"]. *)
Lemma digits_only_no_m s : digits_only s = true -> TrimSuffix s "m" = s.
Proof.
  intros Hd. unfold TrimSuffix. destruct (HasSuffix s "m") eqn:E; [|done].
  apply HasSuffix_inv in E as [p ->]. rewrite digits_only_append in Hd.
  apply andb_true_iff in Hd as [_ Hd]. done.
Qed.

Lemma Sprintf_d_digits_only v : 0 <= v -> digits_only (Sprintf_d v) = true.
Proof.
  intros Hv. destruct (Sprintf_d_digits v Hv) as (c & r & -> & Hc & Hr).
  simpl. by rewrite Hc, Hr.
Qed.

(** [strconv.ParseFloat] reads a small non-negative integer back. *)
Lemma ParseFloat_Sprintf_d v : 0 <= v < 2 ^ 52 -> ParseFloat (Sprintf_d v) = of_Z v.
Proof.
  intros Hv. unfold ParseFloat, scan_float.
  destruct (Sprintf_d_digits v) as (c & r & E & Hc & _); [lia|].
  destruct (scan_digits_Sprintf_d v "") as (n & Hn & Hscan); [lia|done|].
  rewrite append_nil_r in Hscan.
  rewrite E, scan_sign_digit by done. rewrite <- E, Hscan.
  destruct n as [|n]; [lia|]. simpl Nat.eqb.
  unfold of_decimal. rewrite (proj2 (Z.ltb_lt v (2 ^ 52))) by lia. simpl.
  done.
Qed.

Lemma parseCPUValue_digits v :
  0 <= v < 2 ^ 52 -> parseCPUValue (Sprintf_d v) = of_Z v.
Proof.
  intros Hv. unfold parseCPUValue.
  destruct (Sprintf_d_digits v) as (c & r & E & Hc & _); [lia|].
  rewrite E, digit_head_not_sentinel by done. rewrite <- E.
  rewrite digits_only_no_m by (apply Sprintf_d_digits_only; lia).
  by apply Sscanf_f_Sprintf_d.
Qed.

Lemma parseCPUValueForNode_digits v :
  0 <= v < 2 ^ 52 -> parseCPUValueForNode (Sprintf_d v) = of_Z v.
Proof.
  intros Hv. unfold parseCPUValueForNode, unknownValue.
  destruct (Sprintf_d_digits v) as (c & r & E & Hc & _); [lia|].
  rewrite E, digit_head_not_sentinel by done. rewrite <- E.
  rewrite digits_only_no_m by (apply Sprintf_d_digits_only; lia).
  by apply ParseFloat_Sprintf_d.
Qed.

Lemma parseCPUValueForNode_milli v :
  0 < v < 1000 -> parseCPUValueForNode (Sprintf_d v +:+ "m") = of_Z v.
Proof.
  intros Hv. unfold parseCPUValueForNode, unknownValue.
  destruct (Sprintf_d_digits v) as (c & r & E & Hc & _); [lia|].
  rewrite E, append_cons, digit_head_not_sentinel by done.
  rewrite <- append_cons, <- E, TrimSuffix_append.
  apply ParseFloat_Sprintf_d. lia.
Qed.

(** The digits of an integer grow with it. *)
Lemma Zdigits2_mono a b : 0 < a <= b -> Zdigits2 a <= Zdigits2 b.
Proof.
  intros Hab.
  pose proof (Zdigits2_spec a ltac:(lia)) as Ha.
  pose proof (Zdigits2_spec b ltac:(lia)) as Hb.
  destruct (Z.le_gt_cases (Zdigits2 a) (Zdigits2 b)); [done|].
  assert (2 ^ Zdigits2 b <= 2 ^ (Zdigits2 a - 1)); [|lia].
  apply Z.pow_le_mono_r; lia.
Qed.

(** Floats of integers compare as the integers do. *)
Lemma SFltb_of_Z a b : 0 < a < b -> b < 2 ^ 53 -> SFltb (of_Z a) (of_Z b) = true.
Proof.
  intros Hab Hb.
  destruct (of_Z_exact a) as (-> & _ & Hda); [lia|].
  destruct (of_Z_exact b) as (-> & _ & Hdb); [lia|].
  pose proof (Zdigits2_mono a b ltac:(lia)) as Hmono.
  pose proof (Zdigits2_spec a ltac:(lia)) as Sa.
  pose proof (Zdigits2_spec b ltac:(lia)) as Sb.
  unfold SFltb, SFcompare.
  destruct (Z.compare_spec (Zdigits2 a - 53) (Zdigits2 b - 53)) as [He|He|He]; [|done|lia].
  assert (Zdigits2 a = Zdigits2 b) as Hd by lia. rewrite Hd.
  pose proof (pow2_pos (53 - Zdigits2 b) ltac:(lia)) as Hp.
  rewrite Pos.compare_cont_spec. cbn [Pos.switch_Eq].
  assert (Z.to_pos (a * 2 ^ (53 - Zdigits2 b)) < Z.to_pos (b * 2 ^ (53 - Zdigits2 b)))%positive
    as Hlt.
  { assert (0 < a * 2 ^ (53 - Zdigits2 b) < b * 2 ^ (53 - Zdigits2 b)) by nia. lia. }
  apply Pos.compare_lt_iff in Hlt. by rewrite Hlt.
Qed.
Lemma formatCPU_parse_units v :
  0 < v < 1000 -> parseCPUValue (formatCPU v) = of_Z v.
Proof.
  intros Hv. rewrite formatCPU_milli by done. unfold parseCPUValue.
  destruct (Sprintf_d_digits v) as (c & r & E & Hc & _); [lia|].
  rewrite E, append_cons, digit_head_not_sentinel by done.
  rewrite <- append_cons, <- E, TrimSuffix_append.
  apply Sscanf_f_Sprintf_d. lia.
Qed.
End ParseFacts.

(** [parseCPUValue] reads a usage below one core in millicores and a
    whole number of cores in cores: what [formatCPU] printed for [v]
    millicores below 1000 parses to [v], and what it printed for [k] whole
    cores, 1000 k millicores, parses to [k].  Sorting by "cpu" therefore
    puts a pod that uses [v] millicores before a pod that uses [k] cores
    whenever [k < v]. *)
Theorem cpu_sort_mixes_units (v k : Z) (a b : Cmd.CombinedPodData.t) :
  0 < v < 1000 -> 0 < k -> 1000 * k < 2 ^ 53 ->
  Cmd.CombinedPodData.CPUUsage a = Pkg.formatCPU v ->
  Cmd.CombinedPodData.CPUUsage b = Pkg.formatCPU (1000 * k) ->
  Cmd.parseCPUValue (Pkg.formatCPU v) = Float64.of_Z v
  /\ Cmd.parseCPUValue (Pkg.formatCPU (1000 * k)) = Float64.of_Z k
  /\ (k < v -> Cmd.sortCombinedData_less "cpu" a b = true
               /\ Cmd.sortCombinedData_less "cpu" b a = false).
Proof.
  intros Hv Hk Hlt Ha Hb.
  assert (Cmd.parseCPUValue (Pkg.formatCPU v) = Float64.of_Z v) as Pv
    by (by apply formatCPU_parse_units).
  assert (Cmd.parseCPUValue (Pkg.formatCPU (1000 * k)) = Float64.of_Z k) as Pk.
  { rewrite (formatCPU_whole (1000 * k) k) by lia. apply parseCPUValue_digits. lia. }
  split; [done|]. split; [done|]. intros Hkv.
  unfold Cmd.sortCombinedData_less. cbn [String.eqb Ascii.eqb Bool.eqb].
  rewrite Ha, Hb, Pv, Pk.
  pose proof (SFltb_of_Z k v ltac:(lia) ltac:(lia)) as Hlt'.
  split; [done|].
  unfold SFltb in *. destruct (SFcompare (Float64.of_Z k) (Float64.of_Z v)) as [[]|] eqn:E;
    try done.
  destruct (of_Z_exact k) as (Ek & _); [lia|]. destruct (of_Z_exact v) as (Ev & _); [lia|].
  rewrite Ek, Ev in E |- *. unfold SFcompare in *.
  destruct (Z.compare_spec (Zdigits2 k - 53) (Zdigits2 v - 53)) as [He|He|He];
    [|rewrite (proj2 (Z.compare_gt_iff _ _)) by lia; done|done].
  rewrite He, Z.compare_refl in *.
  rewrite Pos.compare_cont_spec in E |- *. cbn [Pos.switch_Eq] in *.
  rewrite Pos.compare_antisym. destruct (Pos.compare _ _); done.
Qed.

Lemma cpu_sort_mixes_units_witness :
  Cmd.sortCombinedData_less "cpu"
    {| Cmd.CombinedPodData.Name := "small"; Cmd.CombinedPodData.CPUUsage := Pkg.formatCPU 500;
       Cmd.CombinedPodData.CPURequest := "-"; Cmd.CombinedPodData.CPULimit := "-";
       Cmd.CombinedPodData.MemoryUsage := "0"; Cmd.CombinedPodData.MemoryRequest := "-";
       Cmd.CombinedPodData.MemoryLimit := "-" |}
    {| Cmd.CombinedPodData.Name := "large"; Cmd.CombinedPodData.CPUUsage := Pkg.formatCPU (1000 * 2);
       Cmd.CombinedPodData.CPURequest := "-"; Cmd.CombinedPodData.CPULimit := "-";
       Cmd.CombinedPodData.MemoryUsage := "0"; Cmd.CombinedPodData.MemoryRequest := "-";
       Cmd.CombinedPodData.MemoryLimit := "-" |} = true.
Proof.
  destruct (cpu_sort_mixes_units 500 2
    {| Cmd.CombinedPodData.Name := "small"; Cmd.CombinedPodData.CPUUsage := Pkg.formatCPU 500;
       Cmd.CombinedPodData.CPURequest := "-"; Cmd.CombinedPodData.CPULimit := "-";
       Cmd.CombinedPodData.MemoryUsage := "0"; Cmd.CombinedPodData.MemoryRequest := "-";
       Cmd.CombinedPodData.MemoryLimit := "-" |}
    {| Cmd.CombinedPodData.Name := "large"; Cmd.CombinedPodData.CPUUsage := Pkg.formatCPU (1000 * 2);
       Cmd.CombinedPodData.CPURequest := "-"; Cmd.CombinedPodData.CPULimit := "-";
       Cmd.CombinedPodData.MemoryUsage := "0"; Cmd.CombinedPodData.MemoryRequest := "-";
       Cmd.CombinedPodData.MemoryLimit := "-" |}) as (_ & _ & H);
    [lia|lia|lia|reflexivity|reflexivity|].
  exact (proj1 (H ltac:(lia))).
Defined.

Section NodeRowFacts.
Import Float64 Fmt Strings Resource Corev1 Pkg Cmd.

Lemma nodeRow_CPUPercent qs resources nodes sc m node :
  nodes !! NodeMetrics.Name m = Some node ->
  CombinedNodeData.CPUPercent (nodeRow qs resources nodes sc m)
  = (CalculateNodePercentages node (to_int64 (parseCPUValueForNode (NodeMetrics.CPU m)))
       (parseMemoryValueForNode (NodeMetrics.Memory m)) sc).1.
Proof.
  intros Hn. unfold nodeRow. rewrite Hn.
  destruct (CalculateNodePercentages _ _ _ _).
  by destruct (resources !! NodeMetrics.Name m).
Qed.

Lemma nodeRow_MemoryPercent qs resources nodes sc m node :
  nodes !! NodeMetrics.Name m = Some node ->
  CombinedNodeData.MemoryPercent (nodeRow qs resources nodes sc m)
  = (CalculateNodePercentages node (to_int64 (parseCPUValueForNode (NodeMetrics.CPU m)))
       (parseMemoryValueForNode (NodeMetrics.Memory m)) sc).2.
Proof.
  intros Hn. unfold nodeRow. rewrite Hn.
  destruct (CalculateNodePercentages _ _ _ _).
  by destruct (resources !! NodeMetrics.Name m).
Qed.
End NodeRowFacts.

(** The CPU percentage of a node is computed from the usage as
    [formatCPU] printed it, read back without its unit.  For a usage of
    [v] millicores below one core it is the percentage of [v]; for a usage
    of [k] whole cores it is the percentage of [k] millicores, a thousandth
    of the usage: a node with 4 cores allocatable that uses 2 cores shows
    "0%". *)
Theorem node_cpu_percent_reads_cores_as_millicores
    (QuantityString : Resource.Quantity -> string)
    (resources : gmap string Pkg.NodeAggregatedResources) (nodes : gmap string Corev1.Node)
    (showCapacity : bool) (m : Pkg.NodeMetrics.t) (node : Corev1.Node) (v k : Z) :
  nodes !! Pkg.NodeMetrics.Name m = Some node ->
  let row := Cmd.nodeRow QuantityString resources nodes showCapacity m in
  let memoryUsageBytes := Cmd.parseMemoryValueForNode (Pkg.NodeMetrics.Memory m) in
  (0 < v < 1000 -> Pkg.NodeMetrics.CPU m = Pkg.formatCPU v ->
   Cmd.CombinedNodeData.CPUPercent row
   = (Pkg.CalculateNodePercentages node v memoryUsageBytes showCapacity).1)
  /\ (0 < k -> 1000 * k < 2 ^ 53 -> Pkg.NodeMetrics.CPU m = Pkg.formatCPU (1000 * k) ->
      Cmd.CombinedNodeData.CPUPercent row
      = (Pkg.CalculateNodePercentages node k memoryUsageBytes showCapacity).1)
  /\ Cmd.CombinedNodeData.CPUPercent
       (Cmd.nodeRow QuantityString resources {[ "node1" := Examples.node4 ]} false
          {| Pkg.NodeMetrics.Name := "node1"; Pkg.NodeMetrics.CPU := Pkg.formatCPU 2000;
             Pkg.NodeMetrics.CPUPercent := ""; Pkg.NodeMetrics.Memory := Pkg.formatMemory 0;
             Pkg.NodeMetrics.MemoryPercent := "" |}) = "0%".
Proof.
  intros Hn row memoryUsageBytes. unfold row.
  rewrite (nodeRow_CPUPercent _ _ _ _ _ node Hn). fold memoryUsageBytes.
  split; [|split].
  - intros Hv ->. rewrite formatCPU_milli by done.
    rewrite parseCPUValueForNode_milli by done. by rewrite to_int64_of_Z by lia.
  - intros Hk Hlt ->. rewrite (formatCPU_whole (1000 * k) k) by lia.
    rewrite parseCPUValueForNode_digits by lia. by rewrite to_int64_of_Z by lia.
  - rewrite (nodeRow_CPUPercent _ _ _ _ _ Examples.node4) by done. done.
Qed.

Lemma node_cpu_percent_reads_cores_as_millicores_witness :
  Cmd.CombinedNodeData.CPUPercent
    (Cmd.nodeRow (fun _ => "") ∅ {[ "node1" := Examples.node4 ]} false
       {| Pkg.NodeMetrics.Name := "node1"; Pkg.NodeMetrics.CPU := Pkg.formatCPU (1000 * 2);
          Pkg.NodeMetrics.CPUPercent := ""; Pkg.NodeMetrics.Memory := Pkg.formatMemory 0;
          Pkg.NodeMetrics.MemoryPercent := "" |})
  = (Pkg.CalculateNodePercentages Examples.node4 2
       (Cmd.parseMemoryValueForNode (Pkg.formatMemory 0)) false).1.
Proof.
  refine (proj1 (proj2 (node_cpu_percent_reads_cores_as_millicores (fun _ => "") ∅
            {[ "node1" := Examples.node4 ]} false
            {| Pkg.NodeMetrics.Name := "node1"; Pkg.NodeMetrics.CPU := Pkg.formatCPU (1000 * 2);
               Pkg.NodeMetrics.CPUPercent := ""; Pkg.NodeMetrics.Memory := Pkg.formatMemory 0;
               Pkg.NodeMetrics.MemoryPercent := "" |} Examples.node4 1 2 eq_refl)) _ _ eq_refl);
    lia.
Defined.

(** ** Exact products and quotients *)
Section ExactFacts.
Import Float64 Fmt Strings Resource Corev1 Pkg Cmd.

(** A float divided by itself is one. *)
Lemma div_self s m e :
  Zdigits2 (Z.pos m) = 53 ->
  div (S754_finite s m e) (S754_finite s m e) = S754_finite false (Z.to_pos (2 ^ 52)) (-52).
Proof.
  intros Hm. rewrite div_normal by (done || lia). rewrite xorb_nilpotent.
  rewrite (nearest_representable _ _ _ _ (2 ^ 52) 1); try done; try lia.
  f_equal. lia.
Qed.

(** Multiplying by a power of two moves the exponent. *)
Lemma mul_pow2 s m e k :
  Zdigits2 (Z.pos m) = 53 -> -1000 <= e + k <= 900 ->
  mul (S754_finite s m e) (S754_finite false (Z.to_pos (2 ^ 52)) (k - 52))
  = S754_finite s m (e + k).
Proof.
  intros Hm He. rewrite mul_nearest, xorb_false_r.
  rewrite (nearest_representable _ _ _ _ (Z.pos m) 52); try done; try lia.
  f_equal. lia.
Qed.

Lemma of_Z_1024 : of_Z 1024 = S754_finite false (Z.to_pos (2 ^ 52)) (10 - 52).
Proof. done. Qed.

(** Multiplying the float of an integer by 1024 is exact while the
    product stays below [2^53]. *)
Lemma mul_1024 a : 0 < a -> 1024 * a < 2 ^ 53 -> mul (of_Z a) (of_Z 1024) = of_Z (1024 * a).
Proof.
  intros Ha Hlt.
  destruct (of_Z_exact a) as (-> & HdM & Hd); [lia|].
  destruct (of_Z_exact (1024 * a)) as (-> & _ & _); [lia|].
  pose proof (Zdigits2_spec a Ha) as Sa.
  assert (Zdigits2 (1024 * a) = Zdigits2 a + 10) as ->.
  { apply Zdigits2_bounds; [lia|]. replace (Zdigits2 a + 10 - 1) with (Zdigits2 a - 1 + 10) by lia.
    rewrite !Z.pow_add_r by lia. lia. }
  assert (Zdigits2 a + 10 <= 53) as Hle.
  { destruct (Z.le_gt_cases (Zdigits2 a + 10) 53); [done|].
    assert (2 ^ 53 <= 2 ^ (Zdigits2 a - 1 + 10)) by (apply Z.pow_le_mono_r; lia).
    rewrite Z.pow_add_r in * by lia. lia. }
  pose proof (pow2_pos (53 - Zdigits2 a) ltac:(lia)).
  rewrite of_Z_1024, mul_pow2; rewrite ?Z2Pos.id by lia; try done; try lia.
  f_equal; [|lia]. f_equal.
  assert (2 ^ (53 - Zdigits2 a) = 2 ^ 10 * 2 ^ (53 - (Zdigits2 a + 10))) as ->
    by (rewrite <- Z.pow_add_r by lia; f_equal; lia).
  lia.
Qed.

Lemma percentOf_zero_usage total totalValue :
  nano total <> 0 -> 0 < totalValue < 2 ^ 63 -> percentOf total totalValue 0 = "0%".
Proof.
  intros Hz Ht. unfold percentOf, IsZero.
  rewrite (proj2 (Z.eqb_neq _ 0) Hz), (proj2 (Z.ltb_lt 0 totalValue)) by lia.
  cbn [negb]. destruct (of_Z_normal totalValue) as (m & e & -> & _); [lia..|].
  rewrite (proj2 (Z.ltb_ge totalValue 0)) by lia. done.
Qed.

Lemma percentOf_full total totalValue :
  nano total <> 0 -> 0 < totalValue < 2 ^ 63 -> percentOf total totalValue totalValue = "100%".
Proof.
  intros Hz Ht. unfold percentOf, IsZero.
  rewrite (proj2 (Z.eqb_neq _ 0) Hz), (proj2 (Z.ltb_lt 0 totalValue)) by lia.
  cbn [negb]. destruct (of_Z_normal totalValue) as (m & e & -> & Hm & _); [lia..|].
  rewrite div_self by done. done.
Qed.

Lemma percentOf_negative total totalValue usage :
  nano total <> 0 -> totalValue <= 0 -> percentOf total totalValue usage = "0%".
Proof.
  intros Hz Ht. unfold percentOf, IsZero.
  by rewrite (proj2 (Z.eqb_neq _ 0) Hz), (proj2 (Z.ltb_ge 0 totalValue)) by lia.
Qed.

Lemma scaled_away_neg n scale : 0 < scale -> n < 0 -> scaled_away n scale < 0.
Proof.
  intros Hs Hn. unfold scaled_away. rewrite (proj2 (Z.leb_gt 0 n)) by lia.
  assert (0 < (- n + scale - 1) / scale); [|lia]. apply Z.div_str_pos. lia.
Qed.
End ExactFacts.

(** The ends of the percentage scale: against a positive total, a usage
    of nothing is "0%" and a usage equal to the total is "100%", for CPU
    and for memory; against a negative total every usage is "0%". *)
Theorem percentage_ends (node : Corev1.Node) (cpuUsageMilli memoryUsageBytes : Z)
    (showCapacity : bool) :
  let reference := if showCapacity then Corev1.Capacity node else Corev1.Allocatable node in
  let cpuTotal := Corev1.index reference Corev1.ResourceCPU in
  let memoryTotal := Corev1.index reference Corev1.ResourceMemory in
  (0 < Resource.nano cpuTotal -> Resource.MilliValue cpuTotal < 2 ^ 63 ->
   (Pkg.CalculateNodePercentages node 0 memoryUsageBytes showCapacity).1 = "0%"
   /\ (Pkg.CalculateNodePercentages node (Resource.MilliValue cpuTotal) memoryUsageBytes
         showCapacity).1 = "100%")
  /\ (0 < Resource.nano memoryTotal -> Resource.Value memoryTotal < 2 ^ 63 ->
      (Pkg.CalculateNodePercentages node cpuUsageMilli 0 showCapacity).2 = "0%"
      /\ (Pkg.CalculateNodePercentages node cpuUsageMilli (Resource.Value memoryTotal)
            showCapacity).2 = "100%")
  /\ (Resource.nano cpuTotal < 0 ->
      (Pkg.CalculateNodePercentages node cpuUsageMilli memoryUsageBytes showCapacity).1 = "0%")
  /\ (Resource.nano memoryTotal < 0 ->
      (Pkg.CalculateNodePercentages node cpuUsageMilli memoryUsageBytes showCapacity).2 = "0%").
Proof.
  intros reference cpuTotal memoryTotal.
  rewrite !CalculateNodePercentages_eq. fold reference. fold cpuTotal. fold memoryTotal.
  cbn [fst snd]. split; [|split; [|split]].
  - intros Hpos Hfit.
    pose proof (scaled_away_pos (Resource.nano cpuTotal) (10 ^ 6) ltac:(lia) Hpos).
    split; [apply percentOf_zero_usage|apply percentOf_full]; (lia || done).
  - intros Hpos Hfit.
    pose proof (scaled_away_pos (Resource.nano memoryTotal) (10 ^ 9) ltac:(lia) Hpos).
    split; [apply percentOf_zero_usage|apply percentOf_full]; (lia || done).
  - intros Hneg.
    pose proof (scaled_away_neg (Resource.nano cpuTotal) (10 ^ 6) ltac:(lia) Hneg).
    apply percentOf_negative; [lia|]. unfold Resource.MilliValue. lia.
  - intros Hneg.
    pose proof (scaled_away_neg (Resource.nano memoryTotal) (10 ^ 9) ltac:(lia) Hneg).
    apply percentOf_negative; [lia|]. unfold Resource.Value. lia.
Qed.

(** ** Two decimals, printed and scanned *)
Section FixedFacts.
Import Float64 Fmt Strings Resource Corev1 Pkg Cmd.

Lemma digit_char_digit x :
  0 <= x <= 9 -> is_digit (digit_char x) = true /\ digit_val (digit_char x) = x.
Proof.
  intros Hx.
  assert (x = 0 \/ x = 1 \/ x = 2 \/ x = 3 \/ x = 4 \/ x = 5 \/ x = 6 \/ x = 7 \/ x = 8 \/ x = 9)
    as H by lia.
  repeat (destruct H as [->|H]; [done|]). by subst.
Qed.

(** Scanning a numeral with two decimals: the digits before and after
    the point make up the hundredths. *)
Lemma scan_float_fixed2 a b c rest :
  0 <= a -> 0 <= b <= 9 -> 0 <= c <= 9 ->
  match rest with String ch _ => is_digit ch = false | EmptyString => True end ->
  scan_float (Sprintf_d a +:+ String "." (String (digit_char b) (String (digit_char c) rest)))
  = Some (of_decimal false (100 * a + 10 * b + c) 2, rest).
Proof.
  intros Ha Hb Hc Hrest. unfold scan_float.
  destruct (Sprintf_d_digits a Ha) as (ch & r & E & Hch & _).
  destruct (scan_digits_Sprintf_d a
              (String "." (String (digit_char b) (String (digit_char c) rest))))
    as (n & Hn & Hscan); [done|done|].
  rewrite E, append_cons, scan_sign_digit by done. rewrite <- append_cons, <- E, Hscan.
  destruct (digit_char_digit b Hb) as [Db Vb]. destruct (digit_char_digit c Hc) as [Dc Vc].
  rewrite !scan_digits_digit by done. rewrite scan_digits_stop by done.
  rewrite Vb, Vc. destruct n as [|n]; [lia|].
  replace (S n + 2 =? 0)%nat with false by (symmetry; apply Nat.eqb_neq; lia).
  do 3 f_equal. lia.
Qed.

(** The hundredths [n], scanned with [%f], are the float of [n / 100]. *)
Lemma Sscanf_f_fixed2 n rest :
  0 < n < 2 ^ 52 ->
  match rest with String ch _ => is_digit ch = false | EmptyString => True end ->
  Sscanf_f ((Sprintf_d (n / 100) +:+ "."
             +:+ String (digit_char (n mod 100 / 10)) (String (digit_char (n mod 10)) ""))
            +:+ rest)
  = div (of_Z n) (of_Z 100).
Proof.
  intros Hn Hrest. unfold Sscanf_f.
  rewrite !append_assoc. change ("." +:+ ?s) with (String "."%char s).
  rewrite !append_cons. change ("" +:+ rest) with rest.
  pose proof (Z.mod_pos_bound n 100 ltac:(lia)).
  pose proof (Z.mod_pos_bound n 10 ltac:(lia)).
  rewrite scan_float_fixed2; try done.
  2: { apply Z.div_pos; lia. }
  2: { split; [apply Z.div_pos; lia|].
       assert (n mod 100 / 10 < 10) by (apply Z.div_lt_upper_bound; lia). lia. }
  2: { lia. }
  assert (100 * (n / 100) + 10 * (n mod 100 / 10) + n mod 10 = n) as ->.
  { pose proof (Z.div_mod n 100 ltac:(lia)). pose proof (Z.div_mod (n mod 100) 10 ltac:(lia)).
    rewrite (Z.mod_mod_divide n 100 10) in * by (by exists 10). lia. }
  unfold of_decimal. rewrite (proj2 (Z.ltb_lt n (2 ^ 52))) by lia.
  cbn [Nat.leb andb]. change (10 ^ Z.of_nat 2) with 100.
  destruct (of_Z_normal n) as (m & e & Hof & Hm & He & _); [lia..|].
  rewrite Hof. rewrite of_Z_100.
  destruct (div_normal_finite (n <? 0) m e false (Z.to_pos (100 * 2 ^ 46)) (-46))
    as (mq & eq & -> & _); [done|done|lia|]. done.
Qed.

(** What [formatMemory] prints for a whole number [k] of a unit. *)
Lemma Sprintf_f_2_whole k j :
  0 < k -> 0 <= j <= 62 -> k * 2 ^ j < 2 ^ 53 ->
  Sprintf_f 2 (div (of_Z (k * 2 ^ j)) (of_Z (2 ^ j))) = Sprintf_d k +:+ ".00".
Proof.
  intros Hk Hj Hlt. pose proof (pow2_pos j ltac:(lia)).
  rewrite Sprintf_f_2_div_pow2 by (done || nia). cbn zeta.
  destruct (of_Z_held (k * 2 ^ j)) as (m & e & _ & _ & _ & _ & Hheld); [nia|].
  rewrite Hheld by done.
  replace (100 * (k * 2 ^ j)) with (100 * k * 2 ^ j) by lia.
  rewrite round_half_even_exact by done.
  rewrite Z.mul_comm, Z.div_mul by done.
  replace (k * 100 mod 100) with 0 by (symmetry; apply Z.mod_mul; lia).
  replace (k * 100 mod 10) with 0
    by (symmetry; replace (k * 100) with (k * 10 * 10) by lia; apply Z.mod_mul; lia).
  done.
Qed.

Lemma mul_1024_twice a :
  0 < a -> 1024 * (1024 * a) < 2 ^ 53 ->
  mul (mul (of_Z a) (of_Z 1024)) (of_Z 1024) = of_Z (1024 * (1024 * a)).
Proof. intros Ha Hlt. rewrite mul_1024 by lia. by rewrite mul_1024 by lia. Qed.

Lemma mul_1024_thrice a :
  0 < a -> 1024 * (1024 * (1024 * a)) < 2 ^ 53 ->
  mul (mul (mul (of_Z a) (of_Z 1024)) (of_Z 1024)) (of_Z 1024)
  = of_Z (1024 * (1024 * (1024 * a))).
Proof. intros Ha Hlt. rewrite mul_1024_twice by lia. by rewrite mul_1024 by lia. Qed.

(** Parsing a whole number of units with two zero decimals. *)
Lemma parseMemoryValue_whole k u :
  0 < k -> 2 ^ 30 * k < 2 ^ 53 ->
  u = "Gi" \/ u = "Mi" \/ u = "Ki" ->
  parseMemoryValue ((Sprintf_d k +:+ ".00") +:+ u)
  = k * (if String.eqb u "Gi" then 2 ^ 30 else if String.eqb u "Mi" then 2 ^ 20 else 2 ^ 10).
Proof.
  intros Hk Hlt Hu.
  assert (Sscanf_f ((Sprintf_d k +:+ ".00") +:+ u) = of_Z k) as Hscan.
  { pose proof (Sscanf_f_fixed2 (100 * k) u ltac:(lia)) as Hs.
    rewrite (Z.mul_comm 100 k), Z.div_mul in Hs by done.
    replace (k * 100 mod 100) with 0 in Hs by (symmetry; apply Z.mod_mul; lia).
    replace (k * 100 mod 10) with 0 in Hs
      by (symmetry; replace (k * 100) with (k * 10 * 10) by lia; apply Z.mod_mul; lia).
    change ("." +:+ String (digit_char (0 / 10)) (String (digit_char 0) "")) with ".00" in Hs.
    rewrite Hs by (by destruct Hu as [->|[->| ->]]).
    apply (div_exact (k * 100) 100 k); lia. }
  set (s := (Sprintf_d k +:+ ".00") +:+ u) in *.
  assert (String.eqb s "" || String.eqb s "-" || String.eqb s "<unknown>" = false) as Hsent.
  { destruct (Sprintf_d_digits k) as (c & r & E & Hc & _); [lia|].
    unfold s. rewrite E, !append_cons. by apply digit_head_not_sentinel. }
  unfold parseMemoryValue. rewrite Hsent. unfold s in *.
  destruct Hu as [->|[->| ->]].
  - rewrite HasSuffix_append, Hscan, mul_1024_thrice by lia.
    rewrite to_int64_of_Z by lia. cbn [String.eqb Ascii.eqb Bool.eqb]. lia.
  - rewrite (HasSuffix_append_length _ "Mi" "Gi") by done. cbn [String.eqb Ascii.eqb Bool.eqb].
    rewrite HasSuffix_append, Hscan, mul_1024_twice by lia.
    rewrite to_int64_of_Z by lia. lia.
  - rewrite (HasSuffix_append_length _ "Ki" "Gi") by done.
    rewrite (HasSuffix_append_length _ "Ki" "Mi") by done.
    cbn [String.eqb Ascii.eqb Bool.eqb].
    rewrite HasSuffix_append, Hscan, mul_1024 by lia.
    rewrite to_int64_of_Z by lia. lia.
Qed.
End FixedFacts.

(** A memory usage that is a whole number of the unit in which
    [formatMemory] prints it survives the round trip through the parsers:
    [k] Ki, Mi or Gi print as [k] with two zero decimals and the unit, and
    [parseMemoryValue] and [parseMemoryValueForNode] read the bytes back
    exactly. *)
Theorem memory_whole_units_round_trip (k j : Z) :
  j = 10 \/ j = 20 \/ j = 30 ->
  0 < k -> (j < 30 -> k < 2 ^ 10) -> k * 2 ^ j < 2 ^ 53 ->
  let suffix := if j =? 30 then "Gi" else if j =? 20 then "Mi" else "Ki" in
  Pkg.formatMemory (k * 2 ^ j) = (Fmt.Sprintf_d k +:+ ".00") +:+ suffix
  /\ Cmd.parseMemoryValue (Pkg.formatMemory (k * 2 ^ j)) = k * 2 ^ j
  /\ Cmd.parseMemoryValueForNode (Pkg.formatMemory (k * 2 ^ j)) = k * 2 ^ j.
Proof.
  intros Hj Hk Hsmall Hlt suffix.
  assert (Pkg.formatMemory (k * 2 ^ j) = (Fmt.Sprintf_d k +:+ ".00") +:+ suffix) as Hf.
  { rewrite formatMemory_unit. unfold Pkg.GB, Pkg.MB, Pkg.KB.
    change (1024 * 1024 * 1024) with (2 ^ 30). change (1024 * 1024) with (2 ^ 20).
    change 1024 with (2 ^ 10). unfold suffix.
    destruct Hj as [->|[->| ->]]; cbn [Z.eqb Pos.eqb];
      rewrite (proj2 (Z.eqb_neq _ 0)) by lia.
    - rewrite (proj2 (Z.leb_gt (2 ^ 30) _)), (proj2 (Z.leb_gt (2 ^ 20) _)) by lia.
      rewrite (proj2 (Z.leb_le (2 ^ 10) _)) by lia.
      by rewrite Sprintf_f_2_whole by lia.
    - rewrite (proj2 (Z.leb_gt (2 ^ 30) _)) by lia.
      rewrite (proj2 (Z.leb_le (2 ^ 20) _)) by lia.
      by rewrite Sprintf_f_2_whole by lia.
    - rewrite (proj2 (Z.leb_le (2 ^ 30) _)) by lia.
      by rewrite Sprintf_f_2_whole by lia. }
  assert (Cmd.parseMemoryValue (Pkg.formatMemory (k * 2 ^ j)) = k * 2 ^ j) as Hp.
  { rewrite Hf, parseMemoryValue_whole; unfold suffix.
    - by destruct Hj as [->|[->| ->]].
    - done.
    - destruct Hj as [->|[->| ->]]; lia.
    - destruct Hj as [->|[->| ->]]; auto. }
  split; [done|]. split; [done|]. exact Hp.
Qed.

Lemma memory_whole_units_round_trip_witness :
  Cmd.parseMemoryValue (Pkg.formatMemory (128 * 2 ^ 20)) = 128 * 2 ^ 20.
Proof.
  refine (proj1 (proj2 (memory_whole_units_round_trip 128 20 _ _ _ _))); [auto|lia|lia|lia].
Defined.

